(** * HierarchicalContextBridge: scheduler, bridge, task graph and context layers

    A shallow embedding of the Python sources

      - [core/bridge_scheduler/global_bridge.py]
        (StateFlagManager, InstantTriggerCoordinator, GlobalBridgeScheduler),
      - [core/dag_scheduler/task_decomposer.py] (TaskNode, TaskDAG),
      - [core/context_manager/hierarchical_context.py]
        (ContextRecord, ContextLayer, HierarchicalContextManager),

    followed by the properties of the specification, each stated over these
    definitions.

    Conventions of the embedding.
      - A Python [dict] is an association list in insertion order; a write to
        an existing key replaces the value in place, a write to a new key
        appends.
      - Objects held in a dict are mutated in place in the source; here the
        dict entry is rewritten under the same key.
      - [datetime.now()] is an oracle [wall]: the [n]-th reading of the clock
        returns [wall n]; the state counts the readings made so far.  Times
        are integers (microseconds).
      - A call that may raise returns an [option] or carries a flag; the
        handler of the source is the [match] on it. *)

From Stdlib Require Import List String Ascii ZArith Arith Bool Lia Permutation.
From Stdlib Require Import DecimalString.
Import ListNotations.

Set Implicit Arguments.
Set Warnings "-register-all".
Local Open Scope string_scope.
Local Open Scope list_scope.

(* ================================================================== *)
(** * Python values and the fragment of [json] the scheduler uses *)
(* ================================================================== *)

Module Py.

(** Times, in microseconds. *)
Definition Time := Z.

(** The values an executor may return ([result: Any]).  [PObject] stands for
    an instance of a class that [json] has no encoder for (a [set], [bytes],
    a [datetime], a user class); it carries its emptiness for truth testing.
    Floats are left out. *)
Inductive pyval : Type :=
| PNone
| PBool (b : bool)
| PInt (z : Z)
| PStr (s : string)
| PList (l : list pyval)
| PDict (d : list (string * pyval))
| PObject (name : string) (empty : bool).

(** Truth value of an object, as [if x:] tests it. *)
Definition truthy (v : pyval) : bool :=
  match v with
  | PNone => false
  | PBool b => b
  | PInt z => negb (Z.eqb z 0)
  | PStr s => negb (String.eqb s "")
  | PList l => match l with [] => false | _ => true end
  | PDict d => match d with [] => false | _ => true end
  | PObject _ e => negb e
  end.

(** [json_ok v]: [json.dumps v] does not raise [TypeError]. *)
Fixpoint json_ok (v : pyval) : bool :=
  match v with
  | PList l => forallb json_ok l
  | PDict d => forallb (fun kv => json_ok (snd kv)) d
  | PObject _ _ => false
  | _ => true
  end.

Definition dquote : ascii := "034"%char.
Definition backslash : ascii := "092"%char.
Definition newline : ascii := "010"%char.

Definition str1 (c : ascii) : string := String c EmptyString.

Definition hex_digit (n : nat) : ascii :=
  nth n (list_ascii_of_string "0123456789abcdef") "0"%char.

(** [json.encoder.encode_basestring]: the escapes of a string written with
    [ensure_ascii=False]. *)
Definition json_escape (c : ascii) : string :=
  let n := nat_of_ascii c in
  if Nat.eqb n 34 then String backslash (str1 dquote)
  else if Nat.eqb n 92 then String backslash (str1 backslash)
  else if Nat.eqb n 10 then String backslash "n"
  else if Nat.eqb n 13 then String backslash "r"
  else if Nat.eqb n 9 then String backslash "t"
  else if Nat.eqb n 8 then String backslash "b"
  else if Nat.eqb n 12 then String backslash "f"
  else if Nat.ltb n 32
       then String backslash
              ("u00" ++ String (hex_digit (n / 16)) (str1 (hex_digit (n mod 16))))
  else str1 c.

Definition json_str (s : string) : string :=
  str1 dquote ++ concat "" (map json_escape (list_ascii_of_string s)) ++ str1 dquote.

Definition string_of_Z (z : Z) : string := NilZero.string_of_int (Z.to_int z).

Fixpoint spaces (n : nat) : string :=
  match n with O => "" | S k => " " ++ spaces k end.

(** Line break followed by the indentation of nesting depth [lvl]
    ([indent=2]). *)
Definition nl (lvl : nat) : string := str1 newline ++ spaces (2 * lvl).

(** The text [json.dumps(v, ensure_ascii=False, indent=2)] writes for an
    encodable [v]. *)
Fixpoint json_text (lvl : nat) (v : pyval) : string :=
  match v with
  | PNone => "null"
  | PBool true => "true"
  | PBool false => "false"
  | PInt z => string_of_Z z
  | PStr s => json_str s
  | PList [] => "[]"
  | PList l =>
      "[" ++ nl (S lvl)
          ++ concat ("," ++ nl (S lvl)) (map (json_text (S lvl)) l)
          ++ nl lvl ++ "]"
  | PDict [] => "{}"
  | PDict d =>
      "{" ++ nl (S lvl)
          ++ concat ("," ++ nl (S lvl))
               (map (fun kv => (json_str (fst kv) ++ ": " ++ json_text (S lvl) (snd kv))%string) d)
          ++ nl lvl ++ "}"
  | PObject _ _ => ""
  end.

(** [json.dumps]; [None] is the [TypeError] of a value with no encoder. *)
Definition json_dumps (v : pyval) : option string :=
  if json_ok v then Some (json_text 0 v) else None.

(** [needle in haystack] on strings. *)
Fixpoint contains (needle haystack : string) : bool :=
  if String.prefix needle haystack then true
  else match haystack with
       | EmptyString => false
       | String _ rest => contains needle rest
       end.

End Py.

(* ================================================================== *)
(** * [global_bridge.py]: data model *)
(* ================================================================== *)

Module GlobalBridge.
Import Py.

(** [class NodeState(Enum)]. *)
Inductive NodeState : Type :=
| IDLE | READY | EXECUTING | COMPLETED | FAILED | BLOCKED.

Definition NodeState_eqb (a b : NodeState) : bool :=
  match a, b with
  | IDLE, IDLE | READY, READY | EXECUTING, EXECUTING
  | COMPLETED, COMPLETED | FAILED, FAILED | BLOCKED, BLOCKED => true
  | _, _ => false
  end.

(** [NodeState.value]. *)
Definition state_value (st : NodeState) : string :=
  match st with
  | IDLE => "idle" | READY => "ready" | EXECUTING => "executing"
  | COMPLETED => "completed" | FAILED => "failed" | BLOCKED => "blocked"
  end.

(** [@dataclass ExecutionNode].  [execution_time] is held in microseconds. *)
Record ExecutionNode : Type := mkNode {
  id : string;
  role : string;
  task_id : string;
  state : NodeState;
  upstream_nodes : list string;
  downstream_nodes : list string;
  prompt : string;
  context_data : list (string * pyval);
  result : pyval;
  error : option string;
  execution_time : Z;
  created_at : Time;
  started_at : option Time;
  completed_at : option Time
}.

(** Attribute assignments [node.f = v]. *)
Definition set_state (v : NodeState) (n : ExecutionNode) : ExecutionNode :=
  mkNode (id n) (role n) (task_id n) v (upstream_nodes n) (downstream_nodes n)
         (prompt n) (context_data n) (result n) (error n) (execution_time n)
         (created_at n) (started_at n) (completed_at n).

Definition set_upstream_nodes (v : list string) (n : ExecutionNode) : ExecutionNode :=
  mkNode (id n) (role n) (task_id n) (state n) v (downstream_nodes n)
         (prompt n) (context_data n) (result n) (error n) (execution_time n)
         (created_at n) (started_at n) (completed_at n).

Definition set_downstream_nodes (v : list string) (n : ExecutionNode) : ExecutionNode :=
  mkNode (id n) (role n) (task_id n) (state n) (upstream_nodes n) v
         (prompt n) (context_data n) (result n) (error n) (execution_time n)
         (created_at n) (started_at n) (completed_at n).

Definition set_prompt (v : string) (n : ExecutionNode) : ExecutionNode :=
  mkNode (id n) (role n) (task_id n) (state n) (upstream_nodes n) (downstream_nodes n)
         v (context_data n) (result n) (error n) (execution_time n)
         (created_at n) (started_at n) (completed_at n).

Definition set_result (v : pyval) (n : ExecutionNode) : ExecutionNode :=
  mkNode (id n) (role n) (task_id n) (state n) (upstream_nodes n) (downstream_nodes n)
         (prompt n) (context_data n) v (error n) (execution_time n)
         (created_at n) (started_at n) (completed_at n).

Definition set_error (v : option string) (n : ExecutionNode) : ExecutionNode :=
  mkNode (id n) (role n) (task_id n) (state n) (upstream_nodes n) (downstream_nodes n)
         (prompt n) (context_data n) (result n) v (execution_time n)
         (created_at n) (started_at n) (completed_at n).

Definition set_execution_time (v : Z) (n : ExecutionNode) : ExecutionNode :=
  mkNode (id n) (role n) (task_id n) (state n) (upstream_nodes n) (downstream_nodes n)
         (prompt n) (context_data n) (result n) (error n) v
         (created_at n) (started_at n) (completed_at n).

Definition set_started_at (v : option Time) (n : ExecutionNode) : ExecutionNode :=
  mkNode (id n) (role n) (task_id n) (state n) (upstream_nodes n) (downstream_nodes n)
         (prompt n) (context_data n) (result n) (error n) (execution_time n)
         (created_at n) v (completed_at n).

Definition set_completed_at (v : option Time) (n : ExecutionNode) : ExecutionNode :=
  mkNode (id n) (role n) (task_id n) (state n) (upstream_nodes n) (downstream_nodes n)
         (prompt n) (context_data n) (result n) (error n) (execution_time n)
         (created_at n) (started_at n) v.

(** The values found in the dict of [ExecutionNode.to_dict]. *)
Inductive FieldValue : Type :=
| FStr (s : string)
| FIds (l : list string)
| FData (d : list (string * pyval))
| FAny (v : pyval)
| FOptStr (o : option string)
| FSeconds (micros : Z)
| FTime (t : Time)
| FOptTime (o : option Time).

(** [ExecutionNode.to_dict]: [asdict(self)] with ['state'] replaced by the
    state's value. *)
Definition to_dict (n : ExecutionNode) : list (string * FieldValue) :=
  [ ("id", FStr (id n));
    ("role", FStr (role n));
    ("task_id", FStr (task_id n));
    ("state", FStr (state_value (state n)));
    ("upstream_nodes", FIds (upstream_nodes n));
    ("downstream_nodes", FIds (downstream_nodes n));
    ("prompt", FStr (prompt n));
    ("context_data", FData (context_data n));
    ("result", FAny (result n));
    ("error", FOptStr (error n));
    ("execution_time", FSeconds (execution_time n));
    ("created_at", FTime (created_at n));
    ("started_at", FOptTime (started_at n));
    ("completed_at", FOptTime (completed_at n)) ].

(** [@dataclass BridgeRequest]. *)
Record BridgeRequest : Type := mkRequest {
  request_id : string;
  source_node : string;
  target_node : string;
  query : string;
  intent : string;
  scope : string;
  consent_token : string;
  timestamp : Time
}.

(** [@dataclass BridgeResponse]; [data] is [None] or a dict;
    [processing_time] is held in microseconds. *)
Record BridgeResponse : Type := mkResponse {
  resp_request_id : string;
  success : bool;
  data : option (list (string * FieldValue));
  source_namespaces : list string;
  processing_time : Z;
  resp_timestamp : Time
}.

(** The dict [_log_audit] appends. *)
Record AuditEntry : Type := mkAudit {
  audit_timestamp : Time;
  audit_request_id : string;
  audit_source : string;
  audit_target : string;
  audit_intent : string;
  audit_scope : string;
  decision : string;
  reason : string;
  audit_processing_time : Z
}.

(** What the loggers write at level info and above. *)
Inductive LogRecord : Type :=
| StateChange (node_id : string) (old_state new_state : NodeState)
| InstantTrigger (node_id : string)
| ListenerFailed.

(** The only callable this module ever hands to [add_listener]. *)
Inductive Callback : Type := OnStateChange.

(** A prompt generator reads the registered nodes and the node it writes for;
    [None] when it raises. *)
Definition PromptGenerator : Type :=
  list ExecutionNode -> ExecutionNode -> option string.

(** One [GlobalBridgeScheduler] with its [StateFlagManager] and its
    [InstantTriggerCoordinator].  [bridge_policies] is never read and is not
    represented. *)
Record Scheduler : Type := mkScheduler {
  nodes : list ExecutionNode;
  state_listeners : list (string * list Callback);
  prompt_generator : option PromptGenerator;
  audit_log : list AuditEntry;
  journal : list LogRecord;
  clock_reads : nat
}.

Definition with_nodes (v : list ExecutionNode) (s : Scheduler) : Scheduler :=
  mkScheduler v (state_listeners s) (prompt_generator s) (audit_log s)
              (journal s) (clock_reads s).

Definition with_listeners (v : list (string * list Callback)) (s : Scheduler) : Scheduler :=
  mkScheduler (nodes s) v (prompt_generator s) (audit_log s)
              (journal s) (clock_reads s).

Definition with_generator (v : option PromptGenerator) (s : Scheduler) : Scheduler :=
  mkScheduler (nodes s) (state_listeners s) v (audit_log s)
              (journal s) (clock_reads s).

Definition with_audit (v : list AuditEntry) (s : Scheduler) : Scheduler :=
  mkScheduler (nodes s) (state_listeners s) (prompt_generator s) v
              (journal s) (clock_reads s).

Definition logged (r : LogRecord) (s : Scheduler) : Scheduler :=
  mkScheduler (nodes s) (state_listeners s) (prompt_generator s) (audit_log s)
              (journal s ++ [r]) (clock_reads s).

Definition tick (s : Scheduler) : Scheduler :=
  mkScheduler (nodes s) (state_listeners s) (prompt_generator s) (audit_log s)
              (journal s) (S (clock_reads s)).

(** [GlobalBridgeScheduler()]. *)
Definition create_scheduler : Scheduler :=
  mkScheduler [] [] None [] [] 0.

(** ** The node dict *)

(** [nodes.get(i)]. *)
Definition find_node (ns : list ExecutionNode) (i : string) : option ExecutionNode :=
  find (fun n => String.eqb (id n) i) ns.

(** [nodes[node.id] = node]. *)
Fixpoint dict_set (n : ExecutionNode) (ns : list ExecutionNode) : list ExecutionNode :=
  match ns with
  | [] => [n]
  | m :: rest => if String.eqb (id m) (id n) then n :: rest else m :: dict_set n rest
  end.

(** The entry of key [i] after its object was mutated by [f]. *)
Definition alter (f : ExecutionNode -> ExecutionNode) (i : string)
           (ns : list ExecutionNode) : list ExecutionNode :=
  map (fun n => if String.eqb (id n) i then f n else n) ns.

Definition alter_node (f : ExecutionNode -> ExecutionNode) (i : string)
           (s : Scheduler) : Scheduler :=
  with_nodes (alter f i (nodes s)) s.

(** [state_listeners.get(i, [])]. *)
Fixpoint listeners_of (ls : list (string * list Callback)) (i : string) : list Callback :=
  match ls with
  | [] => []
  | (k, cbs) :: rest => if String.eqb k i then cbs else listeners_of rest i
  end.

(** [StateFlagManager.add_listener]. *)
Fixpoint add_listener (i : string) (cb : Callback)
         (ls : list (string * list Callback)) : list (string * list Callback) :=
  match ls with
  | [] => [(i, [cb])]
  | (k, cbs) :: rest =>
      if String.eqb k i then (k, cbs ++ [cb]) :: rest
      else (k, cbs) :: add_listener i cb rest
  end.

(* ================================================================== *)
(** * [global_bridge.py]: operations *)
(* ================================================================== *)

Section Operations.

(** The clock: [wall k] is what the [k]-th call of [datetime.now()] returns. *)
Variable wall : nat -> Time.

(** ** [StateFlagManager] *)

(** [StateFlagManager.register_node]. *)
Definition register_node (node : ExecutionNode) (s : Scheduler) : Scheduler :=
  with_nodes (dict_set node (nodes s)) s.

(** The body of [update_state] for a registered node [n], up to the call of
    [_notify_listeners]: the state is written, the time stamp taken for
    EXECUTING, COMPLETED and FAILED, and the change logged. *)
Definition mark (n : ExecutionNode) (new_state : NodeState) (s : Scheduler) : Scheduler :=
  let now := wall (clock_reads s) in
  let s1 :=
    match new_state with
    | EXECUTING =>
        tick (alter_node (fun m => set_started_at (Some now) (set_state new_state m)) (id n) s)
    | COMPLETED | FAILED =>
        tick (alter_node (fun m => set_completed_at (Some now) (set_state new_state m)) (id n) s)
    | _ => alter_node (set_state new_state) (id n) s
    end in
  logged (StateChange (id n) (state n) new_state) s1.

(** [_notify_listeners]: every callback runs inside its own [try]; one that
    raises is logged and the next one runs.  [react] is the callback applied
    to the arguments of the notification; its flag tells that it raised. *)
Definition notify_listeners (react : Scheduler -> Scheduler * bool)
           (listeners : list Callback) (s : Scheduler) : Scheduler :=
  fold_left
    (fun acc cb =>
       match cb with
       | OnStateChange =>
           let '(s', raised) := react acc in
           if raised then logged ListenerFailed s' else s'
       end)
    listeners s.

(** [update_state], over the behaviour [react] of the registered callback. *)
Definition update_state_with
           (react : string -> NodeState -> NodeState -> Scheduler -> Scheduler * bool)
           (node_id : string) (new_state : NodeState) (s : Scheduler) : bool * Scheduler :=
  match find_node (nodes s) node_id with
  | None => (false, s)
  | Some n =>
      let s1 := mark n new_state s in
      (true,
       notify_listeners (react node_id (state n) new_state)
                        (listeners_of (state_listeners s1) node_id) s1)
  end.

(** ** [InstantTriggerCoordinator] *)

(** [_on_state_change] on a transition that is not a completion: the
    condition fails and the callback returns. *)
Definition on_other_change (node_id : string) (old_state new_state : NodeState)
           (s : Scheduler) : Scheduler * bool :=
  (s, false).

(** [update_state] as [_trigger_downstream_nodes] calls it: always with
    READY, so every callback it notifies returns at once. *)
Definition update_state_nested (node_id : string) (new_state : NodeState)
           (s : Scheduler) : bool * Scheduler :=
  update_state_with on_other_change node_id new_state s.

(** The test [all(nodes.get(up) and nodes[up].state == COMPLETED for up in
    upstream_nodes)]. *)
Definition all_deps_completed (ns : list ExecutionNode) (node : ExecutionNode) : bool :=
  forallb
    (fun up_id =>
       match find_node ns up_id with
       | Some up => NodeState_eqb (state up) COMPLETED
       | None => false
       end)
    (upstream_nodes node).

(** The loop of [_trigger_downstream_nodes] over the downstream ids that are
    left.  The flag is set when the prompt generator raised: the exception
    leaves the loop, and what was written before it stays. *)
Fixpoint trigger_loop (downstream : list string) (s : Scheduler) : Scheduler * bool :=
  match downstream with
  | [] => (s, false)
  | downstream_id :: rest =>
      match find_node (nodes s) downstream_id with
      | None => trigger_loop rest s
      | Some downstream_node =>
          if all_deps_completed (nodes s) downstream_node then
            match prompt_generator s with
            | Some generator =>
                match generator (nodes s) downstream_node with
                | None => (s, true)
                | Some text =>
                    let s1 := alter_node (set_prompt text) downstream_id s in
                    let s2 := snd (update_state_nested downstream_id READY s1) in
                    trigger_loop rest (logged (InstantTrigger downstream_id) s2)
                end
            | None =>
                let s2 := snd (update_state_nested downstream_id READY s) in
                trigger_loop rest (logged (InstantTrigger downstream_id) s2)
            end
          else trigger_loop rest s
      end
  end.

(** [_trigger_downstream_nodes]. *)
Definition trigger_downstream_nodes (completed_node_id : string)
           (s : Scheduler) : Scheduler * bool :=
  match find_node (nodes s) completed_node_id with
  | None => (s, false)
  | Some completed_node => trigger_loop (downstream_nodes completed_node) s
  end.

(** [_on_state_change]. *)
Definition on_state_change (node_id : string) (old_state new_state : NodeState)
           (s : Scheduler) : Scheduler * bool :=
  match new_state with
  | COMPLETED => trigger_downstream_nodes node_id s
  | _ => (s, false)
  end.

(** [StateFlagManager.update_state]. *)
Definition update_state (node_id : string) (new_state : NodeState)
           (s : Scheduler) : bool * Scheduler :=
  update_state_with on_state_change node_id new_state s.

(** [StateFlagManager.get_state]. *)
Definition get_state (s : Scheduler) (node_id : string) : option NodeState :=
  option_map state (find_node (nodes s) node_id).

(** ** [GlobalBridgeScheduler] *)

(** [register_nodes]: every node is registered, then the coordinator's
    callback is appended to every node's listeners. *)
Definition register_nodes (dag_nodes : list ExecutionNode) (s : Scheduler) : Scheduler :=
  let s1 := fold_left (fun acc node => register_node node acc) dag_nodes s in
  fold_left
    (fun acc node =>
       with_listeners (add_listener (id node) OnStateChange (state_listeners acc)) acc)
    dag_nodes s1.

(** The inner loop of [set_node_dependencies]: [node_id] is appended to the
    downstream list of every registered upstream node that lacks it. *)
Definition link_upstream (node_id : string) (upstream_ids : list string)
           (ns : list ExecutionNode) : list ExecutionNode :=
  fold_left
    (fun acc up_id =>
       match find_node acc up_id with
       | Some up =>
           if existsb (String.eqb node_id) (downstream_nodes up) then acc
           else alter (fun m => set_downstream_nodes (downstream_nodes m ++ [node_id]) m)
                      up_id acc
       | None => acc
       end)
    upstream_ids ns.

(** [set_node_dependencies]; the argument is the dict
    [{node_id: [upstream_node_ids]}] in insertion order. *)
Definition set_node_dependencies (dependencies : list (string * list string))
           (s : Scheduler) : Scheduler :=
  fold_left
    (fun acc entry =>
       let '(node_id, upstream_ids) := entry in
       match find_node (nodes acc) node_id with
       | Some _ =>
           let ns1 := alter (set_upstream_nodes upstream_ids) node_id (nodes acc) in
           with_nodes (link_upstream node_id upstream_ids ns1) acc
       | None => acc
       end)
    dependencies s.

(** The list [upstream_results] of [generate_prompt]: one dict for every
    registered upstream node whose result is true. *)
Definition upstream_results (ns : list ExecutionNode) (node : ExecutionNode) : list pyval :=
  flat_map
    (fun up_id =>
       match find_node ns up_id with
       | Some up_node =>
           if truthy (result up_node)
           then [PDict [("node", PStr up_id); ("role", PStr (role up_node));
                        ("result", result up_node)]]
           else []
       | None => []
       end)
    (upstream_nodes node).

(** [generate_prompt]; it raises when [json.dumps] does. *)
Definition generate_prompt : PromptGenerator :=
  fun ns node =>
    match json_dumps (PList (upstream_results ns node)) with
    | None => None
    | Some dumped =>
        Some (str1 newline
              ++ "你的角色: " ++ role node ++ str1 newline
              ++ "任务ID: " ++ task_id node ++ str1 newline
              ++ str1 newline
              ++ "上游任务结果:" ++ str1 newline
              ++ dumped ++ str1 newline
              ++ str1 newline
              ++ "请基于上游结果执行你的任务。" ++ str1 newline)%string
    end.

(** [_validate_consent_token]. *)
Definition validate_consent_token (request : BridgeRequest) : bool :=
  negb (orb (String.eqb (consent_token request) "")
            (Nat.ltb (String.length (consent_token request)) 8)).

(** The dict [_check_bridge_policy] returns. *)
Record Policy : Type := mkPolicy { allowed : bool; policy_reason : string }.

(** [_check_bridge_policy]. *)
Definition check_bridge_policy (request : BridgeRequest) : Policy :=
  mkPolicy true "".

(** [data.pop(key, None)]. *)
Definition dict_pop (key : string) (d : list (string * FieldValue))
  : list (string * FieldValue) :=
  filter (fun kv => negb (String.eqb (fst kv) key)) d.

(** [d.get(key)]. *)
Definition dict_get (key : string) (d : list (string * FieldValue)) : option FieldValue :=
  option_map snd (find (fun kv => String.eqb (fst kv) key) d).

(** [_filter_by_scope]. *)
Definition filter_by_scope (node : ExecutionNode) (scope : string)
  : list (string * FieldValue) :=
  if String.eqb scope "public" then to_dict node
  else if String.eqb scope "shared" then dict_pop "prompt" (to_dict node)
  else [("id", FStr (id node)); ("state", FStr (state_value (state node)))].

(** [_log_audit]. *)
Definition log_audit (request : BridgeRequest) (response : option BridgeResponse)
           (decision : string) (reason : string) (s : Scheduler) : Scheduler :=
  let entry :=
    mkAudit (wall (clock_reads s)) (request_id request) (source_node request)
            (target_node request) (intent request) (scope request) decision reason
            (match response with Some r => processing_time r | None => 0%Z end) in
  with_audit (audit_log s ++ [entry]) (tick s).

(** [bridge_context]. *)
Definition bridge_context (request : BridgeRequest) (s : Scheduler)
  : BridgeResponse * Scheduler :=
  let start_time := wall (clock_reads s) in
  let s := tick s in
  if negb (validate_consent_token request) then
    (mkResponse (request_id request) false None [] 0%Z (wall (clock_reads s)), tick s)
  else
    let policy := check_bridge_policy request in
    if negb (allowed policy) then
      let s := log_audit request None "DENIED" (policy_reason policy) s in
      (mkResponse (request_id request) false
                  (Some [("error", FStr (policy_reason policy))]) [] 0%Z
                  (wall (clock_reads s)), tick s)
    else
      match find_node (nodes s) (source_node request),
            find_node (nodes s) (target_node request) with
      | Some _, Some target =>
          let bridged_data := filter_by_scope target (scope request) in
          let elapsed := (wall (clock_reads s) - start_time)%Z in
          let s := tick s in
          let response :=
            mkResponse (request_id request) true (Some bridged_data)
                       [target_node request] elapsed (wall (clock_reads s)) in
          let s := tick s in
          (response, log_audit request (Some response) "ALLOWED" "" s)
      | _, _ =>
          (mkResponse (request_id request) false
                      (Some [("error", FStr "Node not found")]) [] 0%Z
                      (wall (clock_reads s)), tick s)
      end.

(** ** [execute_dag] *)

Section Run.

(** The execution capability: [inl r] when the call returns [r], [inr msg]
    when it raises an exception whose [str] is [msg]. *)
Variable executor : ExecutionNode -> pyval + string.

(** The threads of one [asyncio.gather] finish in an order the source does
    not fix: [schedule pass ids] is the order in which the tasks dispatched in
    loop pass [pass] resume after their [await]. *)
Variable schedule : nat -> list string -> list string.

(** One entry of the dict [execute_dag] returns. *)
Record NodeStatus : Type := mkStatus {
  status_state : string;
  status_result : pyval;
  status_error : option string;
  status_execution_time : Z
}.

(** What one pass of the loop did. *)
Inductive Pass : Type :=
| PassDispatch (ids : list string)
| PassSleep
| PassBreak.

(** The seeding loop: every node of the argument without upstream nodes is
    set READY. *)
Definition seed_roots (dag_nodes : list ExecutionNode) (s : Scheduler) : Scheduler :=
  fold_left
    (fun acc node =>
       match upstream_nodes node with
       | [] => snd (update_state (id node) READY acc)
       | _ => acc
       end)
    dag_nodes s.

(** The [for] loop that sets every ready node EXECUTING. *)
Definition dispatch (ready_ids : list string) (s : Scheduler) : Scheduler :=
  fold_left (fun acc i => snd (update_state i EXECUTING acc)) ready_ids s.

(** The first step of every task of the gather: [start_time] is read. *)
Definition start_tasks (ready_ids : list string) (s : Scheduler)
  : list (string * Time) * Scheduler :=
  fold_left
    (fun acc i =>
       let '(starts, s') := acc in
       (starts ++ [(i, wall (clock_reads s'))], tick s'))
    ready_ids ([], s).

Fixpoint start_of (starts : list (string * Time)) (i : string) : Time :=
  match starts with
  | [] => 0%Z
  | (k, t) :: rest => if String.eqb k i then t else start_of rest i
  end.

(** [_execute_node] from the point where the executor's thread has finished:
    the outcome is stored in the node and the state updated.  The executor is
    given the node as it stands then. *)
Definition finish_node (starts : list (string * Time)) (i : string)
           (s : Scheduler) : Scheduler :=
  match find_node (nodes s) i with
  | None => s
  | Some node =>
      let elapsed := (wall (clock_reads s) - start_of starts i)%Z in
      let s1 := tick s in
      match executor node with
      | inl r =>
          snd (update_state i COMPLETED
                 (alter_node (fun m => set_execution_time elapsed (set_result r m)) i s1))
      | inr msg =>
          snd (update_state i FAILED
                 (alter_node (fun m => set_execution_time elapsed (set_error (Some msg) m)) i s1))
      end
  end.

(** [await asyncio.gather( *tasks )]. *)
Definition gather (pass : nat) (ready_ids : list string) (s : Scheduler) : Scheduler :=
  let '(starts, s1) := start_tasks ready_ids s in
  fold_left (fun acc i => finish_node starts i acc) (schedule pass ready_ids) s1.

Definition is_ready (n : ExecutionNode) : bool := NodeState_eqb (state n) READY.

(** [n.state in [COMPLETED, FAILED]]. *)
Definition is_done (n : ExecutionNode) : bool :=
  orb (NodeState_eqb (state n) COMPLETED) (NodeState_eqb (state n) FAILED).

(** [for _ in range(max_iterations)], [remaining] passes being left; the
    result is the scheduler after the loop and what each pass did. *)
Fixpoint run_loop (remaining : nat) (pass : nat) (s : Scheduler) : Scheduler * list Pass :=
  match remaining with
  | O => (s, [])
  | S remaining' =>
      match map id (filter is_ready (nodes s)) with
      | [] =>
          if forallb is_done (nodes s) then (s, [PassBreak])
          else
            let '(s', passes) := run_loop remaining' (S pass) s in
            (s', PassSleep :: passes)
      | ready_ids =>
          let s1 := gather pass ready_ids (dispatch ready_ids s) in
          let '(s', passes) := run_loop remaining' (S pass) s1 in
          (s', PassDispatch ready_ids :: passes)
      end
  end.

(** The dict built after the loop. *)
Definition collect_results (s : Scheduler) : list (string * NodeStatus) :=
  map (fun node =>
         (id node,
          mkStatus (state_value (state node)) (result node) (error node)
                   (execution_time node)))
      (nodes s).

(** What a call of [execute_dag] leaves: the returned dict, the scheduler and
    the passes of the loop. *)
Record Run : Type := mkRun {
  results : list (string * NodeStatus);
  final : Scheduler;
  passes : list Pass
}.

(** The state in which [execute_dag] enters its loop. *)
Definition prepare (dag_nodes : list ExecutionNode) (s : Scheduler) : Scheduler :=
  seed_roots dag_nodes
    (with_generator (Some generate_prompt) (register_nodes dag_nodes s)).

(** [execute_dag]. *)
Definition execute_dag (dag_nodes : list ExecutionNode) (s : Scheduler) : Run :=
  let '(s', ps) := run_loop (2 * List.length dag_nodes) 0 (prepare dag_nodes s) in
  mkRun (collect_results s') s' ps.

Definition is_sleep (p : Pass) : bool :=
  match p with PassSleep => true | _ => false end.

Definition is_dispatch (p : Pass) : bool :=
  match p with PassDispatch _ => true | _ => false end.

(** The number of times the loop called [asyncio.sleep]. *)
Definition sleeps (r : Run) : nat := List.length (filter is_sleep (passes r)).

(** The number of passes in which nodes were dispatched. *)
Definition rounds (r : Run) : nat := List.length (filter is_dispatch (passes r)).

End Run.

End Operations.

(** ** The run of [__main__] *)

(** The four nodes of the example at the end of the file; their creation
    times are readings [0] to [3] of the clock. *)
Definition demo_node (i r t : string) (ups : list string) (created : Time) : ExecutionNode :=
  mkNode i r t IDLE ups [] "" [] PNone None 0%Z created None None.

Definition demo_nodes : list ExecutionNode :=
  [ demo_node "node_1" "architect" "task_001" [] 0%Z;
    demo_node "node_2" "developer" "task_002" ["node_1"] 1%Z;
    demo_node "node_3" "developer" "task_003" ["node_1"] 2%Z;
    demo_node "node_4" "quality" "task_004" ["node_2"; "node_3"] 3%Z ].

Definition demo_dependencies : list (string * list string) :=
  [ ("node_2", ["node_1"]); ("node_3", ["node_1"]); ("node_4", ["node_2"; "node_3"]) ].

(** [mock_executor]. *)
Definition mock_executor (node : ExecutionNode) : pyval + string :=
  inl (PStr ("Result from " ++ role node)%string).

(** A clock that advances by one microsecond at every reading. *)
Definition demo_wall (k : nat) : Time := Z.of_nat k.

(** Tasks finish in the order of their dispatch. *)
Definition in_order (pass : nat) (ids : list string) : list string := ids.

(** The scheduler [main()] runs [execute_dag] on: the nodes registered and
    their dependencies set. *)
Definition demo_scheduler : Scheduler :=
  set_node_dependencies demo_dependencies (register_nodes demo_nodes create_scheduler).

(** The nodes as [execute_dag] receives them: the objects of [demo_nodes]
    after [set_node_dependencies] wrote their downstream lists. *)
Definition demo_run : Run :=
  execute_dag demo_wall mock_executor in_order (nodes demo_scheduler) demo_scheduler.

End GlobalBridge.

(* ================================================================== *)
(** * [task_decomposer.py]: the task graph *)
(* ================================================================== *)

Module TaskDecomposer.
Import Py.

(** [class TaskComplexity(Enum)]. *)
Inductive TaskComplexity : Type :=
| TRIVIAL | SIMPLE | MODERATE | COMPLEX | EXPERT.

(** [class TaskType(Enum)]. *)
Inductive TaskType : Type :=
| ANALYSIS | DEVELOPMENT | DESIGN | DOCUMENTATION
| TESTING | RESEARCH | INTEGRATION | OPTIMIZATION.

(** [class TaskState(Enum)]. *)
Inductive TaskState : Type :=
| PENDING | READY | RUNNING | COMPLETED | FAILED | BLOCKED.

Definition TaskState_eqb (a b : TaskState) : bool :=
  match a, b with
  | PENDING, PENDING | READY, READY | RUNNING, RUNNING
  | COMPLETED, COMPLETED | FAILED, FAILED | BLOCKED, BLOCKED => true
  | _, _ => false
  end.

(** [@dataclass TaskNode]. *)
Record TaskNode : Type := mkTask {
  id : string;
  title : string;
  description : string;
  task_type : TaskType;
  complexity : TaskComplexity;
  estimated_time_minutes : Z;
  required_role : string;
  dependencies : list string;
  parallel_group : option string;
  priority : Z;
  skills_required : list string;
  context_requirements : list (string * pyval);
  deliverables : list string;
  state : TaskState;
  context_level : string;
  context_data : list (string * pyval)
}.

(** [node.state = v]. *)
Definition set_state (v : TaskState) (n : TaskNode) : TaskNode :=
  mkTask (id n) (title n) (description n) (task_type n) (complexity n)
         (estimated_time_minutes n) (required_role n) (dependencies n)
         (parallel_group n) (priority n) (skills_required n)
         (context_requirements n) (deliverables n) v (context_level n)
         (context_data n).

(** [@dataclass TaskDAG].  The fields [parallelizable_ratio],
    [execution_plan] and [context_hierarchy] are written once by
    [decompose_task] and read by none of the methods below; they are not
    represented.  [nodes] is the dict from task id to node. *)
Record TaskDAG : Type := mkDAG {
  session_id : string;
  total_nodes : nat;
  parallel_groups : list (string * list string);
  critical_path : list string;
  estimated_total_time : Z;
  nodes : list (string * TaskNode)
}.

Definition with_nodes (v : list (string * TaskNode)) (g : TaskDAG) : TaskDAG :=
  mkDAG (session_id g) (total_nodes g) (parallel_groups g) (critical_path g)
        (estimated_total_time g) v.

(** [nodes.values()]. *)
Definition values (ns : list (string * TaskNode)) : list TaskNode := map snd ns.

(** [nodes[k]] for a key of the dict ([task_id in nodes] when [Some]). *)
Fixpoint lookup (ns : list (string * TaskNode)) (k : string) : option TaskNode :=
  match ns with
  | [] => None
  | (k', n) :: rest => if String.eqb k' k then Some n else lookup rest k
  end.

(** The entry of key [k] after its object was mutated by [f]. *)
Definition alter (f : TaskNode -> TaskNode) (k : string)
           (ns : list (string * TaskNode)) : list (string * TaskNode) :=
  map (fun kv => if String.eqb (fst kv) k then (fst kv, f (snd kv)) else kv) ns.

(** [TaskDAG._find_node_by_title]. *)
Definition find_node_by_title (ns : list (string * TaskNode)) (t : string)
  : option TaskNode :=
  find (fun node => contains t (title node)) (values ns).

(** The test of [get_ready_tasks]: the dependencies that name no node are
    filtered out, the others must name a COMPLETED node. *)
Definition deps_completed (ns : list (string * TaskNode)) (node : TaskNode) : bool :=
  forallb
    (fun dep =>
       match find_node_by_title ns dep with
       | Some found => TaskState_eqb (state found) COMPLETED
       | None => true
       end)
    (dependencies node).

(** [TaskDAG.get_ready_tasks]. *)
Definition get_ready_tasks (g : TaskDAG) : list TaskNode :=
  filter
    (fun node => andb (TaskState_eqb (state node) PENDING) (deps_completed (nodes g) node))
    (values (nodes g)).

(** The test [all_deps_done] of [_trigger_downstream_ready_check]. *)
Definition all_deps_done (ns : list (string * TaskNode)) (node : TaskNode) : bool :=
  forallb
    (fun dep =>
       match find_node_by_title ns dep with
       | Some found => TaskState_eqb (state found) COMPLETED
       | None => false
       end)
    (dependencies node).

(** The loop of [_trigger_downstream_ready_check] over the keys that are
    left; every node is read as the loop finds it. *)
Fixpoint ready_check_loop (completed_title : string) (keys : list string)
         (ns : list (string * TaskNode)) : list (string * TaskNode) :=
  match keys with
  | [] => ns
  | k :: rest =>
      match lookup ns k with
      | None => ready_check_loop completed_title rest ns
      | Some node =>
          if andb (TaskState_eqb (state node) PENDING)
               (andb (existsb (fun dep => contains completed_title dep) (dependencies node))
                     (all_deps_done ns node))
          then ready_check_loop completed_title rest (alter (set_state READY) k ns)
          else ready_check_loop completed_title rest ns
      end
  end.

(** [TaskDAG._trigger_downstream_ready_check]; the caller has checked that
    the key is in the dict. *)
Definition trigger_downstream_ready_check (completed_task_id : string)
           (ns : list (string * TaskNode)) : list (string * TaskNode) :=
  match lookup ns completed_task_id with
  | None => ns
  | Some completed_node => ready_check_loop (title completed_node) (map fst ns) ns
  end.

(** [TaskDAG.update_task_state]. *)
Definition update_task_state (task_id : string) (new_state : TaskState)
           (g : TaskDAG) : TaskDAG :=
  match lookup (nodes g) task_id with
  | None => g
  | Some _ =>
      let ns := alter (set_state new_state) task_id (nodes g) in
      match new_state with
      | COMPLETED => with_nodes (trigger_downstream_ready_check task_id ns) g
      | _ => with_nodes ns g
      end
  end.

(* ================================================================== *)
(** * [task_decomposer.py]: the decomposer *)
(* ================================================================== *)

Definition TaskType_eqb (a b : TaskType) : bool :=
  match a, b with
  | ANALYSIS, ANALYSIS | DEVELOPMENT, DEVELOPMENT | DESIGN, DESIGN
  | DOCUMENTATION, DOCUMENTATION | TESTING, TESTING | RESEARCH, RESEARCH
  | INTEGRATION, INTEGRATION | OPTIMIZATION, OPTIMIZATION => true
  | _, _ => false
  end.

(** The dict [type_indicators] of [identify_task_type_and_roles], in its
    order. *)
Definition type_indicators : list (TaskType * list string) :=
  [ (ANALYSIS, ["analyze"; "analysis"; "research"; "investigate"; "evaluate"]);
    (DEVELOPMENT, ["develop"; "code"; "build"; "implement"; "create"; "program"]);
    (DESIGN, ["design"; "prototype"; "wireframe"; "mockup"; "ui"; "ux"]);
    (DOCUMENTATION, ["document"; "docs"; "manual"; "guide"; "tutorial"]);
    (TESTING, ["test"; "testing"; "validate"; "verify"; "check"; "qa"]);
    (RESEARCH, ["research"; "survey"; "compare"; "benchmark"; "explore"]);
    (INTEGRATION, ["integrate"; "connect"; "combine"; "merge"; "link"]);
    (OPTIMIZATION, ["optimize"; "improve"; "enhance"; "performance"; "speed"]) ].

(** The dict [role_indicators], in its order. *)
Definition role_indicators : list (string * list string) :=
  [ ("architect", ["system"; "architecture"; "design"; "plan"; "strategy"]);
    ("analyst", ["data"; "analysis"; "statistics"; "ml"; "model"; "algorithm"]);
    ("developer", ["code"; "api"; "backend"; "frontend"; "database"; "server"]);
    ("quality", ["test"; "qa"; "quality"; "validation"; "verification"]);
    ("designer", ["ui"; "ux"; "design"; "interface"; "user"; "experience"]);
    ("docs", ["document"; "docs"; "manual"; "guide"; "tutorial"]) ].

(** [sum(1 for indicator in indicators if indicator in task_lower)]. *)
Definition indicator_score (task_lower : string) (indicators : list string) : nat :=
  List.length (filter (fun indicator => contains indicator task_lower) indicators).

(** The loop over [type_indicators]: the pair [(task_type, max_score)] after
    it, begun at [(DEVELOPMENT, 0)]; a type replaces the one held only with a
    strictly higher score. *)
Definition choose_type (task_lower : string) : TaskType * nat :=
  fold_left
    (fun acc entry =>
       let score := indicator_score task_lower (snd entry) in
       if Nat.ltb (snd acc) score then (fst entry, score) else acc)
    type_indicators (DEVELOPMENT, 0).

(** The dict [role_scores]: the roles of a score above 0, in the order of
    [role_indicators]. *)
Definition role_scores (task_lower : string) : list (string * nat) :=
  filter (fun kv => Nat.ltb 0 (snd kv))
         (map (fun entry => (fst entry, indicator_score task_lower (snd entry)))
              role_indicators).

(** [sorted(items, key=lambda x: x[1], reverse=True)]: by falling score, items
    of equal score staying in the order they had. *)
Fixpoint insert_by_score (x : string * nat) (l : list (string * nat))
  : list (string * nat) :=
  match l with
  | [] => [x]
  | y :: rest =>
      if Nat.leb (snd y) (snd x) then x :: y :: rest
      else y :: insert_by_score x rest
  end.

Definition sorted_by_score (l : list (string * nat)) : list (string * nat) :=
  fold_right insert_by_score [] l.

(** One of the dicts [generate_subtasks] returns. *)
Record Subtask : Type := mkSubtask {
  sub_title : string;
  sub_description : string;
  sub_role : string;
  sub_estimated_time : Z;
  sub_dependencies : list string;
  sub_parallel_group : option string
}.

(** [_generate_expert_level_subtasks]; it reads neither of its arguments. *)
Definition generate_expert_level_subtasks (task_description : string)
           (task_type : TaskType) : list Subtask :=
  [ mkSubtask "深度需求分析" "使用Sequential Thinking进行深度需求分析"
              "architect" 30%Z [] None;
    mkSubtask "技术调研" "调研相关技术和最佳实践"
              "analyst" 25%Z [] (Some "research");
    mkSubtask "竞品分析" "分析竞品解决方案和创新点"
              "analyst" 20%Z [] (Some "research");
    mkSubtask "系统架构设计" "设计完整的系统架构"
              "architect" 40%Z ["深度需求分析"; "技术调研"; "竞品分析"] None;
    mkSubtask "核心模块开发" "实现系统核心功能模块"
              "developer" 60%Z ["系统架构设计"] (Some "development");
    mkSubtask "数据层实现" "实现数据存储和访问层"
              "developer" 45%Z ["系统架构设计"] (Some "development");
    mkSubtask "API接口开发" "实现RESTful API接口"
              "developer" 40%Z ["系统架构设计"] (Some "development");
    mkSubtask "用户界面设计" "设计和实现用户界面"
              "designer" 50%Z ["系统架构设计"] (Some "development");
    mkSubtask "单元测试" "编写和执行单元测试"
              "quality" 35%Z ["核心模块开发"; "数据层实现"] (Some "testing");
    mkSubtask "集成测试" "进行系统集成测试"
              "quality" 30%Z ["API接口开发"; "用户界面设计"] (Some "testing");
    mkSubtask "技术文档" "编写完整的技术文档"
              "docs" 30%Z ["单元测试"; "集成测试"] (Some "finalization");
    mkSubtask "部署方案" "准备生产环境部署方案"
              "architect" 25%Z ["单元测试"; "集成测试"] (Some "finalization") ].

Section Decomposer.

(** [str.lower()]. *)
Variable lower : string -> string.

(** [identify_task_type_and_roles]. *)
Definition identify_task_type_and_roles (task_description : string)
  : TaskType * list string :=
  let task_lower := lower task_description in
  let task_type := fst (choose_type task_lower) in
  let sorted_roles := sorted_by_score (role_scores task_lower) in
  let required_roles :=
    match map fst (firstn 3 sorted_roles) with
    | [] => ["developer"]
    | roles => roles
    end in
  (task_type, required_roles).

(** [generate_subtasks]; [None] is the [IndexError] of [required_roles[0]]
    on an empty list. *)
Definition generate_subtasks (task_description : string)
           (complexity : TaskComplexity) : option (list Subtask) :=
  let '(task_type, required_roles) := identify_task_type_and_roles task_description in
  match complexity with
  | TRIVIAL =>
      match required_roles with
      | role :: _ =>
          Some [mkSubtask task_description task_description role 15%Z [] None]
      | [] => None
      end
  | SIMPLE =>
      Some [ mkSubtask "设计方案" "分析需求并设计实现方案"
                       "architect" 10%Z [] None;
             mkSubtask "实现功能" "根据设计方案实现具体功能"
                       "developer" 20%Z ["设计方案"] None ]
  | MODERATE | COMPLEX =>
      let subtasks :=
        [ mkSubtask "需求分析" "深度分析任务需求和约束条件"
                    "architect" 20%Z [] None;
          mkSubtask "系统设计" "设计系统架构和实现方案"
                    "architect" 25%Z ["需求分析"] None ] in
      let subtasks :=
        if TaskType_eqb task_type DEVELOPMENT then
          subtasks
            ++ [ mkSubtask "后端开发" "实现后端API和业务逻辑"
                           "developer" 45%Z ["系统设计"] (Some "implementation");
                 mkSubtask "前端开发" "实现用户界面和交互"
                           "designer" 40%Z ["系统设计"] (Some "implementation");
                 mkSubtask "测试用例" "编写单元测试和集成测试"
                           "quality" 30%Z ["系统设计"] (Some "implementation") ]
        else subtasks in
      Some (subtasks
              ++ [ mkSubtask "系统集成" "集成各模块并进行测试"
                             "quality" 20%Z
                             (if TaskType_eqb task_type DEVELOPMENT
                              then ["后端开发"; "前端开发"; "测试用例"]
                              else ["系统设计"])
                             None ])
  | EXPERT => Some (generate_expert_level_subtasks task_description task_type)
  end.

End Decomposer.

(** [not node.parallel_group]. *)
Definition ungrouped (n : TaskNode) : bool :=
  match parallel_group n with
  | Some g => String.eqb g ""
  | None => true
  end.

(** The times [nodes[tid].estimated_time_minutes for tid in task_ids];
    [None] is the [KeyError] of an id that is no key. *)
Fixpoint times_of (ns : list (string * TaskNode)) (task_ids : list string)
  : option (list Z) :=
  match task_ids with
  | [] => Some []
  | tid :: rest =>
      match lookup ns tid, times_of ns rest with
      | Some n, Some ts => Some (estimated_time_minutes n :: ts)
      | _, _ => None
      end
  end.

(** [max(...)]; [None] is the [ValueError] of an empty sequence. *)
Definition max_time (ts : list Z) : option Z :=
  match ts with
  | [] => None
  | t :: rest => Some (fold_left Z.max rest t)
  end.

(** [_calculate_parallel_time]; [None] when it raises. *)
Definition calculate_parallel_time (ns : list (string * TaskNode))
           (groups : list (string * list string)) : option Z :=
  let grouped :=
    fold_left
      (fun acc group =>
         match acc, times_of ns (snd group) with
         | Some sequential_time, Some ts =>
             match max_time ts with
             | Some group_max_time => Some (sequential_time + group_max_time)%Z
             | None => None
             end
         | _, _ => None
         end)
      groups (Some 0%Z) in
  match grouped with
  | Some sequential_time =>
      Some (sequential_time
            + fold_right Z.add 0
                (map estimated_time_minutes (filter ungrouped (values ns))))%Z
  | None => None
  end.

(** One of the dicts under ["tasks"] in a phase of the execution plan. *)
Record PlanTask : Type := mkPlanTask {
  plan_task_id : string;
  plan_role : string;
  plan_estimated_time : Z
}.

Definition plan_task (task : TaskNode) : PlanTask :=
  mkPlanTask (id task) (required_role task) (estimated_time_minutes task).

(** One phase of the execution plan; only a parallel phase has the key
    ["max_concurrent"]. *)
Record Phase : Type := mkPhase {
  phase_name : string;
  phase_type : string;
  phase_max_concurrent : option Z;
  phase_tasks : list PlanTask
}.

(** [[nodes[tid] for tid in task_ids]]; [None] is the [KeyError] of an id
    that is no key. *)
Fixpoint nodes_of (ns : list (string * TaskNode)) (task_ids : list string)
  : option (list TaskNode) :=
  match task_ids with
  | [] => Some []
  | tid :: rest =>
      match lookup ns tid, nodes_of ns rest with
      | Some n, Some group_tasks => Some (n :: group_tasks)
      | _, _ => None
      end
  end.

(** [_generate_execution_plan]; [None] when it raises. *)
Definition generate_execution_plan (ns : list (string * TaskNode))
           (groups : list (string * list string)) (max_instances : Z)
  : option (list Phase) :=
  let sequential_tasks := filter ungrouped (values ns) in
  let execution_phases :=
    match sequential_tasks with
    | [] => []
    | _ => [ mkPhase "sequential_preparation" "sequential" None
                     (map plan_task (firstn 2 sequential_tasks)) ]
    end in
  fold_left
    (fun acc group =>
       match acc, nodes_of ns (snd group) with
       | Some phases, Some group_tasks =>
           Some (phases
                   ++ [ mkPhase ("parallel_" ++ fst group) "parallel"
                                (Some (Z.min (Z.of_nat (List.length group_tasks))
                                             max_instances))
                                (map plan_task group_tasks) ])
       | _, _ => None
       end)
    groups (Some execution_phases).

End TaskDecomposer.

(* ================================================================== *)
(** * [hierarchical_context.py]: the context layers *)
(* ================================================================== *)

Module HierarchicalContext.
Import Py.

(** [class ContextLevel(Enum)]. *)
Inductive ContextLevel : Type :=
| L1_SYSTEM | L2_PROJECT | L3_NODE | L4_SESSION.

Definition ContextLevel_eqb (a b : ContextLevel) : bool :=
  match a, b with
  | L1_SYSTEM, L1_SYSTEM | L2_PROJECT, L2_PROJECT
  | L3_NODE, L3_NODE | L4_SESSION, L4_SESSION => true
  | _, _ => false
  end.

(** [class ContextScope(Enum)]. *)
Inductive ContextScope : Type :=
| PRIVATE | SHARED | PUBLIC.

Definition is_private (sc : ContextScope) : bool :=
  match sc with PRIVATE => true | _ => false end.

(** The id [create_context] builds,
    [f"{level.value}_{content_hash}_{now:%Y%m%d%H%M%S}"], kept as its three
    parts: the level, the first twelve hex digits of the SHA-256 of the
    content, and the second of the clock reading. *)
Record RecordId : Type := mkId {
  id_level : ContextLevel;
  id_digest : string;
  id_second : Z
}.

Definition RecordId_eqb (a b : RecordId) : bool :=
  andb (ContextLevel_eqb (id_level a) (id_level b))
       (andb (String.eqb (id_digest a) (id_digest b))
             (Z.eqb (id_second a) (id_second b))).

(** [@dataclass ContextRecord]. *)
Record ContextRecord : Type := mkRecord {
  id : RecordId;
  level : ContextLevel;
  scope : ContextScope;
  content : string;
  metadata : list (string * pyval);
  project_id : option string;
  node_id : option string;
  session_id : option string;
  created_at : Time;
  ttl_minutes : option Z;
  last_accessed : option Time;
  isolated : bool
}.

Definition set_ttl_minutes (v : option Z) (r : ContextRecord) : ContextRecord :=
  mkRecord (id r) (level r) (scope r) (content r) (metadata r) (project_id r)
           (node_id r) (session_id r) (created_at r) v (last_accessed r)
           (isolated r).

Definition set_last_accessed (v : option Time) (r : ContextRecord) : ContextRecord :=
  mkRecord (id r) (level r) (scope r) (content r) (metadata r) (project_id r)
           (node_id r) (session_id r) (created_at r) (ttl_minutes r) v
           (isolated r).

(** [ContextLayer.TTL_CONFIG]. *)
Definition TTL_CONFIG (l : ContextLevel) : option Z :=
  match l with
  | L1_SYSTEM => None
  | L2_PROJECT => Some 120%Z
  | L3_NODE => Some 30%Z
  | L4_SESSION => Some 10%Z
  end.

(** The dict [ContextLayer.records]. *)
Definition Records : Type := list (RecordId * ContextRecord).

(** [records.get(k)]. *)
Fixpoint records_get (rs : Records) (k : RecordId) : option ContextRecord :=
  match rs with
  | [] => None
  | (k', r) :: rest => if RecordId_eqb k' k then Some r else records_get rest k
  end.

(** [records[k] = r]. *)
Fixpoint records_set (k : RecordId) (r : ContextRecord) (rs : Records) : Records :=
  match rs with
  | [] => [(k, r)]
  | (k', r') :: rest =>
      if RecordId_eqb k' k then (k', r) :: rest else (k', r') :: records_set k r rest
  end.

(** An index [Dict[str, Set[str]]]; a set is kept as the list of its
    elements in the order they were added (the source iterates it in an
    order of its own). *)
Definition Index : Type := list (string * list RecordId).

Fixpoint index_get (ix : Index) (k : string) : list RecordId :=
  match ix with
  | [] => []
  | (k', ids) :: rest => if String.eqb k' k then ids else index_get rest k
  end.

Definition set_add (x : RecordId) (ids : list RecordId) : list RecordId :=
  if existsb (RecordId_eqb x) ids then ids else ids ++ [x].

Fixpoint index_add (k : string) (x : RecordId) (ix : Index) : Index :=
  match ix with
  | [] => [(k, [x])]
  | (k', ids) :: rest =>
      if String.eqb k' k then (k', set_add x ids) :: rest
      else (k', ids) :: index_add k x rest
  end.

(** A [HierarchicalContextManager] built without [db_path]: its four layers,
    its two indexes and the number of clock readings made. *)
Record Manager : Type := mkManager {
  layer_L1 : Records;
  layer_L2 : Records;
  layer_L3 : Records;
  layer_L4 : Records;
  project_contexts : Index;
  node_contexts : Index;
  clock_reads : nat
}.

(** [HierarchicalContextManager()]. *)
Definition create_manager : Manager := mkManager [] [] [] [] [] [] 0.

(** [self.layers[l].records]. *)
Definition layer (m : Manager) (l : ContextLevel) : Records :=
  match l with
  | L1_SYSTEM => layer_L1 m
  | L2_PROJECT => layer_L2 m
  | L3_NODE => layer_L3 m
  | L4_SESSION => layer_L4 m
  end.

Definition with_layer (l : ContextLevel) (v : Records) (m : Manager) : Manager :=
  match l with
  | L1_SYSTEM =>
      mkManager v (layer_L2 m) (layer_L3 m) (layer_L4 m)
                (project_contexts m) (node_contexts m) (clock_reads m)
  | L2_PROJECT =>
      mkManager (layer_L1 m) v (layer_L3 m) (layer_L4 m)
                (project_contexts m) (node_contexts m) (clock_reads m)
  | L3_NODE =>
      mkManager (layer_L1 m) (layer_L2 m) v (layer_L4 m)
                (project_contexts m) (node_contexts m) (clock_reads m)
  | L4_SESSION =>
      mkManager (layer_L1 m) (layer_L2 m) (layer_L3 m) v
                (project_contexts m) (node_contexts m) (clock_reads m)
  end.

Definition with_project_contexts (v : Index) (m : Manager) : Manager :=
  mkManager (layer_L1 m) (layer_L2 m) (layer_L3 m) (layer_L4 m)
            v (node_contexts m) (clock_reads m).

Definition with_node_contexts (v : Index) (m : Manager) : Manager :=
  mkManager (layer_L1 m) (layer_L2 m) (layer_L3 m) (layer_L4 m)
            (project_contexts m) v (clock_reads m).

Definition with_clock_reads (v : nat) (m : Manager) : Manager :=
  mkManager (layer_L1 m) (layer_L2 m) (layer_L3 m) (layer_L4 m)
            (project_contexts m) (node_contexts m) v.

(** A string argument that the source tests with [if x:]. *)
Definition given (o : option string) : option string :=
  match o with
  | Some s => if String.eqb s "" then None else Some s
  | None => None
  end.

Definition opt_string_eqb (a b : option string) : bool :=
  match a, b with
  | Some x, Some y => String.eqb x y
  | None, None => true
  | _, _ => false
  end.

Section Operations.

(** The clock, as in the scheduler. *)
Variable wall : nat -> Time.

(** The first twelve hex digits of [hashlib.sha256(content.encode())]. *)
Variable sha256_hex12 : string -> string.

Definition microseconds_per_minute : Z := 60000000.
Definition microseconds_per_second : Z := 1000000.

(** [ContextRecord.is_expired], with the clock readings made before and
    after it: the clock is read only when the record has a TTL. *)
Definition is_expired (r : ContextRecord) (reads : nat) : bool * nat :=
  match ttl_minutes r with
  | None => (false, reads)
  | Some ttl =>
      (Z.ltb (created_at r + ttl * microseconds_per_minute) (wall reads), S reads)
  end.

(** The record after [add_record] gave it the TTL of the layer when it had
    none. *)
Definition with_default_ttl (l : ContextLevel) (r : ContextRecord) : ContextRecord :=
  match ttl_minutes r with
  | None => set_ttl_minutes (TTL_CONFIG l) r
  | Some _ => r
  end.

(** [ContextLayer.add_record] on the layer of level [l]. *)
Definition add_record (l : ContextLevel) (r : ContextRecord) (m : Manager) : Manager :=
  let r1 := with_default_ttl l r in
  with_layer l (records_set (id r1) r1 (layer m l)) m.

(** [ContextLayer.get_record] on the layer of level [l]. *)
Definition get_record (l : ContextLevel) (k : RecordId) (m : Manager)
  : option ContextRecord * Manager :=
  match records_get (layer m l) k with
  | None => (None, m)
  | Some r =>
      let '(expired, reads1) := is_expired r (clock_reads m) in
      if expired then (None, with_clock_reads reads1 m)
      else
        let r1 := set_last_accessed (Some (wall reads1)) r in
        (Some r1,
         with_clock_reads (S reads1) (with_layer l (records_set k r1 (layer m l)) m))
  end.

(** The records of a dict that are expired, with the readings made. *)
Fixpoint expired_ids (rs : Records) (reads : nat) : list RecordId * nat :=
  match rs with
  | [] => ([], reads)
  | (k, r) :: rest =>
      let '(expired, reads1) := is_expired r reads in
      let '(ids, reads2) := expired_ids rest reads1 in
      if expired then (k :: ids, reads2) else (ids, reads2)
  end.

(** [del records[k]]. *)
Definition records_del (k : RecordId) (rs : Records) : Records :=
  filter (fun kv => negb (RecordId_eqb (fst kv) k)) rs.

(** [ContextLayer.cleanup_expired] on the layer of level [l]. *)
Definition cleanup_layer (l : ContextLevel) (m : Manager) : nat * Manager :=
  let '(ids, reads1) := expired_ids (layer m l) (clock_reads m) in
  (List.length ids,
   with_clock_reads reads1
     (with_layer l (fold_left (fun rs k => records_del k rs) ids (layer m l)) m)).

(** [HierarchicalContextManager.cleanup_expired]. *)
Definition cleanup_expired (m : Manager) : list (string * nat) * Manager :=
  let '(n1, m1) := cleanup_layer L1_SYSTEM m in
  let '(n2, m2) := cleanup_layer L2_PROJECT m1 in
  let '(n3, m3) := cleanup_layer L3_NODE m2 in
  let '(n4, m4) := cleanup_layer L4_SESSION m3 in
  ([("L1", n1); ("L2", n2); ("L3", n3); ("L4", n4)], m4).

(** [create_context]: the clock is read for the id and again for
    [created_at]. *)
Definition create_context (l : ContextLevel) (text : string)
           (meta : list (string * pyval)) (sc : ContextScope)
           (project node session : option string) (iso : bool)
           (m : Manager) : ContextRecord * Manager :=
  let record_id :=
    mkId l (sha256_hex12 text) (wall (clock_reads m) / microseconds_per_second) in
  let record :=
    mkRecord record_id l sc text meta project node session
             (wall (S (clock_reads m))) None None iso in
  let m1 := add_record l record (with_clock_reads (S (S (clock_reads m))) m) in
  let m2 := match given project with
            | Some p => with_project_contexts (index_add p record_id (project_contexts m1)) m1
            | None => m1
            end in
  let m3 := match given node with
            | Some n => with_node_contexts (index_add n record_id (node_contexts m2)) m2
            | None => m2
            end in
  (with_default_ttl l record, m3).

(** [get_context]: the layers are asked in the order of [ContextLevel]. *)
Definition get_context (k : RecordId) (m : Manager) : option ContextRecord * Manager :=
  match get_record L1_SYSTEM k m with
  | (Some r, m1) => (Some r, m1)
  | (None, m1) =>
      match get_record L2_PROJECT k m1 with
      | (Some r, m2) => (Some r, m2)
      | (None, m2) =>
          match get_record L3_NODE k m2 with
          | (Some r, m3) => (Some r, m3)
          | (None, m3) => get_record L4_SESSION k m3
          end
      end
  end.

(** [get_node_context]. *)
Definition get_node_context (node : string) (m : Manager)
  : list ContextRecord * Manager :=
  fold_left
    (fun acc k =>
       let '(found, m1) := acc in
       match get_context k m1 with
       | (Some r, m2) => if isolated r then (found ++ [r], m2) else (found, m2)
       | (None, m2) => (found, m2)
       end)
    (index_get (node_contexts m) node) ([], m).

(** One loop of [get_visible_context]: the records that are not expired and
    pass [keep], with the clock readings made. *)
Fixpoint select (keep : ContextRecord -> bool) (rs : Records) (reads : nat)
  : list ContextRecord * nat :=
  match rs with
  | [] => ([], reads)
  | (_, r) :: rest =>
      let '(expired, reads1) := is_expired r reads in
      let '(chosen, reads2) := select keep rest reads1 in
      if andb (negb expired) (keep r) then (r :: chosen, reads2) else (chosen, reads2)
  end.

(** The dict [get_visible_context] returns. *)
Record Visible : Type := mkVisible {
  visible_L1 : list ContextRecord;
  visible_L2 : list ContextRecord;
  visible_L3 : list ContextRecord;
  visible_L4 : list ContextRecord
}.

(** [get_visible_context]. *)
Definition get_visible_context (node : string) (project session : option string)
           (m : Manager) : Visible * Manager :=
  let '(v1, reads1) := select (fun _ => true) (layer_L1 m) (clock_reads m) in
  let '(v2, reads2) :=
    match given project with
    | Some p =>
        select (fun r => andb (opt_string_eqb (project_id r) (Some p))
                              (orb (negb (isolated r)) (negb (is_private (scope r)))))
               (layer_L2 m) reads1
    | None => ([], reads1)
    end in
  let '(v3, reads3) :=
    select (fun r => opt_string_eqb (node_id r) (Some node)) (layer_L3 m) reads2 in
  let '(v4, reads4) :=
    match given session with
    | Some ss =>
        select (fun r => opt_string_eqb (session_id r) (Some ss)) (layer_L4 m) reads3
    | None => ([], reads3)
    end in
  (mkVisible v1 v2 v3 v4, with_clock_reads reads4 m).

(** [get_project_context]. *)
Definition get_project_context (project : string) (include_shared : bool)
           (m : Manager) : list ContextRecord * Manager :=
  fold_left
    (fun acc k =>
       let '(found, m1) := acc in
       match get_context k m1 with
       | (Some r, m2) =>
           if orb (negb (isolated r)) include_shared then (found ++ [r], m2)
           else (found, m2)
       | (None, m2) => (found, m2)
       end)
    (index_get (project_contexts m) project) ([], m).

(** [ContextLevel.value]. *)
Definition level_value (l : ContextLevel) : string :=
  match l with
  | L1_SYSTEM => "L1" | L2_PROJECT => "L2" | L3_NODE => "L3" | L4_SESSION => "L4"
  end.

(** [visible[level]]. *)
Definition visible_at (v : Visible) (l : ContextLevel) : list ContextRecord :=
  match l with
  | L1_SYSTEM => visible_L1 v
  | L2_PROJECT => visible_L2 v
  | L3_NODE => visible_L3 v
  | L4_SESSION => visible_L4 v
  end.

(** [len(s)] for a [str]: the number of code points of the text. *)
Variable code_points : string -> nat.

(** [len(record.content) // 4]. *)
Definition content_tokens (r : ContextRecord) : Z :=
  (Z.of_nat (code_points (content r)) / 4)%Z.

(** The body of the inner loop of [build_prompt_context]: the parts and the
    token count after [record] of [level] was looked at. *)
Definition add_part (max_tokens : Z) (l : ContextLevel) (acc : list string * Z)
           (r : ContextRecord) : list string * Z :=
  let '(context_parts, token_count) := acc in
  if (token_count + content_tokens r <=? max_tokens)%Z
  then (context_parts ++ [("[" ++ level_value l ++ "] " ++ content r)%string],
        (token_count + content_tokens r)%Z)
  else acc.

(** The two loops of [build_prompt_context]. *)
Definition assemble (max_tokens : Z) (v : Visible) : list string * Z :=
  fold_left
    (fun acc l => fold_left (add_part max_tokens l) (visible_at v l) acc)
    [L1_SYSTEM; L2_PROJECT; L3_NODE; L4_SESSION] ([], 0%Z).

(** [build_prompt_context]. *)
Definition build_prompt_context (node : string) (project session : option string)
           (max_tokens : Z) (m : Manager) : string * Manager :=
  let '(visible, m1) := get_visible_context node project session m in
  (String.concat (String newline (String newline EmptyString))
                 (fst (assemble max_tokens visible)),
   m1).

(** The dict [get_statistics] returns. *)
Record Statistics : Type := mkStatistics {
  total_records : nat;
  by_level : list (string * nat);
  projects : nat;
  stat_nodes : nat;
  isolation_enabled : bool
}.

(** [get_statistics]. *)
Definition get_statistics (m : Manager) : Statistics :=
  mkStatistics
    (list_sum (map (fun l => List.length (layer m l))
                   [L1_SYSTEM; L2_PROJECT; L3_NODE; L4_SESSION]))
    (map (fun l => (level_value l, List.length (layer m l)))
         [L1_SYSTEM; L2_PROJECT; L3_NODE; L4_SESSION])
    (List.length (project_contexts m))
    (List.length (node_contexts m))
    true.

(** [create_isolated_context]: the record is created in a manager of its
    own. *)
Definition create_isolated_context (node : string) (text : string)
           (project : option string) : ContextRecord :=
  fst (create_context L3_NODE text [] PRIVATE project (Some node) None true
                      create_manager).

End Operations.

End HierarchicalContext.

(* ================================================================== *)
(** * Properties of the bridge *)
(* ================================================================== *)

Module BridgeProps.
Import Py GlobalBridge.

(** ** Scope filtering *)

Lemma dict_get_pop_same (key : string) (d : list (string * FieldValue)) :
  dict_get key (dict_pop key d) = None.
Proof.
  unfold dict_get, dict_pop.
  induction d as [| [k v] d IH]; simpl; [reflexivity |].
  destruct (String.eqb k key) eqn:E; simpl; [exact IH |].
  rewrite E. exact IH.
Qed.

Lemma dict_get_pop_other (key k : string) (d : list (string * FieldValue)) :
  k <> key -> dict_get k (dict_pop key d) = dict_get k d.
Proof.
  intros Hne. unfold dict_get, dict_pop.
  induction d as [| [k' v] d IH]; simpl; [reflexivity |].
  destruct (String.eqb k' key) eqn:E; simpl.
  - apply String.eqb_eq in E. subst k'.
    destruct (String.eqb key k) eqn:E2.
    + apply String.eqb_eq in E2. congruence.
    + exact IH.
  - destruct (String.eqb k' k); [reflexivity | exact IH].
Qed.

(** The keys of the full record, in the order of the dataclass fields. *)
Definition record_keys : list string :=
  [ "id"; "role"; "task_id"; "state"; "upstream_nodes"; "downstream_nodes";
    "prompt"; "context_data"; "result"; "error"; "execution_time";
    "created_at"; "started_at"; "completed_at" ].


(** A request that any scope other than "public" and "shared" is answered as
    a private one. *)
Lemma filter_by_scope_default (node : ExecutionNode) (sc : string) :
  sc <> "public" -> sc <> "shared" ->
  filter_by_scope node sc = filter_by_scope node "private".
Proof.
  intros H1 H2. unfold filter_by_scope.
  destruct (String.eqb sc "public") eqn:E1.
  - apply String.eqb_eq in E1. contradiction.
  - destruct (String.eqb sc "shared") eqn:E2.
    + apply String.eqb_eq in E2. contradiction.
    + reflexivity.
Qed.

(** ** The audit trail of [bridge_context] *)

Section Audit.
Variable wall : nat -> Time.

(** A granted request returns the filtered record of the target and appends
    exactly one entry, with decision ALLOWED. *)
Lemma bridge_context_allowed (request : BridgeRequest) (s : Scheduler)
      (source target : ExecutionNode) :
  validate_consent_token request = true ->
  find_node (nodes s) (source_node request) = Some source ->
  find_node (nodes s) (target_node request) = Some target ->
  let '(response, s') := bridge_context wall request s in
  success response = true
  /\ data response = Some (filter_by_scope target (scope request))
  /\ exists entry,
       audit_log s' = audit_log s ++ [entry] /\ decision entry = "ALLOWED".
Proof.
  intros Hv Hs Ht. unfold bridge_context.
  rewrite Hv. simpl. rewrite Hs, Ht. simpl.
  repeat split. eexists. split; reflexivity.
Qed.

(** A request whose token is refused is answered with [success=False] and
    [data=None], and nothing is appended to the audit log. *)
Lemma bridge_context_invalid_token (request : BridgeRequest) (s : Scheduler) :
  validate_consent_token request = false ->
  let '(response, s') := bridge_context wall request s in
  success response = false /\ data response = None /\ audit_log s' = audit_log s.
Proof.
  intros Hv. unfold bridge_context. rewrite Hv. simpl. repeat split.
Qed.

(** A request that names a node that is not registered is refused, and nothing
    is appended to the audit log. *)
Lemma bridge_context_node_not_found (request : BridgeRequest) (s : Scheduler) :
  validate_consent_token request = true ->
  find_node (nodes s) (source_node request) = None
  \/ find_node (nodes s) (target_node request) = None ->
  let '(response, s') := bridge_context wall request s in
  success response = false
  /\ data response = Some [("error", FStr "Node not found")]
  /\ audit_log s' = audit_log s.
Proof.
  intros Hv Hn. unfold bridge_context. rewrite Hv. simpl.
  destruct Hn as [Hn | Hn]; rewrite Hn.
  - repeat split.
  - destruct (find_node (nodes s) (source_node request)); repeat split.
Qed.

(** The bridge never writes to the nodes. *)
Lemma bridge_context_nodes (request : BridgeRequest) (s : Scheduler) :
  nodes (snd (bridge_context wall request s)) = nodes s.
Proof.
  unfold bridge_context.
  destruct (validate_consent_token request); simpl; [| reflexivity].
  destruct (find_node (nodes s) (source_node request));
    destruct (find_node (nodes s) (target_node request)); reflexivity.
Qed.

End Audit.

(** Scenario 2 of the specification: a request with a five-character token
    between two registered nodes, scope "shared". *)
Definition short_token_request : BridgeRequest :=
  mkRequest "req_001" "node_1" "node_2" "status" "read upstream status"
            "shared" "abcde" 0%Z.

(** C3.  On the scheduler of [__main__] the request with the five-character
    token is answered with [success=False] and [data=None], both nodes being
    registered, and the audit log is as empty after the call as before it:
    no DENIED entry is written. *)
Theorem C3_short_token_leaves_no_audit_entry :
  let '(response, s') := bridge_context demo_wall short_token_request demo_scheduler in
  get_state demo_scheduler "node_1" = Some IDLE
  /\ get_state demo_scheduler "node_2" = Some IDLE
  /\ success response = false
  /\ data response = None
  /\ audit_log demo_scheduler = []
  /\ audit_log s' = [].
Proof.
  vm_compute. repeat split.
Qed.

End BridgeProps.

Unset Implicit Arguments.

(* ================================================================== *)
(** * The node dict and the state transitions *)
(* ================================================================== *)

Module StoreLemmas.
Import Py GlobalBridge.

(** What the scheduler never writes after registration: the key and the two
    edge lists of a node. *)
Definition shape (n : ExecutionNode) : string * list string * list string :=
  (id n, upstream_nodes n, downstream_nodes n).

Definition graph_of (ns : list ExecutionNode) : list (string * list string * list string) :=
  map shape ns.

(** A mutation that leaves key and edges alone. *)
Definition keeps_shape (f : ExecutionNode -> ExecutionNode) : Prop :=
  forall n, shape (f n) = shape n.

Lemma keeps_shape_id f n : keeps_shape f -> id (f n) = id n.
Proof. intros H. specialize (H n). unfold shape in H. congruence. Qed.

Lemma keeps_shape_compose f g :
  keeps_shape f -> keeps_shape g -> keeps_shape (fun n => f (g n)).
Proof. intros Hf Hg n. rewrite Hf. apply Hg. Qed.

Lemma keeps_shape_set_state st : keeps_shape (set_state st).
Proof. intros n. reflexivity. Qed.

Lemma keeps_shape_set_prompt t : keeps_shape (set_prompt t).
Proof. intros n. reflexivity. Qed.

Lemma keeps_shape_set_result r : keeps_shape (set_result r).
Proof. intros n. reflexivity. Qed.

Lemma keeps_shape_set_error e : keeps_shape (set_error e).
Proof. intros n. reflexivity. Qed.

Lemma keeps_shape_set_execution_time t : keeps_shape (set_execution_time t).
Proof. intros n. reflexivity. Qed.

Lemma keeps_shape_set_started_at t : keeps_shape (set_started_at t).
Proof. intros n. reflexivity. Qed.

Lemma keeps_shape_set_completed_at t : keeps_shape (set_completed_at t).
Proof. intros n. reflexivity. Qed.

Create HintDb shape.

#[export] Hint Resolve keeps_shape_set_state keeps_shape_set_prompt
  keeps_shape_set_result keeps_shape_set_error keeps_shape_set_execution_time
  keeps_shape_set_started_at keeps_shape_set_completed_at
  keeps_shape_compose : shape.

(** ** [find_node] *)

Lemma find_node_id ns i n : find_node ns i = Some n -> id n = i.
Proof.
  unfold find_node. intros H. apply find_some in H.
  destruct H as [_ H]. apply String.eqb_eq in H. exact H.
Qed.

Lemma find_node_In ns i n : find_node ns i = Some n -> In n ns.
Proof. unfold find_node. intros H. apply find_some in H. tauto. Qed.

Lemma find_node_None ns i : find_node ns i = None <-> ~ In i (map id ns).
Proof.
  unfold find_node. induction ns as [| m ns IH]; simpl.
  - tauto.
  - destruct (String.eqb (id m) i) eqn:E.
    + apply String.eqb_eq in E. split; [discriminate | tauto].
    + apply String.eqb_neq in E. rewrite IH. tauto.
Qed.

Lemma In_find_node ns n :
  NoDup (map id ns) -> In n ns -> find_node ns (id n) = Some n.
Proof.
  unfold find_node. induction ns as [| m ns IH]; simpl; intros Hnd Hin.
  - contradiction.
  - inversion Hnd as [| ? ? Hnotin Hnd']; subst.
    destruct Hin as [-> | Hin].
    + rewrite String.eqb_refl. reflexivity.
    + destruct (String.eqb (id m) (id n)) eqn:E.
      * apply String.eqb_eq in E. exfalso. apply Hnotin. rewrite E.
        apply in_map. exact Hin.
      * apply IH; assumption.
Qed.

Lemma find_node_registered ns i : In i (map id ns) -> exists n, find_node ns i = Some n.
Proof.
  intros H. destruct (find_node ns i) eqn:E; [eauto |].
  apply find_node_None in E. contradiction.
Qed.

(** ** [alter] *)

Lemma find_alter_same f i ns :
  keeps_shape f -> find_node (alter f i ns) i = option_map f (find_node ns i).
Proof.
  intros Hf. unfold find_node, alter.
  induction ns as [| m ns IH]; simpl; [reflexivity |].
  destruct (String.eqb (id m) i) eqn:E.
  - rewrite (keeps_shape_id f m Hf), E. reflexivity.
  - rewrite E. exact IH.
Qed.

Lemma find_alter_other f i j ns :
  keeps_shape f -> j <> i -> find_node (alter f i ns) j = find_node ns j.
Proof.
  intros Hf Hne. unfold find_node, alter.
  induction ns as [| m ns IH]; simpl; [reflexivity |].
  destruct (String.eqb (id m) i) eqn:E.
  - apply String.eqb_eq in E.
    rewrite (keeps_shape_id f m Hf).
    destruct (String.eqb (id m) j) eqn:E2.
    + apply String.eqb_eq in E2. congruence.
    + exact IH.
  - destruct (String.eqb (id m) j); [reflexivity | exact IH].
Qed.

Lemma find_alter f i j ns :
  keeps_shape f ->
  find_node (alter f i ns) j
  = if String.eqb j i then option_map f (find_node ns j) else find_node ns j.
Proof.
  intros Hf. destruct (String.eqb j i) eqn:E.
  - apply String.eqb_eq in E. subst j. apply find_alter_same. exact Hf.
  - apply String.eqb_neq in E. apply find_alter_other; assumption.
Qed.

Lemma graph_of_alter f i ns : keeps_shape f -> graph_of (alter f i ns) = graph_of ns.
Proof.
  intros Hf. unfold graph_of, alter. rewrite map_map. apply map_ext.
  intros n. destruct (String.eqb (id n) i); [apply Hf | reflexivity].
Qed.

Lemma alter_absent f i ns : find_node ns i = None -> alter f i ns = ns.
Proof.
  unfold find_node, alter. induction ns as [| m ns IH]; simpl; [reflexivity |].
  destruct (String.eqb (id m) i); [discriminate |].
  intros H. rewrite (IH H). reflexivity.
Qed.

Lemma In_alter f i ns n' :
  In n' (alter f i ns) ->
  exists n, In n ns /\ n' = (if String.eqb (id n) i then f n else n).
Proof.
  unfold alter. intros H. apply in_map_iff in H.
  destruct H as [n [Heq Hin]]. exists n. split; [exact Hin | congruence].
Qed.

(** ** Graphs *)

Lemma graph_of_ids ns ns' : graph_of ns = graph_of ns' -> map id ns = map id ns'.
Proof.
  unfold graph_of. intros H.
  assert (E : forall l, map id l = map (fun t => fst (fst t)) (map shape l)).
  { intros l. rewrite map_map. reflexivity. }
  rewrite (E ns), (E ns'), H. reflexivity.
Qed.

Lemma graph_of_find ns ns' i n :
  graph_of ns = graph_of ns' -> find_node ns i = Some n ->
  exists n', find_node ns' i = Some n' /\ shape n' = shape n.
Proof.
  unfold graph_of, find_node. revert ns'.
  induction ns as [| m ns IH]; intros [| m' ns'] Hg Hf; simpl in *; try discriminate.
  injection Hg as Hid Hup Hdown Hrest.
  rewrite <- Hid. destruct (String.eqb (id m) i).
  - injection Hf as <-. exists m'. split; [reflexivity |].
    unfold shape. congruence.
  - apply IH; assumption.
Qed.

(** ** The state of a node *)

Definition state_of (ns : list ExecutionNode) (i : string) : option NodeState :=
  option_map state (find_node ns i).

Definition completed (ns : list ExecutionNode) (i : string) : Prop :=
  state_of ns i = Some COMPLETED.

Lemma NodeState_eqb_eq a b : NodeState_eqb a b = true <-> a = b.
Proof. destruct a, b; simpl; split; intros H; try reflexivity; discriminate. Qed.

Lemma all_deps_completed_iff ns n :
  all_deps_completed ns n = true
  <-> forall u, In u (upstream_nodes n) -> completed ns u.
Proof.
  unfold all_deps_completed, completed, state_of. rewrite forallb_forall.
  split; intros H u Hu; specialize (H u Hu).
  - destruct (find_node ns u); [| discriminate].
    apply NodeState_eqb_eq in H. simpl. congruence.
  - destruct (find_node ns u); simpl in H; [| discriminate].
    apply NodeState_eqb_eq. congruence.
Qed.

(** The readiness test reads the upstream list of the node and the states of
    the dict, nothing else. *)
Lemma all_deps_completed_ext ns ns' n n' :
  upstream_nodes n = upstream_nodes n' ->
  (forall u, In u (upstream_nodes n) -> (completed ns u <-> completed ns' u)) ->
  all_deps_completed ns n = all_deps_completed ns' n'.
Proof.
  intros Hup Hst.
  destruct (all_deps_completed ns n) eqn:E1; symmetry.
  - apply all_deps_completed_iff. intros u Hu. rewrite <- Hup in Hu.
    apply Hst; [exact Hu |].
    apply (proj1 (all_deps_completed_iff ns n) E1). exact Hu.
  - destruct (all_deps_completed ns' n') eqn:E2; [| reflexivity].
    rewrite <- E1. symmetry. apply all_deps_completed_iff. intros u Hu.
    apply Hst; [exact Hu |].
    apply (proj1 (all_deps_completed_iff ns' n') E2). rewrite <- Hup. exact Hu.
Qed.

End StoreLemmas.

Module TransitionLemmas.
Import Py GlobalBridge StoreLemmas.

(** The write [update_state] makes to the node: the state, and the time
    stamp that goes with it. *)
Definition stamped (now : Time) (st : NodeState) : ExecutionNode -> ExecutionNode :=
  match st with
  | EXECUTING => fun m => set_started_at (Some now) (set_state st m)
  | COMPLETED | FAILED => fun m => set_completed_at (Some now) (set_state st m)
  | _ => set_state st
  end.

Lemma keeps_shape_stamped now st : keeps_shape (stamped now st).
Proof. destruct st; intros n; reflexivity. Qed.

Lemma state_stamped now st n : state (stamped now st n) = st.
Proof. destruct st; reflexivity. Qed.

Lemma result_stamped now st n : result (stamped now st n) = result n.
Proof. destruct st; reflexivity. Qed.

#[export] Hint Resolve keeps_shape_stamped : shape.

Lemma alter_alter f g i ns :
  keeps_shape g -> alter f i (alter g i ns) = alter (fun n => f (g n)) i ns.
Proof.
  intros Hg. unfold alter. rewrite map_map. apply map_ext. intros n.
  destruct (String.eqb (id n) i) eqn:E.
  - rewrite (keeps_shape_id g n Hg), E. reflexivity.
  - rewrite E. reflexivity.
Qed.

Lemma state_of_alter f i j ns :
  keeps_shape f ->
  state_of (alter f i ns) j
  = if String.eqb j i then option_map (fun n => state (f n)) (find_node ns j)
    else state_of ns j.
Proof.
  intros Hf. unfold state_of. rewrite (find_alter f i j ns Hf).
  destruct (String.eqb j i); [| reflexivity].
  destruct (find_node ns j); reflexivity.
Qed.

(** Writing a state other than COMPLETED over a state other than COMPLETED
    moves no node in or out of the completed ones. *)
Lemma completed_alter_neutral f i ns u :
  keeps_shape f ->
  (forall n, state (f n) <> COMPLETED) ->
  state_of ns i <> Some COMPLETED ->
  (completed (alter f i ns) u <-> completed ns u).
Proof.
  intros Hf Hst Hold. unfold completed. rewrite (state_of_alter f i u ns Hf).
  destruct (String.eqb u i) eqn:E; [| tauto].
  apply String.eqb_eq in E. subst u. unfold state_of in *.
  destruct (find_node ns i) as [n |]; simpl in *.
  - split; intros H; [| contradiction].
    injection H as H. exfalso. exact (Hst n H).
  - tauto.
Qed.

Lemma fold_left_pointwise {A B : Type} (f g : A -> B -> A) (l : list B) (a : A) :
  (forall x y, f x y = g x y) -> fold_left f l a = fold_left g l a.
Proof.
  intros H. revert a. induction l as [| y l IH]; intros a; simpl; [reflexivity |].
  rewrite H. apply IH.
Qed.

Section Transitions.
Variable wall : nat -> Time.

Lemma nodes_mark n st s :
  nodes (mark wall n st s) = alter (stamped (wall (clock_reads s)) st) (id n) (nodes s).
Proof. destruct st; reflexivity. Qed.

Lemma generator_mark n st s : prompt_generator (mark wall n st s) = prompt_generator s.
Proof. destruct st; reflexivity. Qed.

Lemma listeners_mark n st s : state_listeners (mark wall n st s) = state_listeners s.
Proof. destruct st; reflexivity. Qed.

Lemma audit_mark n st s : audit_log (mark wall n st s) = audit_log s.
Proof. destruct st; reflexivity. Qed.

Lemma notify_on_other i old new cbs s :
  notify_listeners (on_other_change i old new) cbs s = s.
Proof.
  unfold notify_listeners. induction cbs as [| [] cbs IH]; simpl; [reflexivity | exact IH].
Qed.

(** A transition to a state other than COMPLETED runs no trigger. *)
Lemma update_state_other i st s :
  st <> COMPLETED -> update_state wall i st s = update_state_nested wall i st s.
Proof.
  intros Hst. unfold update_state, update_state_nested, update_state_with.
  destruct (find_node (nodes s) i) as [n |]; [| reflexivity].
  f_equal. unfold notify_listeners. apply fold_left_pointwise. intros acc [].
  destruct st; try reflexivity. contradiction.
Qed.

Lemma update_state_nested_eq i st s :
  update_state_nested wall i st s
  = match find_node (nodes s) i with
    | None => (false, s)
    | Some n => (true, mark wall n st s)
    end.
Proof.
  unfold update_state_nested, update_state_with.
  destruct (find_node (nodes s) i); [| reflexivity].
  rewrite notify_on_other. reflexivity.
Qed.

Lemma nodes_update_state_nested i st s :
  nodes (snd (update_state_nested wall i st s))
  = alter (stamped (wall (clock_reads s)) st) i (nodes s).
Proof.
  rewrite update_state_nested_eq.
  destruct (find_node (nodes s) i) as [n |] eqn:E; cbn [snd].
  - rewrite nodes_mark, (find_node_id _ _ _ E). reflexivity.
  - symmetry. apply alter_absent. exact E.
Qed.

Lemma generator_update_state_nested i st s :
  prompt_generator (snd (update_state_nested wall i st s)) = prompt_generator s.
Proof.
  rewrite update_state_nested_eq.
  destruct (find_node (nodes s) i); cbn [snd]; [apply generator_mark | reflexivity].
Qed.

Lemma listeners_update_state_nested i st s :
  state_listeners (snd (update_state_nested wall i st s)) = state_listeners s.
Proof.
  rewrite update_state_nested_eq.
  destruct (find_node (nodes s) i); cbn [snd]; [apply listeners_mark | reflexivity].
Qed.

(** One promotion of [_trigger_downstream_nodes]: the prompt is written when
    a generator produced [text], the node is set READY, the trigger logged. *)
Definition promote (text : option string) (d : string) (s : Scheduler) : Scheduler :=
  logged (InstantTrigger d)
    (snd (update_state_nested wall d READY
            (match text with
             | Some t => alter_node (set_prompt t) d s
             | None => s
             end))).

Definition promoted (text : option string) (n : ExecutionNode) : ExecutionNode :=
  set_state READY (match text with Some t => set_prompt t n | None => n end).

Lemma keeps_shape_promoted text : keeps_shape (promoted text).
Proof. intros n. destruct text; reflexivity. Qed.

Lemma state_promoted text n : state (promoted text n) = READY.
Proof. reflexivity. Qed.

Lemma result_promoted text n : result (promoted text n) = result n.
Proof. destruct text; reflexivity. Qed.

Lemma nodes_promote text d s :
  nodes (promote text d s) = alter (promoted text) d (nodes s).
Proof.
  unfold promote. simpl. rewrite nodes_update_state_nested.
  destruct text as [t |]; simpl.
  - rewrite alter_alter; [reflexivity | auto with shape].
  - reflexivity.
Qed.

Lemma generator_promote text d s :
  prompt_generator (promote text d s) = prompt_generator s.
Proof.
  unfold promote. simpl. rewrite generator_update_state_nested.
  destruct text; reflexivity.
Qed.

Lemma listeners_promote text d s :
  state_listeners (promote text d s) = state_listeners s.
Proof.
  unfold promote. simpl. rewrite listeners_update_state_nested.
  destruct text; reflexivity.
Qed.

Lemma trigger_loop_cons d rest s :
  trigger_loop wall (d :: rest) s
  = match find_node (nodes s) d with
    | None => trigger_loop wall rest s
    | Some dn =>
        if all_deps_completed (nodes s) dn then
          match prompt_generator s with
          | Some g =>
              match g (nodes s) dn with
              | None => (s, true)
              | Some t => trigger_loop wall rest (promote (Some t) d s)
              end
          | None => trigger_loop wall rest (promote None d s)
          end
        else trigger_loop wall rest s
    end.
Proof. reflexivity. Qed.

(** Induction over the loop of the trigger: [P rest s] holds of the ids that
    are left and the scheduler.  When the generator raised, the loop stopped
    with some ids left. *)
Lemma trigger_loop_ind (P : list string -> Scheduler -> Prop) :
  (forall d rest s, P (d :: rest) s -> find_node (nodes s) d = None -> P rest s) ->
  (forall d rest s dn,
      P (d :: rest) s -> find_node (nodes s) d = Some dn ->
      all_deps_completed (nodes s) dn = false -> P rest s) ->
  (forall d rest s dn text,
      P (d :: rest) s -> find_node (nodes s) d = Some dn ->
      all_deps_completed (nodes s) dn = true ->
      P rest (promote text d s)) ->
  forall ds s, P ds s ->
  exists rest, P rest (fst (trigger_loop wall ds s))
               /\ (snd (trigger_loop wall ds s) = false -> rest = []).
Proof.
  intros Hnone Hskip Hgo ds. induction ds as [| d rest IH]; intros s HP.
  - exists []. simpl. auto.
  - rewrite trigger_loop_cons.
    destruct (find_node (nodes s) d) as [dn |] eqn:Ef.
    + destruct (all_deps_completed (nodes s) dn) eqn:Ea.
      * destruct (prompt_generator s) as [g |].
        -- destruct (g (nodes s) dn) as [t |].
           ++ apply IH. eapply Hgo; eauto.
           ++ exists (d :: rest). simpl. split; [exact HP | discriminate].
        -- apply IH. eapply Hgo; eauto.
      * apply IH. eapply Hskip; eauto.
    + apply IH. eapply Hnone; eauto.
Qed.

(** The same when the generator cannot raise in the states [P] describes:
    the loop runs to its end. *)
Lemma trigger_loop_total (P : list string -> Scheduler -> Prop) :
  (forall d rest s, P (d :: rest) s -> find_node (nodes s) d = None -> P rest s) ->
  (forall d rest s dn,
      P (d :: rest) s -> find_node (nodes s) d = Some dn ->
      all_deps_completed (nodes s) dn = false -> P rest s) ->
  (forall d rest s dn text,
      P (d :: rest) s -> find_node (nodes s) d = Some dn ->
      all_deps_completed (nodes s) dn = true ->
      P rest (promote text d s)) ->
  (forall d rest s dn g,
      P (d :: rest) s -> find_node (nodes s) d = Some dn ->
      prompt_generator s = Some g -> g (nodes s) dn <> None) ->
  forall ds s, P ds s ->
  P [] (fst (trigger_loop wall ds s)) /\ snd (trigger_loop wall ds s) = false.
Proof.
  intros Hnone Hskip Hgo Hgen ds. induction ds as [| d rest IH]; intros s HP.
  - simpl. auto.
  - rewrite trigger_loop_cons.
    destruct (find_node (nodes s) d) as [dn |] eqn:Ef.
    + destruct (all_deps_completed (nodes s) dn) eqn:Ea.
      * destruct (prompt_generator s) as [g |] eqn:Eg.
        -- destruct (g (nodes s) dn) as [t |] eqn:Et.
           ++ apply IH. eapply Hgo; eauto.
           ++ exfalso. eapply Hgen; eauto.
        -- apply IH. eapply Hgo; eauto.
      * apply IH. eapply Hskip; eauto.
    + apply IH. eapply Hnone; eauto.
Qed.

(** The trigger writes states and prompts only. *)
Lemma trigger_loop_frame ds s :
  let s' := fst (trigger_loop wall ds s) in
  graph_of (nodes s') = graph_of (nodes s)
  /\ prompt_generator s' = prompt_generator s
  /\ state_listeners s' = state_listeners s
  /\ audit_log s' = audit_log s.
Proof.
  simpl.
  destruct (trigger_loop_ind
              (fun _ s1 => graph_of (nodes s1) = graph_of (nodes s)
                           /\ prompt_generator s1 = prompt_generator s
                           /\ state_listeners s1 = state_listeners s
                           /\ audit_log s1 = audit_log s))
    with (ds := ds) (s := s) as [rest [H _]]; auto.
  intros d rest s1 dn text (Hg & Hp & Hl & Ha) _ _.
  rewrite nodes_promote, generator_promote, listeners_promote.
  rewrite graph_of_alter by apply keeps_shape_promoted.
  repeat split; try assumption.
  unfold promote. simpl. rewrite update_state_nested_eq.
  destruct text; simpl;
    match goal with
    | |- context [find_node ?a ?b] => destruct (find_node a b)
    end; simpl; rewrite ?audit_mark; exact Ha.
Qed.

End Transitions.

End TransitionLemmas.

(* ================================================================== *)
(** * Readiness is sound in every state of a run *)
(* ================================================================== *)

Module Readiness.
Import Py GlobalBridge StoreLemmas TransitionLemmas.

(** The states a node takes from its promotion on. *)
Definition active (st : NodeState) : bool :=
  match st with
  | READY | EXECUTING | COMPLETED | FAILED => true
  | IDLE | BLOCKED => false
  end.

(** The states a node takes from its dispatch on. *)
Definition busy (st : option NodeState) : Prop :=
  st = Some EXECUTING \/ st = Some COMPLETED \/ st = Some FAILED.

(** Every node that was promoted has all its upstream nodes registered and
    COMPLETED. *)
Definition sound (ns : list ExecutionNode) : Prop :=
  forall i n, find_node ns i = Some n -> active (state n) = true ->
              all_deps_completed ns n = true.

(** The downstream lists name only nodes that list the owner upstream. *)
Definition downstream_inverse (ns : list ExecutionNode) : Prop :=
  forall u un d dn,
    find_node ns u = Some un -> In d (downstream_nodes un) ->
    find_node ns d = Some dn -> In u (upstream_nodes dn).

Lemma downstream_inverse_graph ns ns' :
  graph_of ns = graph_of ns' -> downstream_inverse ns -> downstream_inverse ns'.
Proof.
  intros Hg H u un d dn Hu Hd Hdn.
  destruct (graph_of_find ns' ns u un (eq_sym Hg) Hu) as [un0 [Hu0 Hs0]].
  destruct (graph_of_find ns' ns d dn (eq_sym Hg) Hdn) as [dn0 [Hd0 Hs1]].
  unfold shape in Hs0, Hs1. injection Hs0 as _ _ Hdown. injection Hs1 as _ Hup _.
  rewrite <- Hup. apply (H u un0 d dn0 Hu0); [| exact Hd0].
  rewrite Hdown. exact Hd.
Qed.

(** A write that sets the state of node [i] to [st]: soundness is kept when
    no COMPLETED state is overwritten and, for an active [st], the node
    passed the readiness test. *)
Lemma sound_alter f i ns n st :
  keeps_shape f -> state (f n) = st ->
  find_node ns i = Some n -> sound ns ->
  (state n <> COMPLETED \/ st = COMPLETED) ->
  (active st = true -> all_deps_completed ns n = true) ->
  sound (alter f i ns).
Proof.
  intros Hf Hst Hfind Hsound Hkeep Hact.
  assert (Hmono : forall u, completed ns u -> completed (alter f i ns) u).
  { intros u Hu. unfold completed in *. rewrite state_of_alter by exact Hf.
    destruct (String.eqb u i) eqn:E; [| exact Hu].
    apply String.eqb_eq in E. subst u. unfold state_of in *.
    rewrite Hfind in *. simpl in *. injection Hu as Hu.
    destruct Hkeep as [Hk | Hk]; [contradiction | congruence]. }
  assert (Hdeps : forall m m', upstream_nodes m = upstream_nodes m' ->
                               all_deps_completed ns m = true ->
                               all_deps_completed (alter f i ns) m' = true).
  { intros m m' Hup Hm. apply all_deps_completed_iff. intros u Hu.
    apply Hmono. apply (proj1 (all_deps_completed_iff ns m) Hm).
    rewrite Hup. exact Hu. }
  intros j n' Hj Hactive. rewrite find_alter in Hj by exact Hf.
  destruct (String.eqb j i) eqn:E.
  - apply String.eqb_eq in E. subst j. rewrite Hfind in Hj. simpl in Hj.
    injection Hj as <-. apply (Hdeps n).
    + specialize (Hf n). unfold shape in Hf. congruence.
    + apply Hact. rewrite <- Hst. exact Hactive.
  - apply (Hdeps n'); [reflexivity |]. apply (Hsound j); assumption.
Qed.

Section Run.
Variable wall : nat -> Time.
Variable executor : ExecutionNode -> pyval + string.

(** What the trigger of a completion keeps, [s0] being the scheduler when the
    listeners are first called and [downs] the downstream ids of the
    completed node. *)
Definition trigger_inv (s0 : Scheduler) (downs : list string) (s1 : Scheduler) : Prop :=
  graph_of (nodes s1) = graph_of (nodes s0)
  /\ sound (nodes s1)
  /\ (forall j, busy (state_of (nodes s0) j) ->
                state_of (nodes s1) j = state_of (nodes s0) j)
  /\ (forall d, In d downs -> ~ busy (state_of (nodes s1) d)).

Lemma trigger_inv_promote s0 downs s1 d dn text :
  trigger_inv s0 downs s1 -> In d downs ->
  find_node (nodes s1) d = Some dn ->
  all_deps_completed (nodes s1) dn = true ->
  trigger_inv s0 downs (promote wall text d s1).
Proof.
  intros (Hg & Hs & Hb & Hq) Hd Hfind Hdeps.
  assert (Hnb : ~ busy (state_of (nodes s1) d)) by (apply Hq; exact Hd).
  assert (Hst : state_of (nodes s1) d = Some (state dn)).
  { unfold state_of. rewrite Hfind. reflexivity. }
  unfold trigger_inv. rewrite nodes_promote.
  split; [| split; [| split]].
  - rewrite graph_of_alter by apply keeps_shape_promoted. exact Hg.
  - apply (sound_alter (promoted text) d (nodes s1) dn READY).
    + apply keeps_shape_promoted.
    + reflexivity.
    + exact Hfind.
    + exact Hs.
    + left. intros Hc. apply Hnb. right. left. rewrite Hst. congruence.
    + intros _. exact Hdeps.
  - intros j Hj. rewrite state_of_alter by apply keeps_shape_promoted.
    destruct (String.eqb j d) eqn:E; [| apply Hb; exact Hj].
    apply String.eqb_eq in E. subst j. exfalso. apply Hnb.
    rewrite (Hb d Hj). exact Hj.
  - intros d' Hd'. rewrite state_of_alter by apply keeps_shape_promoted.
    destruct (String.eqb d' d) eqn:E; [| apply Hq; exact Hd'].
    apply String.eqb_eq in E. subst d'. rewrite Hfind. simpl.
    intros [H | [H | H]]; discriminate.
Qed.

Lemma trigger_inv_loop s0 downs ds s1 :
  incl ds downs -> trigger_inv s0 downs s1 ->
  trigger_inv s0 downs (fst (trigger_loop wall ds s1)).
Proof.
  intros Hincl Hinv.
  destruct (trigger_loop_ind wall
              (fun rest s => incl rest downs /\ trigger_inv s0 downs s))
    with (ds := ds) (s := s1) as [rest [[_ H] _]]; auto.
  - intros d rest s [Hi Ht] _. split; [| exact Ht].
    intros x Hx. apply Hi. right. exact Hx.
  - intros d rest s dn [Hi Ht] _ _. split; [| exact Ht].
    intros x Hx. apply Hi. right. exact Hx.
  - intros d rest s dn text [Hi Ht] Hf Ha. split.
    + intros x Hx. apply Hi. right. exact Hx.
    + apply (trigger_inv_promote s0 downs s d dn text); try assumption.
      apply Hi. left. reflexivity.
Qed.

(** The listeners of a completion: each runs the trigger over the downstream
    ids of the completed node. *)
Lemma notify_completed_ind (P : Scheduler -> Prop) i n old ns cbs s0 :
  find_node ns i = Some n ->
  (forall s1, P s1 -> P (fst (trigger_loop wall (downstream_nodes n) s1))) ->
  (forall s1, P s1 -> P (logged ListenerFailed s1)) ->
  graph_of (nodes s0) = graph_of ns -> P s0 ->
  P (notify_listeners (on_state_change wall i old COMPLETED) cbs s0).
Proof.
  intros Hfind Htrig Hlog. revert s0.
  induction cbs as [| [] cbs IH]; intros s0 Hg HP; simpl; [exact HP |].
  unfold trigger_downstream_nodes.
  destruct (graph_of_find ns (nodes s0) i n (eq_sym Hg) Hfind) as [cn [Hcn Hshape]].
  rewrite Hcn.
  assert (Hdown : downstream_nodes cn = downstream_nodes n).
  { unfold shape in Hshape. congruence. }
  rewrite Hdown.
  pose proof (trigger_loop_frame wall (downstream_nodes n) s0) as Hframe.
  simpl in Hframe. destruct Hframe as [Hg' _].
  specialize (Htrig s0 HP).
  destruct (trigger_loop wall (downstream_nodes n) s0) as [s' raised].
  simpl in Htrig, Hg'. destruct raised; apply IH.
  - simpl. congruence.
  - apply Hlog. exact Htrig.
  - congruence.
  - exact Htrig.
Qed.

(** [update_state i COMPLETED]: the node is marked, then the listeners run. *)
Lemma update_state_completed_ind (P : Scheduler -> Prop) i n s :
  find_node (nodes s) i = Some n ->
  P (mark wall n COMPLETED s) ->
  (forall s1, P s1 -> P (fst (trigger_loop wall (downstream_nodes n) s1))) ->
  (forall s1, P s1 -> P (logged ListenerFailed s1)) ->
  P (snd (update_state wall i COMPLETED s)).
Proof.
  intros Hfind Hmark Htrig Hlog.
  unfold update_state, update_state_with. rewrite Hfind. cbn [snd].
  apply (notify_completed_ind P i n (state n) (nodes s)); try assumption.
  rewrite nodes_mark. apply graph_of_alter. auto with shape.
Qed.

(** The states of a run: the scheduler, and the ids of the tasks that were
    dispatched and have not finished. *)
Definition Config : Type := (Scheduler * list string)%type.

Inductive step : Config -> Config -> Prop :=
| step_dispatch s inflight i n :
    find_node (nodes s) i = Some n -> state n = READY ->
    step (s, inflight) (snd (update_state wall i EXECUTING s), i :: inflight)
| step_start s inflight :
    step (s, inflight) (tick s, inflight)
| step_finish s inflight starts i :
    In i inflight ->
    step (s, inflight)
         (finish_node wall executor starts i s, remove string_dec i inflight).

(** The states [execute_dag] can be in once its loop is entered, for any
    order in which the dispatched tasks finish. *)
Inductive reachable (dag_nodes : list ExecutionNode) (s0 : Scheduler) : Config -> Prop :=
| reach_prepared : reachable dag_nodes s0 (prepare wall dag_nodes s0, [])
| reach_step c c' : reachable dag_nodes s0 c -> step c c' -> reachable dag_nodes s0 c'.

(** What holds in every state of a run. *)
Definition run_inv (dag_nodes : list ExecutionNode) (c : Config) : Prop :=
  graph_of (nodes (fst c)) = graph_of dag_nodes
  /\ sound (nodes (fst c))
  /\ (forall i, In i (snd c) -> state_of (nodes (fst c)) i = Some EXECUTING).

(** ** Registration and seeding *)

Lemma nodes_register_nodes dag s :
  nodes (register_nodes dag s) = fold_left (fun acc n => dict_set n acc) dag (nodes s).
Proof.
  unfold register_nodes.
  assert (H1 : forall l s1,
             nodes (fold_left
                      (fun acc node =>
                         with_listeners
                           (add_listener (id node) OnStateChange (state_listeners acc)) acc)
                      l s1) = nodes s1).
  { induction l as [| m l IH]; intros s1; simpl; [reflexivity |].
    rewrite IH. reflexivity. }
  rewrite H1. clear H1. revert s.
  induction dag as [| m dag IH]; intros s; simpl; [reflexivity |].
  rewrite IH. reflexivity.
Qed.

Lemma dict_set_fresh n ns : ~ In (id n) (map id ns) -> dict_set n ns = ns ++ [n].
Proof.
  induction ns as [| m ns IH]; simpl; intros H; [reflexivity |].
  destruct (String.eqb (id m) (id n)) eqn:E.
  - apply String.eqb_eq in E. exfalso. apply H. left. exact E.
  - rewrite IH; [reflexivity |]. intros Hin. apply H. right. exact Hin.
Qed.

(** On a scheduler that holds no node, registering nodes of distinct ids
    leaves the dict with exactly these nodes, in their order. *)
Lemma register_nodes_fresh dag s :
  NoDup (map id dag) -> nodes s = [] -> nodes (register_nodes dag s) = dag.
Proof.
  intros Hnd Hempty. rewrite nodes_register_nodes, Hempty.
  assert (H : forall l pre, NoDup (map id (pre ++ l)) ->
                            fold_left (fun acc n => dict_set n acc) l pre = pre ++ l).
  { induction l as [| m l IH]; intros pre Hn; simpl.
    - rewrite app_nil_r. reflexivity.
    - rewrite dict_set_fresh.
      + rewrite IH; rewrite <- app_assoc; [reflexivity | exact Hn].
      + rewrite map_app in Hn. simpl in Hn. apply NoDup_remove_2 in Hn.
        intros Hin. apply Hn. apply in_or_app. left. exact Hin. }
  apply (H dag []). exact Hnd.
Qed.

(** What seeding keeps: a node is IDLE, or READY with no upstream node. *)
Definition seeded (ns : list ExecutionNode) : Prop :=
  forall i n, find_node ns i = Some n ->
              state n = IDLE \/ (state n = READY /\ upstream_nodes n = []).

Lemma seeded_sound ns : seeded ns -> sound ns.
Proof.
  intros H i n Hf Ha. destruct (H i n Hf) as [Hi | [_ Hu]].
  - rewrite Hi in Ha. discriminate.
  - unfold all_deps_completed. rewrite Hu. reflexivity.
Qed.

Lemma seed_roots_seeded dag roots s :
  NoDup (map id dag) -> incl roots dag ->
  graph_of (nodes s) = graph_of dag -> seeded (nodes s) ->
  graph_of (nodes (seed_roots wall roots s)) = graph_of dag
  /\ seeded (nodes (seed_roots wall roots s)).
Proof.
  intros Hnd. unfold seed_roots. revert s.
  induction roots as [| m roots IH]; intros s Hincl Hg Hs; simpl; [tauto |].
  assert (Hincl' : incl roots dag) by (intros x Hx; apply Hincl; right; exact Hx).
  destruct (upstream_nodes m) eqn:Hup; [| apply IH; assumption].
  rewrite update_state_other by discriminate.
  apply IH; [exact Hincl' | |]; rewrite nodes_update_state_nested.
  - rewrite graph_of_alter by auto with shape. exact Hg.
  - intros i n Hf. rewrite find_alter in Hf by auto with shape.
    destruct (String.eqb i (id m)) eqn:E; [| apply (Hs i); exact Hf].
    apply String.eqb_eq in E. subst i.
    destruct (find_node (nodes s) (id m)) as [n0 |] eqn:E0; [| discriminate].
    simpl in Hf. injection Hf as <-. right. split; [reflexivity |].
    assert (Hm : find_node dag (id m) = Some m).
    { apply In_find_node; [exact Hnd | apply Hincl; left; reflexivity]. }
    destruct (graph_of_find dag (nodes s) (id m) m (eq_sym Hg) Hm) as [n1 [Hn1 Hsh]].
    rewrite E0 in Hn1. injection Hn1 as <-.
    unfold shape in Hsh. simpl. congruence.
Qed.

Lemma prepare_inv dag s0 :
  NoDup (map id dag) ->
  Forall (fun n => state n = IDLE) dag ->
  nodes (register_nodes dag s0) = dag ->
  run_inv dag (prepare wall dag s0, []).
Proof.
  intros Hnd Hidle Hreg. unfold prepare.
  destruct (seed_roots_seeded dag dag
              (with_generator (Some (generate_prompt)) (register_nodes dag s0)))
    as [Hg Hs]; try assumption.
  - apply incl_refl.
  - simpl. rewrite Hreg. reflexivity.
  - simpl. rewrite Hreg. intros i n Hf. left.
    apply find_node_In in Hf. rewrite Forall_forall in Hidle. apply Hidle. exact Hf.
  - split; [exact Hg |]. split; [apply seeded_sound; exact Hs |].
    intros i [].
Qed.

(** ** The steps *)

Lemma state_of_find ns i st :
  state_of ns i = Some st -> exists n, find_node ns i = Some n /\ state n = st.
Proof.
  unfold state_of. destruct (find_node ns i) as [n |]; simpl; [| discriminate].
  intros H. injection H as H. eauto.
Qed.

Lemma step_inv dag c c' :
  downstream_inverse dag -> run_inv dag c -> step c c' -> run_inv dag c'.
Proof.
  intros Hinv (Hg & Hs & Hfl) Hstep.
  destruct Hstep as [s fl i n Hfind Hready | s fl | s fl starts i Hin]; simpl in *.
  - (* dispatch *)
    rewrite update_state_other by discriminate.
    unfold run_inv. simpl. rewrite nodes_update_state_nested.
    split; [| split].
    + rewrite graph_of_alter by auto with shape. exact Hg.
    + apply (sound_alter (stamped (wall (clock_reads s)) EXECUTING) i (nodes s) n EXECUTING).
      * auto with shape.
      * reflexivity.
      * exact Hfind.
      * exact Hs.
      * left. congruence.
      * intros _. apply (Hs i n Hfind). rewrite Hready. reflexivity.
    + intros j Hj. rewrite state_of_alter by auto with shape.
      destruct (String.eqb j i) eqn:E.
      * apply String.eqb_eq in E. subst j. rewrite Hfind. reflexivity.
      * destruct Hj as [Hj | Hj]; [| apply Hfl; exact Hj].
        subst j. rewrite String.eqb_refl in E. discriminate.
  - (* a task starts *)
    unfold run_inv. simpl. tauto.
  - (* a task finishes *)
    destruct (state_of_find _ _ _ (Hfl i Hin)) as [n [Hfind Hexec]].
    assert (Hrest : forall j, In j (remove string_dec i fl) -> j <> i /\ In j fl).
    { intros j Hj. apply in_remove in Hj. tauto. }
    unfold finish_node. rewrite Hfind.
    set (elapsed := (wall (clock_reads s) - start_of starts i)%Z).
    destruct (executor n) as [r | msg].
    + (* the executor returned *)
      set (f := fun m => set_execution_time elapsed (set_result r m)).
      set (s1 := alter_node f i (tick s)).
      assert (Hf : keeps_shape f) by (unfold f; auto with shape).
      assert (Hfind1 : find_node (nodes s1) i = Some (f n)).
      { unfold s1. simpl. rewrite find_alter_same by exact Hf.
        rewrite Hfind. reflexivity. }
      assert (Hg1 : graph_of (nodes s1) = graph_of dag).
      { unfold s1. simpl. rewrite graph_of_alter by exact Hf. exact Hg. }
      assert (Hs1 : sound (nodes s1)).
      { unfold s1. simpl.
        apply (sound_alter f i (nodes s) n EXECUTING).
        - exact Hf.
        - unfold f. simpl. exact Hexec.
        - exact Hfind.
        - exact Hs.
        - left. congruence.
        - intros _. apply (Hs i n Hfind). rewrite Hexec. reflexivity. }
      assert (Hst1 : forall j, state_of (nodes s1) j = state_of (nodes s) j).
      { intros j. unfold s1. simpl. rewrite state_of_alter by exact Hf.
        destruct (String.eqb j i) eqn:E; [| reflexivity].
        apply String.eqb_eq in E. subst j. unfold state_of.
        rewrite Hfind. reflexivity. }
      set (sM := mark wall (f n) COMPLETED s1).
      assert (HidM : id (f n) = i).
      { rewrite (keeps_shape_id f n Hf). apply (find_node_id _ _ _ Hfind). }
      assert (HnM : nodes sM
                    = alter (stamped (wall (clock_reads s1)) COMPLETED) i (nodes s1)).
      { unfold sM. rewrite nodes_mark, HidM. reflexivity. }
      assert (HM : trigger_inv sM (downstream_nodes (f n)) sM).
      { split; [reflexivity |]. split; [| split].
        - rewrite HnM.
          apply (sound_alter (stamped (wall (clock_reads s1)) COMPLETED) i
                             (nodes s1) (f n) COMPLETED).
          + auto with shape.
          + reflexivity.
          + exact Hfind1.
          + exact Hs1.
          + right. reflexivity.
          + intros _. apply (Hs1 i (f n) Hfind1). unfold f. simpl.
            rewrite Hexec. reflexivity.
        - intros j _. reflexivity.
        - intros d Hd Hbusy.
          assert (Hinv1 : downstream_inverse (nodes s1)).
          { apply (downstream_inverse_graph dag); [congruence | exact Hinv]. }
          assert (Hnc : ~ completed (nodes s1) i).
          { unfold completed. rewrite Hst1, (Hfl i Hin). discriminate. }
          assert (Hd1 : busy (state_of (nodes s1) d)).
          { rewrite HnM in Hbusy. rewrite state_of_alter in Hbusy by auto with shape.
            destruct (String.eqb d i) eqn:E; [| exact Hbusy].
            apply String.eqb_eq in E. subst d. rewrite Hst1, (Hfl i Hin).
            left. reflexivity. }
          unfold state_of in Hd1.
          destruct (find_node (nodes s1) d) as [dn |] eqn:Ed;
            [| destruct Hd1 as [H | [H | H]]; discriminate].
          apply Hnc.
          apply (proj1 (all_deps_completed_iff (nodes s1) dn)).
          + apply (Hs1 d dn Ed). simpl in Hd1.
            destruct Hd1 as [H | [H | H]]; injection H as ->; reflexivity.
          + apply (Hinv1 i (f n) d dn Hfind1 Hd Ed). }
      assert (Hfinal : trigger_inv sM (downstream_nodes (f n))
                                   (snd (update_state wall i COMPLETED s1))).
      { apply (update_state_completed_ind _ i (f n) s1 Hfind1).
        - exact HM.
        - intros s2 H2. apply trigger_inv_loop; [apply incl_refl | exact H2].
        - intros s2 H2. exact H2. }
      destruct Hfinal as (HgF & HsF & HbF & _).
      unfold run_inv. cbn [fst snd].
      split; [rewrite HgF, HnM, graph_of_alter by auto with shape; exact Hg1 |].
      split; [exact HsF |].
      intros j Hj. destruct (Hrest j Hj) as [Hne Hjfl].
      assert (HjM : state_of (nodes sM) j = Some EXECUTING).
      { rewrite HnM, state_of_alter by auto with shape.
        apply String.eqb_neq in Hne. rewrite Hne, Hst1. apply Hfl. exact Hjfl. }
      rewrite HbF; [exact HjM |]. left. exact HjM.
    + (* the executor raised *)
      set (f := fun m => set_execution_time elapsed (set_error (Some msg) m)).
      assert (Hf : keeps_shape f) by (unfold f; auto with shape).
      rewrite update_state_other by discriminate.
      unfold run_inv. simpl. rewrite nodes_update_state_nested. simpl.
      rewrite alter_alter by exact Hf.
      set (g := fun m => stamped (wall (S (clock_reads s))) FAILED (f m)).
      assert (Hgs : keeps_shape g) by (unfold g; auto with shape).
      split; [| split].
      * rewrite graph_of_alter by exact Hgs. exact Hg.
      * apply (sound_alter g i (nodes s) n FAILED).
        -- exact Hgs.
        -- reflexivity.
        -- exact Hfind.
        -- exact Hs.
        -- left. congruence.
        -- intros _. apply (Hs i n Hfind). rewrite Hexec. reflexivity.
      * intros j Hj. destruct (Hrest j Hj) as [Hne Hjfl].
        rewrite state_of_alter by exact Hgs.
        apply String.eqb_neq in Hne. rewrite Hne. apply Hfl. exact Hjfl.
Qed.

Lemma reachable_inv dag s0 c :
  NoDup (map id dag) ->
  Forall (fun n => state n = IDLE) dag ->
  downstream_inverse dag ->
  nodes (register_nodes dag s0) = dag ->
  reachable dag s0 c -> run_inv dag c.
Proof.
  intros Hnd Hidle Hinv Hreg Hreach.
  induction Hreach as [| c c' _ IH Hstep].
  - apply prepare_inv; assumption.
  - apply (step_inv dag c c'); assumption.
Qed.

End Run.

End Readiness.

Module ReadinessClaim.
Import Py GlobalBridge StoreLemmas TransitionLemmas Readiness.

(** The test that decides [downstream_inverse]. *)
Definition downstream_inverse_b (ns : list ExecutionNode) : bool :=
  forallb
    (fun un =>
       forallb
         (fun d =>
            match find_node ns d with
            | Some dn => existsb (String.eqb (id un)) (upstream_nodes dn)
            | None => true
            end)
         (downstream_nodes un))
    ns.

Lemma downstream_inverse_b_sound ns :
  downstream_inverse_b ns = true -> downstream_inverse ns.
Proof.
  unfold downstream_inverse_b. rewrite forallb_forall.
  intros H u un d dn Hu Hd Hdn.
  specialize (H un (find_node_In _ _ _ Hu)). rewrite forallb_forall in H.
  specialize (H d Hd). rewrite Hdn in H. apply existsb_exists in H.
  destruct H as [x [Hx Hxe]]. apply String.eqb_eq in Hxe.
  rewrite <- (find_node_id _ _ _ Hu), Hxe. exact Hx.
Qed.

(** The test that decides that the nodes are IDLE. *)
Definition all_idle_b (ns : list ExecutionNode) : bool :=
  forallb (fun n => NodeState_eqb (state n) IDLE) ns.

Lemma all_idle_b_sound ns :
  all_idle_b ns = true -> Forall (fun n => state n = IDLE) ns.
Proof.
  unfold all_idle_b. rewrite forallb_forall, Forall_forall.
  intros H n Hn. apply NodeState_eqb_eq. apply H. exact Hn.
Qed.

(** The test that decides that no string occurs twice. *)
Fixpoint nodup_b (l : list string) : bool :=
  match l with
  | [] => true
  | x :: rest => andb (negb (existsb (String.eqb x) rest)) (nodup_b rest)
  end.

Lemma nodup_b_sound l : nodup_b l = true -> NoDup l.
Proof.
  induction l as [| x l IH]; simpl; intros H; constructor.
  - apply andb_prop in H. destruct H as [H _].
    intros Hin. apply negb_true_iff in H.
    assert (E : existsb (String.eqb x) l = true).
    { apply existsb_exists. exists x. split; [exact Hin | apply String.eqb_refl]. }
    congruence.
  - apply IH. apply andb_prop in H. tauto.
Qed.


(** The run of [__main__] up to the completion of its first node: the
    scheduler when the loop is entered, after node_1 is dispatched, and after
    its task has finished. *)
Local Abbreviation demo_prepared :=
  (prepare demo_wall (nodes demo_scheduler) demo_scheduler).
Local Abbreviation demo_dispatched :=
  (snd (update_state demo_wall "node_1" EXECUTING demo_prepared)).
Local Abbreviation demo_first_done :=
  (finish_node demo_wall mock_executor [] "node_1" demo_dispatched).

(** The node of key [i], for a key that is registered. *)
Definition node_at (s : Scheduler) (i : string) : ExecutionNode :=
  match find_node (nodes s) i with
  | Some n => n
  | None => demo_node i "" "" [] 0%Z
  end.

Definition demo_node_1_seeded : ExecutionNode :=
  Eval vm_compute in node_at demo_prepared "node_1".

Definition demo_node_1_dispatched : ExecutionNode :=
  Eval vm_compute in node_at demo_dispatched "node_1".

Definition demo_node_2_promoted : ExecutionNode :=
  Eval vm_compute in node_at demo_first_done "node_2".

Lemma demo_node_1_seeded_found :
  find_node (nodes demo_prepared) "node_1" = Some demo_node_1_seeded.
Proof. vm_compute. reflexivity. Qed.

Lemma demo_node_1_dispatched_found :
  find_node (nodes demo_dispatched) "node_1" = Some demo_node_1_dispatched.
Proof. vm_compute. reflexivity. Qed.

Lemma demo_node_2_promoted_found :
  find_node (nodes (fst (demo_first_done, remove string_dec "node_1" ["node_1"])))
            "node_2"
  = Some demo_node_2_promoted.
Proof. vm_compute. reflexivity. Qed.

Lemma demo_dispatched_reachable :
  reachable demo_wall mock_executor (nodes demo_scheduler) demo_scheduler
            (demo_dispatched, ["node_1"]).
Proof.
  exact (reach_step demo_wall mock_executor (nodes demo_scheduler) demo_scheduler
           (demo_prepared, []) (demo_dispatched, ["node_1"])
           (reach_prepared demo_wall mock_executor (nodes demo_scheduler) demo_scheduler)
           (step_dispatch demo_wall mock_executor demo_prepared [] "node_1"
                          demo_node_1_seeded demo_node_1_seeded_found eq_refl)).
Qed.

Lemma demo_first_done_reachable :
  reachable demo_wall mock_executor (nodes demo_scheduler) demo_scheduler
            (demo_first_done, remove string_dec "node_1" ["node_1"]).
Proof.
  exact (reach_step demo_wall mock_executor (nodes demo_scheduler) demo_scheduler
           (demo_dispatched, ["node_1"])
           (demo_first_done, remove string_dec "node_1" ["node_1"])
           demo_dispatched_reachable
           (step_finish demo_wall mock_executor demo_dispatched ["node_1"] []
                        "node_1" (or_introl eq_refl))).
Qed.

Lemma demo_nodes_distinct : NoDup (map id (nodes demo_scheduler)).
Proof. apply nodup_b_sound. vm_compute. reflexivity. Qed.

Lemma demo_nodes_idle : Forall (fun n => state n = IDLE) (nodes demo_scheduler).
Proof. apply all_idle_b_sound. vm_compute. reflexivity. Qed.

Lemma demo_nodes_inverse : downstream_inverse (nodes demo_scheduler).
Proof. apply downstream_inverse_b_sound. vm_compute. reflexivity. Qed.

Lemma demo_nodes_registered :
  nodes (register_nodes (nodes demo_scheduler) demo_scheduler) = nodes demo_scheduler.
Proof. vm_compute. reflexivity. Qed.



End ReadinessClaim.

(* ================================================================== *)
(** * Promotion, failure and stalls *)
(* ================================================================== *)

Module SchedulerClaims.
Import Py GlobalBridge StoreLemmas TransitionLemmas Readiness.

(** ** Promotion without a guard *)

(** The number of transitions to READY the log holds for node [i]. *)
Definition ready_transitions (i : string) (log : list LogRecord) : nat :=
  List.length
    (filter (fun r => match r with
                      | StateChange j _ READY => String.eqb j i
                      | _ => false
                      end) log).

(** The number of dispatches (transitions to EXECUTING) of node [i]. *)
Definition dispatches (i : string) (log : list LogRecord) : nat :=
  List.length
    (filter (fun r => match r with
                      | StateChange j _ EXECUTING => String.eqb j i
                      | _ => false
                      end) log).

(** The trigger does not look at the state of the downstream node: a node
    that passes the readiness test is given a new prompt and set READY again,
    whatever its state. *)
Lemma trigger_promotes_whatever_the_state wall s v vn g text :
  find_node (nodes s) v = Some vn ->
  all_deps_completed (nodes s) vn = true ->
  prompt_generator s = Some g -> g (nodes s) vn = Some text ->
  trigger_loop wall [v] s = (promote wall (Some text) v s, false)
  /\ state_of (nodes (promote wall (Some text) v s)) v = Some READY
  /\ exists old, journal (promote wall (Some text) v s)
                 = journal s ++ [StateChange v old READY; InstantTrigger v]
                 /\ old = state vn.
Proof.
  intros Hf Ha Hg Ht. split; [| split].
  - rewrite trigger_loop_cons, Hf, Ha, Hg, Ht. reflexivity.
  - rewrite nodes_promote, state_of_alter by apply keeps_shape_promoted.
    rewrite String.eqb_refl, Hf. reflexivity.
  - exists (state vn). split; [| reflexivity].
    unfold promote. rewrite update_state_nested_eq.
    assert (E : find_node (nodes (alter_node (set_prompt text) v s)) v
                = Some (set_prompt text vn)).
    { simpl. rewrite find_alter_same by auto with shape. rewrite Hf. reflexivity. }
    rewrite E. cbn [snd]. unfold mark, logged. simpl.
    rewrite <- app_assoc. rewrite (find_node_id _ _ _ Hf). reflexivity.
Qed.

(** The run of [__main__] after [execute_dag] alone registered the nodes. *)
Definition demo_run_registered_once : Run :=
  execute_dag demo_wall mock_executor in_order (nodes demo_scheduler) create_scheduler.

(** C1.  In the run of [__main__], where [register_nodes] is called by
    [main] and again by [execute_dag], every node has the coordinator's
    callback twice.  When node_3, the second parent of node_4, completes,
    both evaluations find all upstream nodes of node_4 COMPLETED: the log
    holds two transitions of node_4 to READY, the second from READY to READY.
    The node is dispatched once.  With the nodes registered once, node_4 is
    promoted once. *)
Theorem C1_second_evaluation_promotes_again :
  listeners_of (state_listeners (final demo_run)) "node_3" = [OnStateChange; OnStateChange]
  /\ ready_transitions "node_4" (journal (final demo_run)) = 2
  /\ In (StateChange "node_4" READY READY) (journal (final demo_run))
  /\ dispatches "node_4" (journal (final demo_run)) = 1
  /\ ready_transitions "node_4" (journal (final demo_run_registered_once)) = 1.
Proof.
  vm_compute. repeat split. do 17 right. left. reflexivity.
Qed.

(** ** Failure *)

(** What a completion keeps when some upstream node [u] of [v] is not
    COMPLETED: the entry of [v]. *)
Definition held (u v : string) (vn : ExecutionNode) (s : Scheduler) : Prop :=
  find_node (nodes s) v = Some vn /\ ~ completed (nodes s) u.

Lemma held_trigger_loop wall u v vn ds s :
  In u (upstream_nodes vn) -> held u v vn s ->
  held u v vn (fst (trigger_loop wall ds s)).
Proof.
  intros Hu Hheld.
  destruct (trigger_loop_ind wall (fun _ s1 => held u v vn s1))
    with (ds := ds) (s := s) as [rest [H _]]; auto.
  intros d rest s1 dn text [Hv Hnc] Hd Ha.
  assert (Hdv : d <> v).
  { intros ->. rewrite Hv in Hd. injection Hd as <-.
    apply Hnc. apply (proj1 (all_deps_completed_iff _ _) Ha). exact Hu. }
  unfold held. rewrite nodes_promote. split.
  - rewrite find_alter_other; [exact Hv | apply keeps_shape_promoted | congruence].
  - unfold completed. rewrite state_of_alter by apply keeps_shape_promoted.
    destruct (String.eqb u d) eqn:E; [| exact Hnc].
    rewrite (proj1 (String.eqb_eq u d) E), Hd. simpl. discriminate.
Qed.


(** The graph {A -> B, A -> C, B -> D} of the failure scenario, built as
    [__main__] builds its graph, and an executor that raises on B. *)
Definition isolation_nodes : list ExecutionNode :=
  [ demo_node "A" "architect" "task_A" [] 0%Z;
    demo_node "B" "developer" "task_B" [] 1%Z;
    demo_node "C" "developer" "task_C" [] 2%Z;
    demo_node "D" "quality" "task_D" [] 3%Z ].

Definition isolation_dependencies : list (string * list string) :=
  [ ("B", ["A"]); ("C", ["A"]); ("D", ["B"]) ].

Definition isolation_graph : list ExecutionNode :=
  nodes (set_node_dependencies isolation_dependencies
           (register_nodes isolation_nodes create_scheduler)).

Definition failing_on_B (node : ExecutionNode) : pyval + string :=
  if String.eqb (id node) "B" then inr "boom" else mock_executor node.

Definition isolation_run : Run :=
  execute_dag demo_wall failing_on_B in_order isolation_graph create_scheduler.

Local Abbreviation isolation_start :=
  (register_nodes isolation_graph create_scheduler).

Definition isolation_node_D : ExecutionNode :=
  Eval vm_compute in ReadinessClaim.node_at isolation_start "D".

Lemma isolation_node_D_found :
  find_node (nodes isolation_start) "D" = Some isolation_node_D.
Proof. vm_compute. reflexivity. Qed.

Lemma isolation_D_not_B : "D" <> "B".
Proof. discriminate. Qed.


(** The states a status map reports, by node. *)
Definition reported_states (r : Run) : list (string * string) :=
  map (fun kv => (fst kv, status_state (snd kv))) (results r).


(** ** Stalls *)

(** No node is READY and some node is neither COMPLETED nor FAILED. *)
Definition stalled (s : Scheduler) : bool :=
  match filter is_ready (nodes s) with
  | [] => negb (forallb is_done (nodes s))
  | _ => false
  end.

(** C6 (as amended).  When no node is READY and some node is neither
    COMPLETED nor FAILED, the loop neither stops nor reports: every pass that
    is left sleeps, up to the cap on the passes, and the scheduler is left as
    it was. *)
Theorem C6_stalled_loop_sleeps_out_its_passes
        (wall : nat -> Time) (executor : ExecutionNode -> pyval + string)
        (schedule : nat -> list string -> list string)
        (remaining pass : nat) (s : Scheduler) :
  stalled s = true ->
  run_loop wall executor schedule remaining pass s = (s, repeat PassSleep remaining).
Proof.
  unfold stalled. intros H. revert pass.
  induction remaining as [| k IH]; intros pass; simpl; [reflexivity |].
  destruct (filter is_ready (nodes s)) as [| r rs]; [| discriminate]. simpl.
  apply negb_true_iff in H. rewrite H. rewrite IH. reflexivity.
Qed.

(** A scheduler whose only node waits for a node that is not registered. *)
Local Abbreviation waiting_scheduler :=
  (register_nodes [demo_node "x" "developer" "task_x" ["ghost"] 0%Z] create_scheduler).

Lemma waiting_scheduler_stalled : stalled waiting_scheduler = true.
Proof. vm_compute. reflexivity. Qed.

Lemma C6_stalled_loop_sleeps_out_its_passes_witness :
  run_loop demo_wall mock_executor in_order 2 0 waiting_scheduler
  = (waiting_scheduler, repeat PassSleep 2).
Proof.
  exact (C6_stalled_loop_sleeps_out_its_passes
           demo_wall mock_executor in_order 2 0 waiting_scheduler
           waiting_scheduler_stalled).
Defined.

(** In the failure scenario the run has stalled after its second pass (D is
    idle behind the failed B): the loop goes on for the six passes the cap
    leaves, sleeping in each, and [execute_dag] returns the status map as it
    returns any other. *)
Lemma C6_counterexample :
  stalled (final isolation_run) = true
  /\ passes isolation_run
     = [PassDispatch ["A"]; PassDispatch ["B"; "C"];
        PassSleep; PassSleep; PassSleep; PassSleep; PassSleep; PassSleep]
  /\ sleeps isolation_run = 6
  /\ reported_states isolation_run
     = [("A", "completed"); ("B", "failed"); ("C", "completed"); ("D", "idle")].
Proof. vm_compute. repeat split. Qed.

End SchedulerClaims.

(* ================================================================== *)
(** * Setting dependencies *)
(* ================================================================== *)

Module DependencyClaims.
Import Py GlobalBridge StoreLemmas.

(** Every upstream edge between registered nodes has its downstream
    counterpart. *)
Definition forward (ns : list ExecutionNode) : Prop :=
  forall u un v vn,
    find_node ns u = Some un -> find_node ns v = Some vn ->
    In u (upstream_nodes vn) -> In v (downstream_nodes un).

(** The test that decides [forward]. *)
Definition forward_b (ns : list ExecutionNode) : bool :=
  forallb
    (fun vn =>
       forallb
         (fun u =>
            match find_node ns u with
            | Some un => existsb (String.eqb (id vn)) (downstream_nodes un)
            | None => true
            end)
         (upstream_nodes vn))
    ns.

Lemma forward_b_sound ns : forward_b ns = true -> forward ns.
Proof.
  unfold forward_b. rewrite forallb_forall.
  intros H u un v vn Hu Hv Hin.
  specialize (H vn (find_node_In _ _ _ Hv)). rewrite forallb_forall in H.
  specialize (H u Hin). rewrite Hu in H. apply existsb_exists in H.
  destruct H as [x [Hx Hxe]]. apply String.eqb_eq in Hxe.
  rewrite <- (find_node_id _ _ _ Hv), Hxe. exact Hx.
Qed.

(** A mutation that leaves the key alone. *)
Definition keeps_id (f : ExecutionNode -> ExecutionNode) : Prop :=
  forall n, id (f n) = id n.

Lemma find_alter_id f i j ns :
  keeps_id f ->
  find_node (alter f i ns) j
  = if String.eqb j i then option_map f (find_node ns j) else find_node ns j.
Proof.
  intros Hf. unfold find_node, alter.
  induction ns as [| m ns IH]; simpl.
  - destruct (String.eqb j i); reflexivity.
  - destruct (String.eqb (id m) i) eqn:E.
    + rewrite Hf. apply String.eqb_eq in E.
      destruct (String.eqb (id m) j) eqn:E2.
      * apply String.eqb_eq in E2. rewrite <- E2, E, String.eqb_refl. reflexivity.
      * exact IH.
    + destruct (String.eqb (id m) j) eqn:E2; [| exact IH].
      apply String.eqb_eq in E2. rewrite <- E2, E. reflexivity.
Qed.

Lemma alter_fixed f i ns :
  (forall n, In n ns -> id n = i -> f n = n) -> alter f i ns = ns.
Proof.
  unfold alter. induction ns as [| m ns IH]; intros H; simpl; [reflexivity |].
  rewrite IH by (intros n Hn; apply H; right; exact Hn).
  destruct (String.eqb (id m) i) eqn:E; [| reflexivity].
  rewrite H; [reflexivity | left; reflexivity | apply String.eqb_eq; exact E].
Qed.

Lemma In_alter_inv f i ns n' :
  In n' (alter f i ns) ->
  exists n, In n ns /\ n' = (if String.eqb (id n) i then f n else n).
Proof. apply In_alter. Qed.

(** The downstream list of an upstream node after [node_id] was linked. *)
Definition linked (node_id : string) (n : ExecutionNode) : ExecutionNode :=
  if existsb (String.eqb node_id) (downstream_nodes n) then n
  else set_downstream_nodes (downstream_nodes n ++ [node_id]) n.

Lemma existsb_eqb_In k l : existsb (String.eqb k) l = true <-> In k l.
Proof.
  rewrite existsb_exists. split.
  - intros [x [Hx He]]. apply String.eqb_eq in He. subst. exact Hx.
  - intros H. exists k. split; [exact H | apply String.eqb_refl].
Qed.

Lemma linked_has k n : In k (downstream_nodes (linked k n)).
Proof.
  unfold linked. destruct (existsb (String.eqb k) (downstream_nodes n)) eqn:E.
  - apply existsb_eqb_In. exact E.
  - simpl. apply in_or_app. right. left. reflexivity.
Qed.

Lemma linked_grows k n x : In x (downstream_nodes n) -> In x (downstream_nodes (linked k n)).
Proof.
  unfold linked. destruct (existsb (String.eqb k) (downstream_nodes n)); [tauto |].
  simpl. intros H. apply in_or_app. left. exact H.
Qed.

Lemma linked_upstream k n : upstream_nodes (linked k n) = upstream_nodes n.
Proof. unfold linked. destruct (existsb _ _); reflexivity. Qed.

Lemma linked_id k n : id (linked k n) = id n.
Proof. unfold linked. destruct (existsb _ _); reflexivity. Qed.

Lemma linked_fixed k n : In k (downstream_nodes n) -> linked k n = n.
Proof.
  intros H. unfold linked. apply existsb_eqb_In in H. rewrite H. reflexivity.
Qed.

Lemma linked_twice k n : linked k (linked k n) = linked k n.
Proof. apply linked_fixed. apply linked_has. Qed.

(** One turn of the inner loop of [set_node_dependencies]. *)
Definition link_one (node_id : string) (acc : list ExecutionNode) (up_id : string)
  : list ExecutionNode :=
  match find_node acc up_id with
  | Some up =>
      if existsb (String.eqb node_id) (downstream_nodes up) then acc
      else alter (fun m => set_downstream_nodes (downstream_nodes m ++ [node_id]) m)
                 up_id acc
  | None => acc
  end.

Lemma link_upstream_fold k ups ns : link_upstream k ups ns = fold_left (link_one k) ups ns.
Proof. reflexivity. Qed.

Lemma find_link_one k acc up j :
  find_node (link_one k acc up) j
  = if String.eqb j up then option_map (linked k) (find_node acc j) else find_node acc j.
Proof.
  unfold link_one. destruct (find_node acc up) as [upn |] eqn:E.
  - destruct (existsb (String.eqb k) (downstream_nodes upn)) eqn:Ex.
    + destruct (String.eqb j up) eqn:Ej; [| reflexivity].
      apply String.eqb_eq in Ej. subst j. rewrite E. simpl.
      unfold linked. rewrite Ex. reflexivity.
    + rewrite find_alter_id by (intros n; reflexivity).
      destruct (String.eqb j up) eqn:Ej; [| reflexivity].
      apply String.eqb_eq in Ej. subst j. rewrite E. simpl.
      unfold linked. rewrite Ex. reflexivity.
  - destruct (String.eqb j up) eqn:Ej; [| reflexivity].
    apply String.eqb_eq in Ej. subst j. rewrite E. reflexivity.
Qed.

Lemma find_link_upstream k ups ns j :
  find_node (link_upstream k ups ns) j
  = if existsb (String.eqb j) ups then option_map (linked k) (find_node ns j)
    else find_node ns j.
Proof.
  rewrite link_upstream_fold. revert ns.
  induction ups as [| up ups IH]; intros ns; simpl; [reflexivity |].
  rewrite IH, find_link_one.
  destruct (String.eqb j up) eqn:E; simpl; [| reflexivity].
  destruct (existsb (String.eqb j) ups); [| reflexivity].
  destruct (find_node ns j); simpl; [| reflexivity].
  rewrite linked_twice. reflexivity.
Qed.

(** One entry of the dict of [set_node_dependencies], on the nodes. *)
Definition set_entry (acc : list ExecutionNode) (entry : string * list string)
  : list ExecutionNode :=
  match find_node acc (fst entry) with
  | Some _ =>
      link_upstream (fst entry) (snd entry)
                    (alter (set_upstream_nodes (snd entry)) (fst entry) acc)
  | None => acc
  end.

Lemma set_entry_registered acc k ups kn :
  find_node acc k = Some kn ->
  set_entry acc (k, ups) = link_upstream k ups (alter (set_upstream_nodes ups) k acc).
Proof. intros H. unfold set_entry. simpl. rewrite H. reflexivity. Qed.

Lemma set_entry_unregistered acc k ups :
  find_node acc k = None -> set_entry acc (k, ups) = acc.
Proof. intros H. unfold set_entry. simpl. rewrite H. reflexivity. Qed.

Lemma set_node_dependencies_cons k ups deps s :
  set_node_dependencies ((k, ups) :: deps) s
  = set_node_dependencies deps
      (match find_node (nodes s) k with
       | Some _ =>
           with_nodes (link_upstream k ups
                         (alter (set_upstream_nodes ups) k (nodes s))) s
       | None => s
       end).
Proof. reflexivity. Qed.

Lemma set_node_dependencies_nodes deps s :
  set_node_dependencies deps s = with_nodes (fold_left set_entry deps (nodes s)) s.
Proof.
  revert s. induction deps as [| [k ups] deps IH]; intros s.
  - destruct s; reflexivity.
  - rewrite set_node_dependencies_cons, IH.
    change (fold_left set_entry ((k, ups) :: deps) (nodes s))
      with (fold_left set_entry deps (set_entry (nodes s) (k, ups))).
    destruct (find_node (nodes s) k) as [kn |] eqn:E.
    + rewrite (set_entry_registered (nodes s) k ups kn E). destruct s; reflexivity.
    + rewrite (set_entry_unregistered (nodes s) k ups E). reflexivity.
Qed.

(** What one entry does to the node of key [j]. *)
Definition entry_effect (k : string) (ups : list string) (j : string)
           (n : ExecutionNode) : ExecutionNode :=
  let n1 := if String.eqb j k then set_upstream_nodes ups n else n in
  if existsb (String.eqb j) ups then linked k n1 else n1.

Lemma find_set_entry acc k ups j kn :
  find_node acc k = Some kn ->
  find_node (set_entry acc (k, ups)) j = option_map (entry_effect k ups j) (find_node acc j).
Proof.
  intros Hk. unfold set_entry. simpl. rewrite Hk.
  rewrite find_link_upstream, find_alter_id by (intros n; reflexivity).
  unfold entry_effect.
  destruct (existsb (String.eqb j) ups); destruct (String.eqb j k);
    destruct (find_node acc j); reflexivity.
Qed.

Lemma entry_effect_upstream k ups j n :
  upstream_nodes (entry_effect k ups j n)
  = if String.eqb j k then ups else upstream_nodes n.
Proof.
  unfold entry_effect.
  destruct (existsb (String.eqb j) ups); rewrite ?linked_upstream;
    destruct (String.eqb j k); reflexivity.
Qed.

Lemma entry_effect_grows k ups j n x :
  In x (downstream_nodes n) -> In x (downstream_nodes (entry_effect k ups j n)).
Proof.
  intros H. unfold entry_effect.
  destruct (existsb (String.eqb j) ups); [apply linked_grows |];
    destruct (String.eqb j k); exact H.
Qed.

Lemma forward_set_entry acc entry : forward acc -> forward (set_entry acc entry).
Proof.
  destruct entry as [k ups]. intros Hfw.
  destruct (find_node acc k) as [kn |] eqn:Hk.
  - intros u un v vn Hu Hv Hin.
    rewrite (find_set_entry acc k ups u kn Hk) in Hu.
    rewrite (find_set_entry acc k ups v kn Hk) in Hv.
    destruct (find_node acc u) as [un0 |] eqn:Eu; [| discriminate].
    destruct (find_node acc v) as [vn0 |] eqn:Ev; [| discriminate].
    simpl in Hu, Hv. injection Hu as <-. injection Hv as <-.
    rewrite entry_effect_upstream in Hin.
    destruct (String.eqb v k) eqn:Evk.
    + apply String.eqb_eq in Evk. subst v. unfold entry_effect.
      apply existsb_eqb_In in Hin. rewrite Hin. apply linked_has.
    + apply entry_effect_grows. apply (Hfw u un0 v vn0 Eu Ev Hin).
  - unfold set_entry. simpl. rewrite Hk. exact Hfw.
Qed.

Lemma forward_set_node_dependencies deps s :
  forward (nodes s) -> forward (nodes (set_node_dependencies deps s)).
Proof.
  rewrite set_node_dependencies_nodes. simpl. generalize (nodes s). clear s.
  induction deps as [| e deps IH]; intros ns H; simpl; [exact H |].
  apply IH. apply forward_set_entry. exact H.
Qed.

(** ** Idempotence *)

(** An entry that a second call would write as it stands. *)
Definition settled (acc : list ExecutionNode) (entry : string * list string) : Prop :=
  (forall n, In n acc -> id n = fst entry -> upstream_nodes n = snd entry)
  /\ (forall up upn, In up (snd entry) -> find_node acc up = Some upn ->
                     In (fst entry) (downstream_nodes upn)).

Lemma link_upstream_settled k ups acc :
  (forall up upn, In up ups -> find_node acc up = Some upn ->
                  In k (downstream_nodes upn)) ->
  link_upstream k ups acc = acc.
Proof.
  rewrite link_upstream_fold.
  induction ups as [| up ups IH]; intros H; simpl; [reflexivity |].
  assert (E : link_one k acc up = acc).
  { unfold link_one. destruct (find_node acc up) as [upn |] eqn:Eu; [| reflexivity].
    assert (Hin : In k (downstream_nodes upn)).
    { apply (H up upn); [left; reflexivity | exact Eu]. }
    apply existsb_eqb_In in Hin. rewrite Hin. reflexivity. }
  rewrite E. apply IH. intros up' upn Hup' Hf. apply (H up' upn); [right |]; assumption.
Qed.

Lemma set_entry_settled acc entry : settled acc entry -> set_entry acc entry = acc.
Proof.
  destruct entry as [k ups]. intros [HA HB]. unfold set_entry. simpl in *.
  destruct (find_node acc k); [| reflexivity].
  assert (E : alter (set_upstream_nodes ups) k acc = acc).
  { apply alter_fixed. intros n Hn Hid. specialize (HA n Hn Hid).
    destruct n. simpl in *. subst. reflexivity. }
  rewrite E. apply link_upstream_settled. exact HB.
Qed.

Lemma In_link_one k acc up n' :
  In n' (link_one k acc up) ->
  exists n, In n acc /\ id n' = id n /\ upstream_nodes n' = upstream_nodes n.
Proof.
  unfold link_one. intros H.
  destruct (find_node acc up) as [upn |]; [| exists n'; tauto].
  destruct (existsb (String.eqb k) (downstream_nodes upn)); [exists n'; tauto |].
  apply In_alter in H. destruct H as [n [Hn ->]]. exists n.
  split; [exact Hn |]. destruct (String.eqb (id n) up); split; reflexivity.
Qed.

Lemma In_link_upstream k ups acc n' :
  In n' (link_upstream k ups acc) ->
  exists n, In n acc /\ id n' = id n /\ upstream_nodes n' = upstream_nodes n.
Proof.
  rewrite link_upstream_fold. revert acc.
  induction ups as [| up ups IH]; intros acc H; simpl in H.
  - exists n'. tauto.
  - destruct (IH _ H) as [n1 [Hn1 [Hid1 Hup1]]].
    destruct (In_link_one k acc up n1 Hn1) as [n [Hn [Hid Hup]]].
    exists n. split; [exact Hn |]. split; congruence.
Qed.

(** The entry that was just written is settled. *)
Lemma set_entry_settles acc k ups kn :
  find_node acc k = Some kn -> settled (set_entry acc (k, ups)) (k, ups).
Proof.
  intros Hk. split; simpl.
  - intros n' Hn' Hid. unfold set_entry in Hn'. simpl in Hn'. rewrite Hk in Hn'.
    destruct (In_link_upstream _ _ _ _ Hn') as [n1 [Hn1 [Hid1 Hup1]]].
    apply In_alter in Hn1. destruct Hn1 as [n [Hn ->]].
    rewrite Hup1.
    destruct (String.eqb (id n) k) eqn:E; [reflexivity |].
    apply String.eqb_neq in E. exfalso. apply E. congruence.
  - intros up upn Hup Hf. rewrite (find_set_entry acc k ups up kn Hk) in Hf.
    destruct (find_node acc up) as [n0 |]; [| discriminate].
    simpl in Hf. injection Hf as <-. unfold entry_effect.
    apply existsb_eqb_In in Hup. rewrite Hup. apply linked_has.
Qed.

(** An entry of another key leaves a settled entry settled. *)
Lemma set_entry_keeps_settled acc e k ups :
  fst e <> k -> settled acc (k, ups) -> settled (set_entry acc e) (k, ups).
Proof.
  destruct e as [k' ups']. simpl. intros Hne [HA HB].
  destruct (find_node acc k') as [kn' |] eqn:Hk'.
  - split; simpl.
    + intros n' Hn' Hid. unfold set_entry in Hn'. simpl in Hn'. rewrite Hk' in Hn'.
      destruct (In_link_upstream _ _ _ _ Hn') as [n1 [Hn1 [Hid1 Hup1]]].
      apply In_alter in Hn1. destruct Hn1 as [n [Hn ->]].
      rewrite Hup1.
      destruct (String.eqb (id n) k') eqn:E.
      * apply String.eqb_eq in E. simpl in *. exfalso. apply Hne. congruence.
      * apply (HA n Hn). simpl in *. congruence.
    + intros up upn Hup Hf. rewrite (find_set_entry acc k' ups' up kn' Hk') in Hf.
      destruct (find_node acc up) as [n0 |] eqn:E0; [| discriminate].
      simpl in Hf. injection Hf as <-. apply entry_effect_grows.
      apply (HB up n0 Hup E0).
  - unfold set_entry. simpl. rewrite Hk'. split; assumption.
Qed.

Lemma find_set_entry_registered acc e j :
  find_node (set_entry acc e) j = None <-> find_node acc j = None.
Proof.
  destruct e as [k ups]. destruct (find_node acc k) as [kn |] eqn:Hk.
  - rewrite (find_set_entry acc k ups j kn Hk).
    destruct (find_node acc j); simpl; split; intros H; try discriminate; reflexivity.
  - unfold set_entry. simpl. rewrite Hk. tauto.
Qed.

(** After a call, every entry of the dict whose key is registered is
    settled. *)
Lemma fold_set_entry_settled deps acc :
  NoDup (map fst deps) ->
  forall e, In e deps -> find_node acc (fst e) <> None ->
            settled (fold_left set_entry deps acc) e.
Proof.
  revert acc. induction deps as [| d deps IH]; intros acc Hnd e He Hreg; [contradiction |].
  simpl in Hnd. inversion Hnd as [| ? ? Hnotin Hnd']; subst.
  simpl. destruct He as [-> | He].
  - (* the entry written first: the later ones have other keys *)
    destruct e as [k ups]. simpl in *.
    destruct (find_node acc k) as [kn |] eqn:Hk; [| contradiction].
    assert (Hs : settled (set_entry acc (k, ups)) (k, ups))
      by (apply (set_entry_settles acc k ups kn Hk)).
    clear IH Hnd Hnd' Hreg Hk. revert Hs Hnotin.
    generalize (set_entry acc (k, ups)). clear acc.
    induction deps as [| d deps IH]; intros acc Hs Hnotin; simpl; [exact Hs |].
    apply IH.
    + apply set_entry_keeps_settled; [| exact Hs].
      intros E. apply Hnotin. left. exact E.
    + intros Hin. apply Hnotin. right. exact Hin.
  - apply IH; try assumption.
    intros Hn. apply Hreg. apply (find_set_entry_registered acc d (fst e)). exact Hn.
Qed.

Lemma fold_set_entry_fixed deps acc :
  (forall e, In e deps -> find_node acc (fst e) <> None -> settled acc e) ->
  fold_left set_entry deps acc = acc.
Proof.
  induction deps as [| d deps IH]; intros H; simpl; [reflexivity |].
  assert (E : set_entry acc d = acc).
  { destruct (find_node acc (fst d)) eqn:Ed.
    - apply set_entry_settled. apply H; [left; reflexivity |]. congruence.
    - unfold set_entry. rewrite Ed. reflexivity. }
  rewrite E. apply IH. intros e He. apply H. right. exact He.
Qed.

Lemma fold_set_entry_registered deps acc j :
  find_node (fold_left set_entry deps acc) j = None <-> find_node acc j = None.
Proof.
  revert acc. induction deps as [| d deps IH]; intros acc; simpl; [tauto |].
  rewrite IH. apply find_set_entry_registered.
Qed.

Lemma set_node_dependencies_idempotent deps s :
  NoDup (map fst deps) ->
  set_node_dependencies deps (set_node_dependencies deps s)
  = set_node_dependencies deps s.
Proof.
  intros Hnd. rewrite !set_node_dependencies_nodes. simpl.
  rewrite fold_set_entry_fixed; [destruct s; reflexivity |].
  intros e He Hreg. apply fold_set_entry_settled; try assumption.
  intros Hn. apply Hreg. apply fold_set_entry_registered. exact Hn.
Qed.


(** Three nodes without edges, and two calls that move the dependency of B
    from A to C. *)
Definition plain_nodes : list ExecutionNode :=
  [ demo_node "A" "architect" "task_A" [] 0%Z;
    demo_node "B" "developer" "task_B" [] 1%Z;
    demo_node "C" "developer" "task_C" [] 2%Z ].

Local Abbreviation plain_scheduler := (register_nodes plain_nodes create_scheduler).

Definition rewired : Scheduler :=
  set_node_dependencies [("B", ["C"])]
    (set_node_dependencies [("B", ["A"])] plain_scheduler).

Lemma plain_scheduler_forward : forward (nodes plain_scheduler).
Proof. apply forward_b_sound. vm_compute. reflexivity. Qed.

Lemma one_key_distinct : NoDup (map fst [("B", ["A"])]).
Proof. repeat constructor. simpl. tauto. Qed.



End DependencyClaims.

(* ================================================================== *)
(** * Dependency lookup in the task graph *)
(* ================================================================== *)

Module TaskClaims.
Import Py TaskDecomposer.

(** ** [in] on strings *)

Lemma prefix_append (a b : string) : String.prefix a (a ++ b) = true.
Proof. induction a as [| c a IH]; simpl; [destruct b; reflexivity |].
  destruct (Ascii.ascii_dec c c) as [_ | Hne]; [exact IH | exfalso; apply Hne; reflexivity].
Qed.

Lemma prefix_split (a s : string) :
  String.prefix a s = true -> exists b, s = (a ++ b)%string.
Proof.
  revert s. induction a as [| c a IH]; intros s H.
  - exists s. reflexivity.
  - destruct s as [| c' s]; simpl in H; [discriminate |].
    destruct (Ascii.ascii_dec c c') as [-> | _]; [| discriminate].
    destruct (IH s H) as [b ->]. exists b. reflexivity.
Qed.

Lemma contains_unfold (needle haystack : string) :
  contains needle haystack
  = if String.prefix needle haystack then true
    else match haystack with
         | EmptyString => false
         | String _ rest => contains needle rest
         end.
Proof. destruct haystack; reflexivity. Qed.

(** [contains needle haystack] holds exactly when the haystack is some
    text, the needle, and some text. *)
Lemma contains_spec (needle haystack : string) :
  contains needle haystack = true
  <-> exists before after, haystack = (before ++ needle ++ after)%string.
Proof.
  split.
  - induction haystack as [| c h IH]; rewrite contains_unfold.
    + destruct (String.prefix needle "") eqn:E; [| intros H; discriminate H].
      intros _. destruct (prefix_split _ _ E) as [b Hb]. exists "", b. exact Hb.
    + destruct (String.prefix needle (String c h)) eqn:E.
      * intros _. destruct (prefix_split _ _ E) as [b Hb]. exists "", b. exact Hb.
      * intros H. destruct (IH H) as [before [after ->]].
        exists (String c before), after. reflexivity.
  - intros [before [after ->]]. induction before as [| c b IH].
    + rewrite contains_unfold. change ("" ++ needle ++ after)%string
        with (needle ++ after)%string.
      rewrite prefix_append. reflexivity.
    + rewrite contains_unfold.
      change (String c b ++ needle ++ after)%string
        with (String c (b ++ needle ++ after))%string.
      destruct (String.prefix needle (String c (b ++ needle ++ after))); [reflexivity |].
      exact IH.
Qed.

(** ** What a reference resolves to *)

(** [found] is the first node, in the order of the dict, whose title
    contains the reference [t]. *)
Definition first_title_match (ns : list (string * TaskNode)) (t : string)
           (found : TaskNode) : Prop :=
  exists before after,
    values ns = before ++ found :: after
    /\ contains t (title found) = true
    /\ forall m, In m before -> contains t (title m) = false.

Lemma find_first {A : Type} (p : A -> bool) (l : list A) (x : A) :
  find p l = Some x ->
  exists before after,
    l = before ++ x :: after /\ p x = true /\ forall m, In m before -> p m = false.
Proof.
  induction l as [| y l IH]; simpl; [discriminate |].
  destruct (p y) eqn:E.
  - intros H. injection H as ->. exists [], l. repeat split; [exact E |].
    intros m [].
  - intros H. destruct (IH H) as [before [after [-> [Hx Hb]]]].
    exists (y :: before), after. repeat split; [exact Hx |].
    intros m [<- | Hm]; [exact E | apply Hb; exact Hm].
Qed.

Lemma find_none_all {A : Type} (p : A -> bool) (l : list A) :
  find p l = None -> forall m, In m l -> p m = false.
Proof.
  induction l as [| y l IH]; simpl; intros H m Hm; [contradiction |].
  destruct (p y) eqn:E; [discriminate |].
  destruct Hm as [<- | Hm]; [exact E | apply IH; assumption].
Qed.


(** A task graph of four tasks: "unit test" is completed, "test" is pending,
    "deploy" depends on "test", and "es" is an unrelated pending task. *)
Definition task (i t : string) (deps : list string) (st : TaskState) : TaskNode :=
  mkTask i t t DEVELOPMENT MODERATE 30%Z "developer" deps None 1%Z [] []
         [(t ++ "_result")%string] st "L3" [].

Definition overlapping_titles : TaskDAG :=
  mkDAG "session" 4 [] [] 120%Z
        [ ("task_001", task "task_001" "unit test" [] COMPLETED);
          ("task_002", task "task_002" "test" [] PENDING);
          ("task_003", task "task_003" "deploy" ["test"] PENDING);
          ("task_004", task "task_004" "es" [] PENDING) ].


(** A dependency that no title contains is dropped by the test of
    [get_ready_tasks], and fails the test of the trigger. *)
Lemma unresolved_reference_is_ready_in_one_test_only :
  let g := mkDAG "session" 1 [] [] 30%Z
                 [("task_001", task "task_001" "deploy" ["missing"] PENDING)] in
  map id (get_ready_tasks g) = ["task_001"]
  /\ all_deps_done (nodes g) (task "task_001" "deploy" ["missing"] PENDING) = false.
Proof. vm_compute. split; reflexivity. Qed.

End TaskClaims.

(* ================================================================== *)
(** * Isolation of the node-level context *)
(* ================================================================== *)

Module ContextClaims.
Import Py HierarchicalContext.

Section Visibility.
Variable wall : nat -> Time.

(** A loop of [get_visible_context] returns records of the layer that pass
    its test. *)
Lemma select_keeps keep rs reads r :
  In r (fst (select wall keep rs reads)) -> keep r = true /\ In r (map snd rs).
Proof.
  revert reads. induction rs as [| [k r0] rs IH]; intros reads; simpl; [tauto |].
  destruct (is_expired wall r0 reads) as [expired reads1].
  specialize (IH reads1).
  destruct (select wall keep rs reads1) as [chosen reads2]. simpl in IH.
  destruct (negb expired && keep r0)%bool eqn:E; simpl.
  - intros [<- | H].
    + apply andb_prop in E. tauto.
    + destruct (IH H). tauto.
  - intros H. destruct (IH H). tauto.
Qed.

(** The node-level records [get_visible_context] returns for a node are
    records of the node-level layer that carry the id of that node. *)
Lemma visible_L3_own node project session m r :
  In r (visible_L3 (fst (get_visible_context wall node project session m))) ->
  node_id r = Some node /\ In r (map snd (layer_L3 m)).
Proof.
  unfold get_visible_context.
  destruct (select wall (fun _ => true) (layer_L1 m) (clock_reads m)) as [v1 reads1].
  destruct (match given project with
            | Some p => _
            | None => ([], reads1)
            end) as [v2 reads2].
  destruct (select wall (fun r => opt_string_eqb (node_id r) (Some node))
                   (layer_L3 m) reads2) as [v3 reads3] eqn:E3.
  destruct (match given session with
            | Some ss => _
            | None => ([], reads3)
            end) as [v4 reads4].
  simpl. intros H.
  assert (H3 : In r (fst (select wall (fun r => opt_string_eqb (node_id r) (Some node))
                                 (layer_L3 m) reads2))) by (rewrite E3; exact H).
  apply select_keeps in H3. destruct H3 as [Hk Hin]. split; [| exact Hin].
  unfold opt_string_eqb in Hk. destruct (node_id r) as [x |]; [| discriminate].
  apply String.eqb_eq in Hk. congruence.
Qed.

End Visibility.

(** The same prompt given to two nodes within one second. *)
Definition shared_prompt : string := "You are a careful assistant.".

Section Collision.

(** Any digest function. *)
Variable sha256_hex12 : string -> string.

Definition after_first : Manager :=
  snd (create_context GlobalBridge.demo_wall sha256_hex12 L3_NODE shared_prompt [] PRIVATE
                      None (Some "node_a") None true create_manager).

Definition after_second : Manager :=
  snd (create_context GlobalBridge.demo_wall sha256_hex12 L3_NODE shared_prompt [] PRIVATE
                      None (Some "node_b") None true after_first).

End Collision.

Lemma RecordId_eqb_refl k : RecordId_eqb k k = true.
Proof.
  unfold RecordId_eqb. rewrite String.eqb_refl, Z.eqb_refl.
  destruct (id_level k); reflexivity.
Qed.

Local Arguments RecordId_eqb : simpl never.

(** C10.  Two nodes are given the same prompt within one second: the two
    records get the same id, and the second replaces the first in the
    node-level layer.  The context visible to node_a, which held its record
    after the first call, holds no node-level record after the second; and
    [get_node_context] for node_a returns the record of node_b. *)
Theorem C10_same_prompt_same_second_overwrites (sha256_hex12 : string -> string) :
  map node_id
      (visible_L3 (fst (get_visible_context GlobalBridge.demo_wall "node_a" None None
                                            (after_first sha256_hex12))))
  = [Some "node_a"]
  /\ visible_L3 (fst (get_visible_context GlobalBridge.demo_wall "node_a" None None
                                          (after_second sha256_hex12)))
     = []
  /\ map node_id (fst (get_node_context GlobalBridge.demo_wall "node_a" (after_second sha256_hex12)))
     = [Some "node_b"]
  /\ List.length (layer_L3 (after_second sha256_hex12)) = 1.
Proof.
  unfold after_second, after_first, create_context, add_record, get_visible_context,
    get_node_context, get_context, get_record, with_default_ttl.
  repeat (progress (cbn; rewrite ?RecordId_eqb_refl)).
  repeat split.
Qed.

End ContextClaims.

(* ================================================================== *)
(** * A run in which every execution succeeds *)
(* ================================================================== *)

Module Completion.
Import Py GlobalBridge StoreLemmas TransitionLemmas Readiness DependencyClaims.

(** A result that [generate_prompt] can take in: it is false (and left out
    of the prompt) or [json.dumps] can encode it. *)
Definition json_safe (v : pyval) : bool := orb (negb (truthy v)) (json_ok v).

(** Every upstream reference names a registered node. *)
Definition references_resolve (ns : list ExecutionNode) : Prop :=
  forall i n u, find_node ns i = Some n -> In u (upstream_nodes n) ->
                find_node ns u <> None.

(** [lvl] gives every node its level: 0 for a node without upstream nodes,
    one more than the highest level among its upstream nodes otherwise.  A
    graph has such a function exactly when it is acyclic. *)
Definition is_level (lvl : string -> nat) (ns : list ExecutionNode) : Prop :=
  forall i n, find_node ns i = Some n ->
              lvl i = list_max (map (fun u => S (lvl u)) (upstream_nodes n)).

(** The number of levels, that is the number of nodes on a longest chain. *)
Definition depth (lvl : string -> nat) (ns : list ExecutionNode) : nat :=
  list_max (map (fun n => S (lvl (id n))) ns).

(** The graphs a run is started on. *)
Record well_formed (lvl : string -> nat) (ns : list ExecutionNode) : Prop := {
  wf_distinct : NoDup (map id ns);
  wf_resolve : references_resolve ns;
  wf_inverse : downstream_inverse ns;
  wf_forward : forward ns;
  wf_level : is_level lvl ns
}.

Lemma forward_graph ns ns' : graph_of ns = graph_of ns' -> forward ns -> forward ns'.
Proof.
  intros Hg H u un v vn Hu Hv Hin.
  destruct (graph_of_find ns' ns u un (eq_sym Hg) Hu) as [un0 [Hu0 Hs0]].
  destruct (graph_of_find ns' ns v vn (eq_sym Hg) Hv) as [vn0 [Hv0 Hs1]].
  unfold shape in Hs0, Hs1. injection Hs0 as _ _ Hdown. injection Hs1 as _ Hup _.
  rewrite <- Hdown. apply (H u un0 v vn0 Hu0 Hv0). rewrite Hup. exact Hin.
Qed.

Lemma find_graph_none ns ns' i :
  graph_of ns = graph_of ns' -> find_node ns i = None -> find_node ns' i = None.
Proof.
  intros Hg H. apply find_node_None. rewrite <- (graph_of_ids _ _ Hg).
  apply find_node_None. exact H.
Qed.

Lemma well_formed_graph lvl ns ns' :
  graph_of ns = graph_of ns' -> well_formed lvl ns -> well_formed lvl ns'.
Proof.
  intros Hg [Hd Hr Hi Hf Hl]. constructor.
  - rewrite <- (graph_of_ids _ _ Hg). exact Hd.
  - intros i n u Hn Hu Hnone.
    destruct (graph_of_find ns' ns i n (eq_sym Hg) Hn) as [n0 [Hn0 Hs]].
    unfold shape in Hs. injection Hs as _ Hup _.
    apply (Hr i n0 u Hn0); [rewrite Hup; exact Hu |].
    apply (find_graph_none ns' ns u (eq_sym Hg) Hnone).
  - apply (downstream_inverse_graph ns ns' Hg Hi).
  - apply (forward_graph ns ns' Hg Hf).
  - intros i n Hn.
    destruct (graph_of_find ns' ns i n (eq_sym Hg) Hn) as [n0 [Hn0 Hs]].
    unfold shape in Hs. injection Hs as _ Hup _.
    rewrite <- Hup. apply (Hl i n0 Hn0).
Qed.

(** ** Levels *)

Lemma list_max_attained l : l <> [] -> In (list_max l) l.
Proof.
  induction l as [| x l IH]; intros H; [contradiction |].
  change (list_max (x :: l)) with (Nat.max x (list_max l)).
  destruct l as [| y l].
  - left. change (list_max []) with 0. rewrite Nat.max_0_r. reflexivity.
  - destruct (Nat.max_spec x (list_max (y :: l))) as [[_ E] | [_ E]]; rewrite E.
    + right. apply IH. discriminate.
    + left. reflexivity.
Qed.

Lemma list_max_ge l x : In x l -> x <= list_max l.
Proof.
  induction l as [| y l IH]; intros H; [contradiction |].
  change (list_max (y :: l)) with (Nat.max y (list_max l)).
  destruct H as [-> | H]; [lia |]. specialize (IH H). lia.
Qed.

Section Levels.
Variable lvl : string -> nat.
Variable ns : list ExecutionNode.
Hypothesis Hwf : well_formed lvl ns.

Lemma level_above i n u :
  find_node ns i = Some n -> In u (upstream_nodes n) -> lvl u < lvl i.
Proof.
  intros Hn Hu. rewrite (wf_level lvl ns Hwf i n Hn).
  assert (H : S (lvl u) <= list_max (map (fun u => S (lvl u)) (upstream_nodes n))).
  { apply list_max_ge. apply (in_map (fun u => S (lvl u))). exact Hu. }
  lia.
Qed.

Lemma level_zero i n :
  find_node ns i = Some n -> (lvl i = 0 <-> upstream_nodes n = []).
Proof.
  intros Hn. rewrite (wf_level lvl ns Hwf i n Hn). split.
  - destruct (upstream_nodes n) as [| u us]; [reflexivity |].
    intros H. exfalso.
    change (Nat.max (S (lvl u)) (list_max (map (fun u => S (lvl u)) us)) = 0) in H.
    lia.
  - intros ->. reflexivity.
Qed.

Lemma level_step i n k :
  find_node ns i = Some n -> lvl i = S k ->
  exists u, In u (upstream_nodes n) /\ lvl u = k.
Proof.
  intros Hn Hk. pose proof (wf_level lvl ns Hwf i n Hn) as E.
  destruct (upstream_nodes n) as [| u0 us] eqn:Eu.
  - change (lvl i = 0) in E. lia.
  - assert (Hin : In (list_max (map (fun u => S (lvl u)) (u0 :: us)))
                     (map (fun u => S (lvl u)) (u0 :: us))).
    { apply list_max_attained. discriminate. }
    rewrite <- E, Hk in Hin. apply in_map_iff in Hin.
    destruct Hin as [u [Hu Hin]]. exists u. split; [exact Hin | lia].
Qed.

Lemma level_below_depth i n : find_node ns i = Some n -> lvl i < depth lvl ns.
Proof.
  intros Hn. unfold depth.
  assert (H : S (lvl (id n)) <= list_max (map (fun m => S (lvl (id m))) ns)).
  { apply list_max_ge. apply (in_map (fun m => S (lvl (id m)))).
    apply (find_node_In _ _ _ Hn). }
  rewrite (find_node_id _ _ _ Hn) in H. lia.
Qed.

(** Every level below the depth has a node. *)
Lemma level_inhabited j :
  j < depth lvl ns -> exists i n, find_node ns i = Some n /\ lvl i = j.
Proof.
  intros Hj.
  assert (Htop : exists i n, find_node ns i = Some n /\ S (lvl i) = depth lvl ns).
  { unfold depth in *.
    destruct ns as [| m rest] eqn:E; [change (j < 0) in Hj; lia |].
    rewrite <- E in *.
    assert (Hin : In (list_max (map (fun m => S (lvl (id m))) ns))
                     (map (fun m => S (lvl (id m))) ns)).
    { apply list_max_attained. rewrite E. discriminate. }
    apply in_map_iff in Hin. destruct Hin as [n [Hn Hin]].
    exists (id n), n. split; [| exact Hn].
    apply In_find_node; [apply (wf_distinct lvl ns Hwf) | exact Hin]. }
  destruct Htop as [i0 [n0 [Hn0 Htop]]].
  assert (Hdown : forall d i n, find_node ns i = Some n -> lvl i = j + d ->
                                exists i' n', find_node ns i' = Some n' /\ lvl i' = j).
  { induction d as [| d IH]; intros i n Hn Hl.
    - exists i, n. split; [exact Hn | lia].
    - destruct (level_step i n (j + d) Hn) as [u [Hu Hlu]]; [lia |].
      destruct (find_node ns u) as [un |] eqn:Eu.
      + apply (IH u un Eu Hlu).
      + exfalso. apply (wf_resolve lvl ns Hwf i n u Hn Hu). exact Eu. }
  apply (Hdown (lvl i0 - j) i0 n0 Hn0). lia.
Qed.

(** There are at least as many nodes as levels. *)
Lemma depth_le_length : depth lvl ns <= List.length ns.
Proof.
  assert (H : incl (seq 0 (depth lvl ns)) (map (fun n => lvl (id n)) ns)).
  { intros j Hj. apply in_seq in Hj.
    destruct (level_inhabited j) as [i [n [Hn Hl]]]; [lia |].
    apply in_map_iff. exists n. split.
    - rewrite (find_node_id _ _ _ Hn). exact Hl.
    - apply (find_node_In _ _ _ Hn). }
  apply NoDup_incl_length in H; [| apply seq_NoDup].
  rewrite length_seq, length_map in H. exact H.
Qed.

End Levels.

(** ** The prompt generator on encodable results *)

Lemma generate_prompt_succeeds ns node :
  (forall i n, find_node ns i = Some n -> json_safe (result n) = true) ->
  generate_prompt ns node <> None.
Proof.
  intros Hsafe. unfold generate_prompt, json_dumps.
  assert (E : json_ok (PList (upstream_results ns node)) = true).
  { simpl. unfold upstream_results. apply forallb_forall. intros v Hv.
    apply in_flat_map in Hv. destruct Hv as [u [_ Hv]].
    destruct (find_node ns u) as [un |] eqn:Eu; [| contradiction].
    destruct (truthy (result un)) eqn:Et; [| contradiction].
    destruct Hv as [<- | []]. simpl.
    specialize (Hsafe u un Eu). unfold json_safe in Hsafe. rewrite Et in Hsafe.
    simpl in Hsafe. rewrite Hsafe. reflexivity. }
  rewrite E. discriminate.
Qed.

(** ** The states of a run, level by level *)

Definition mem (i : string) (l : list string) : bool := existsb (String.eqb i) l.

Lemma mem_In i l : mem i l = true <-> In i l.
Proof. apply existsb_eqb_In. Qed.

Section AllSucceed.
Variable wall : nat -> Time.
Variable executor : ExecutionNode -> pyval + string.
Variable schedule : nat -> list string -> list string.
Variable lvl : string -> nat.
Variable dag : list ExecutionNode.

Hypothesis Hwf : well_formed lvl dag.
Hypothesis Hexec : forall n, exists r, executor n = inl r /\ json_safe r = true.
Hypothesis Hsched : forall pass ids, Permutation (schedule pass ids) ids.

(** What a run never changes: the graph, the generator, the listeners, and
    that the results can go into a prompt. *)
Definition env_ok (s : Scheduler) : Prop :=
  graph_of (nodes s) = graph_of dag
  /\ prompt_generator s = Some generate_prompt
  /\ (forall i n, find_node (nodes s) i = Some n ->
                  listeners_of (state_listeners s) i <> [])
  /\ (forall i n, find_node (nodes s) i = Some n -> json_safe (result n) = true).

(** Entering the pass that dispatches level [j]: the levels below are
    COMPLETED, level [j] is READY, the levels above are IDLE. *)
Definition at_round (j : nat) (ns : list ExecutionNode) : Prop :=
  forall i n, find_node ns i = Some n ->
    state n = if Nat.ltb (lvl i) j then COMPLETED
              else if Nat.eqb (lvl i) j then READY else IDLE.

(** Inside that pass: the tasks in [done] have finished, the other nodes of
    level [j] are EXECUTING; above, a node is READY when it passes the
    readiness test and IDLE otherwise, the ids in [pending] being those the
    running trigger has yet to look at. *)
Definition phase (j : nat) (done pending : list string)
           (ns : list ExecutionNode) : Prop :=
  forall i n, find_node ns i = Some n ->
    if Nat.ltb (lvl i) j then state n = COMPLETED
    else if Nat.eqb (lvl i) j then state n = (if mem i done then COMPLETED else EXECUTING)
    else (state n = READY /\ all_deps_completed ns n = true)
         \/ (state n = IDLE /\ (all_deps_completed ns n = false \/ In i pending)).

Lemma env_ok_wf s : env_ok s -> well_formed lvl (nodes s).
Proof.
  intros [Hg _]. apply (well_formed_graph lvl dag (nodes s)); [congruence | exact Hwf].
Qed.

(** Which nodes are COMPLETED inside a pass. *)
Lemma phase_completed j done pending ns u :
  phase j done pending ns ->
  (completed ns u
   <-> find_node ns u <> None /\ (lvl u < j \/ (lvl u = j /\ mem u done = true))).
Proof.
  intros Hp. unfold completed, state_of.
  destruct (find_node ns u) as [un |] eqn:Eu; simpl.
  - specialize (Hp u un Eu).
    destruct (Nat.ltb (lvl u) j) eqn:E1.
    + apply Nat.ltb_lt in E1. rewrite Hp. split; [| reflexivity].
      intros _. split; [discriminate | left; exact E1].
    + apply Nat.ltb_ge in E1. destruct (Nat.eqb (lvl u) j) eqn:E2.
      * apply Nat.eqb_eq in E2. rewrite Hp. destruct (mem u done).
        -- split; [| reflexivity]. intros _. split; [discriminate | right; tauto].
        -- split; [discriminate |]. intros [_ [H | [_ H]]]; [lia | discriminate].
      * apply Nat.eqb_neq in E2.
        split.
        -- intros H. injection H as H.
           destruct Hp as [[Hs _] | [Hs _]]; rewrite Hs in H; discriminate.
        -- intros [_ [H | [H _]]]; lia.
  - split; [discriminate |]. intros [H _]. contradiction.
Qed.

(** A node above the level being run, all of whose upstream nodes are
    COMPLETED, is on the next level. *)
Lemma ready_is_next_level j done pending ns i n :
  well_formed lvl ns -> phase j done pending ns ->
  find_node ns i = Some n -> j < lvl i ->
  all_deps_completed ns n = true -> lvl i = S j.
Proof.
  intros Hw Hp Hn Hj Hd.
  destruct (lvl i) as [| k] eqn:Ek; [lia |].
  destruct (level_step lvl ns Hw i n k Hn Ek) as [u [Hu Hlu]].
  pose proof (proj1 (all_deps_completed_iff ns n) Hd u Hu) as Hc.
  apply (phase_completed j done pending ns u Hp) in Hc.
  destruct Hc as [_ [H | [H _]]]; lia.
Qed.

Lemma phase_weaken j done pending pending' ns :
  incl pending pending' -> phase j done pending ns -> phase j done pending' ns.
Proof.
  intros Hincl Hp i n Hn. specialize (Hp i n Hn).
  destruct (Nat.ltb (lvl i) j); [exact Hp |]. destruct (Nat.eqb (lvl i) j); [exact Hp |].
  destruct Hp as [H | [Hs [H | H]]]; [left; exact H | right | right]; split; auto.
Qed.

(** ** Environment lemmas *)

Lemma env_ok_alter f i s :
  keeps_shape f ->
  (forall n, find_node (nodes s) i = Some n -> json_safe (result (f n)) = true) ->
  env_ok s -> env_ok (alter_node f i s).
Proof.
  intros Hf Hres (Hg & Hgen & Hl & Hr). unfold env_ok. simpl.
  split; [rewrite graph_of_alter by exact Hf; exact Hg |].
  split; [exact Hgen |]. split.
  - intros j n Hn. rewrite find_alter in Hn by exact Hf.
    destruct (String.eqb j i).
    + destruct (find_node (nodes s) j) as [n0 |] eqn:E; [| discriminate].
      apply (Hl j n0 E).
    + apply (Hl j n Hn).
  - intros j n Hn. rewrite find_alter in Hn by exact Hf.
    destruct (String.eqb j i) eqn:E.
    + apply String.eqb_eq in E. subst j.
      destruct (find_node (nodes s) i) as [n0 |] eqn:E0; [| discriminate].
      simpl in Hn. injection Hn as <-. apply Hres. reflexivity.
    + apply (Hr j n Hn).
Qed.

(** A scheduler that differs from [s] in its nodes only, where they were
    altered without touching graph or results. *)
Lemma env_ok_rewrite s s' f i :
  keeps_shape f -> (forall n, result (f n) = result n) ->
  nodes s' = alter f i (nodes s) ->
  prompt_generator s' = prompt_generator s ->
  state_listeners s' = state_listeners s ->
  env_ok s -> env_ok s'.
Proof.
  intros Hf Hres Hn Hg Hl Henv.
  assert (H : env_ok (alter_node f i s)).
  { apply env_ok_alter; [exact Hf | | exact Henv].
    intros n Hfind. rewrite Hres. destruct Henv as (_ & _ & _ & Hr).
    apply (Hr i n Hfind). }
  destruct H as (H1 & H2 & H3 & H4). unfold env_ok.
  rewrite Hn, Hg, Hl. simpl in *. tauto.
Qed.

Lemma env_ok_mark n st s : env_ok s -> env_ok (mark wall n st s).
Proof.
  apply (env_ok_rewrite s _ (stamped (wall (clock_reads s)) st) (id n)).
  - auto with shape.
  - intros m. apply result_stamped.
  - apply nodes_mark.
  - apply generator_mark.
  - apply listeners_mark.
Qed.

Lemma env_ok_promote text d s : env_ok s -> env_ok (promote wall text d s).
Proof.
  apply (env_ok_rewrite s _ (promoted text) d).
  - apply keeps_shape_promoted.
  - intros m. apply result_promoted.
  - apply nodes_promote.
  - apply generator_promote.
  - apply listeners_promote.
Qed.

Lemma env_ok_nested i st s :
  env_ok s -> env_ok (snd (update_state_nested wall i st s)).
Proof.
  rewrite update_state_nested_eq.
  destruct (find_node (nodes s) i); cbn [snd]; [apply env_ok_mark | tauto].
Qed.

(** ** Registration and seeding *)

Lemma listeners_of_add_same i cb ls : listeners_of (add_listener i cb ls) i <> [].
Proof.
  induction ls as [| [k cbs] ls IH]; simpl.
  - rewrite String.eqb_refl. discriminate.
  - destruct (String.eqb k i) eqn:E; simpl; rewrite E.
    + destruct cbs; discriminate.
    + exact IH.
Qed.

Lemma listeners_of_add_keeps i j cb ls :
  listeners_of ls j <> [] -> listeners_of (add_listener i cb ls) j <> [].
Proof.
  induction ls as [| [k cbs] ls IH]; simpl; [contradiction |].
  destruct (String.eqb k i) eqn:E; simpl.
  - destruct (String.eqb k j); [| tauto]. intros _. destruct cbs; discriminate.
  - destruct (String.eqb k j); [tauto | exact IH].
Qed.

Lemma listeners_register_nodes nodes0 s j :
  In j (map id nodes0) ->
  listeners_of (state_listeners (register_nodes nodes0 s)) j <> [].
Proof.
  unfold register_nodes.
  set (s1 := fold_left (fun acc node => register_node node acc) nodes0 s).
  clearbody s1. revert s1.
  assert (H : forall l s1,
             In j (map id l) \/ listeners_of (state_listeners s1) j <> [] ->
             listeners_of
               (state_listeners
                  (fold_left
                     (fun acc node =>
                        with_listeners
                          (add_listener (id node) OnStateChange (state_listeners acc)) acc)
                     l s1)) j <> []).
  { induction l as [| m l IH]; intros s1 Hj; simpl.
    - destruct Hj as [[] | Hj]. exact Hj.
    - apply IH. simpl in Hj. destruct Hj as [[Hj | Hj] | Hj].
      + right. simpl. rewrite Hj. apply listeners_of_add_same.
      + left. exact Hj.
      + right. simpl. apply listeners_of_add_keeps. exact Hj. }
  intros s1 Hj. apply H. left. exact Hj.
Qed.

Definition is_root (n : ExecutionNode) : bool :=
  match upstream_nodes n with [] => true | _ => false end.

(** The seeding loop sets READY exactly the registered nodes without
    upstream nodes. *)
Lemma seed_roots_exact roots :
  incl roots dag ->
  forall processed s,
    env_ok s ->
    (forall i n, find_node (nodes s) i = Some n ->
                 state n = if andb (is_root n) (mem i processed) then READY else IDLE) ->
    env_ok (seed_roots wall roots s)
    /\ (forall i n, find_node (nodes (seed_roots wall roots s)) i = Some n ->
                    state n = if andb (is_root n)
                                      (orb (mem i processed) (mem i (map id roots)))
                              then READY else IDLE).
Proof.
  unfold seed_roots.
  induction roots as [| m roots IH]; intros Hincl processed s Henv Hst; simpl.
  - split; [exact Henv |]. intros i n Hn. rewrite orb_false_r. apply Hst. exact Hn.
  - assert (Hincl' : incl roots dag) by (intros x Hx; apply Hincl; right; exact Hx).
    assert (Hm : In m dag) by (apply Hincl; left; reflexivity).
    assert (Hmdag : find_node dag (id m) = Some m).
    { apply In_find_node; [apply (wf_distinct lvl dag Hwf) | exact Hm]. }
    destruct Henv as (Hg & Hrest).
    assert (Hshape : forall n, find_node (nodes s) (id m) = Some n ->
                               upstream_nodes n = upstream_nodes m).
    { intros n Hn.
      destruct (graph_of_find dag (nodes s) (id m) m (eq_sym Hg) Hmdag) as [n1 [Hn1 Hs1]].
      rewrite Hn in Hn1. injection Hn1 as <-. unfold shape in Hs1. congruence. }
    assert (Hmem : forall i, orb (mem i (id m :: processed)) (mem i (map id roots))
                             = orb (mem i processed) (mem i (id m :: map id roots))).
    { intros i. unfold mem. simpl.
      destruct (String.eqb i (id m)); simpl; [rewrite orb_true_r |]; reflexivity. }
    set (s1 := match upstream_nodes m with
               | [] => snd (update_state wall (id m) READY s)
               | _ :: _ => s
               end).
    assert (H1 : env_ok s1
                 /\ forall i n, find_node (nodes s1) i = Some n ->
                      state n = if andb (is_root n) (mem i (id m :: processed))
                                then READY else IDLE).
    { unfold s1. destruct (upstream_nodes m) as [| u0 us] eqn:Eup.
      - rewrite update_state_other by discriminate. split.
        + apply env_ok_nested. split; assumption.
        + intros i n Hn. rewrite nodes_update_state_nested in Hn.
          rewrite find_alter in Hn by auto with shape.
          unfold mem. simpl. destruct (String.eqb i (id m)) eqn:E.
          * apply String.eqb_eq in E. subst i.
            destruct (find_node (nodes s) (id m)) as [n0 |] eqn:E0; [| discriminate].
            simpl in Hn. injection Hn as <-. simpl.
            unfold is_root. simpl. rewrite (Hshape n0 eq_refl). reflexivity.
          * simpl. apply Hst. exact Hn.
      - split; [split; assumption |].
        intros i n Hn. unfold mem. simpl. destruct (String.eqb i (id m)) eqn:E.
        + apply String.eqb_eq in E. subst i. simpl.
          unfold is_root. rewrite (Hshape n Hn). simpl.
          rewrite (Hst _ n Hn). unfold is_root. rewrite (Hshape n Hn). reflexivity.
        + simpl. apply Hst. exact Hn. }
    destruct H1 as [Henv1 Hst1].
    destruct (IH Hincl' (id m :: processed) s1 Henv1 Hst1) as [Henv2 Hst2].
    split; [exact Henv2 |].
    intros i n Hn. rewrite <- Hmem. apply Hst2. exact Hn.
Qed.

(** The state in which the loop is entered. *)
Lemma prepare_at_round_0 s0 :
  nodes (register_nodes dag s0) = dag ->
  Forall (fun n => state n = IDLE /\ json_safe (result n) = true) dag ->
  env_ok (prepare wall dag s0) /\ at_round 0 (nodes (prepare wall dag s0)).
Proof.
  intros Hreg Hfresh. rewrite Forall_forall in Hfresh. unfold prepare.
  set (s1 := with_generator (Some generate_prompt) (register_nodes dag s0)).
  assert (Hn1 : nodes s1 = dag) by exact Hreg.
  assert (Henv1 : env_ok s1).
  { unfold env_ok. rewrite Hn1. split; [reflexivity |]. split; [reflexivity |]. split.
    - intros i n Hn. unfold s1. simpl. apply listeners_register_nodes.
      rewrite <- (find_node_id _ _ _ Hn). apply in_map. apply (find_node_In _ _ _ Hn).
    - intros i n Hn. apply Hfresh. apply (find_node_In _ _ _ Hn). }
  destruct (seed_roots_exact dag (incl_refl dag) [] s1 Henv1) as [Henv Hst].
  - intros i n Hn. rewrite andb_false_r. rewrite Hn1 in Hn.
    apply Hfresh. apply (find_node_In _ _ _ Hn).
  - split; [exact Henv |]. intros i n Hn. rewrite (Hst i n Hn). simpl.
    assert (Hreg' : mem i (map id dag) = true).
    { apply mem_In. destruct Henv as [Hg _].
      rewrite <- (graph_of_ids _ _ Hg), <- (find_node_id _ _ _ Hn).
      apply in_map. apply (find_node_In _ _ _ Hn). }
    rewrite Hreg', andb_true_r.
    pose proof (level_zero lvl _ (env_ok_wf _ Henv) i n Hn) as Hz.
    unfold is_root. destruct (upstream_nodes n) as [| u us].
    + rewrite (proj2 Hz eq_refl). reflexivity.
    + destruct (lvl i) as [| k] eqn:E; [| reflexivity].
      destruct Hz as [Hz _]. specialize (Hz eq_refl). discriminate.
Qed.

(** ** Dispatch *)

Lemma dispatch_cons i ids s :
  dispatch wall (i :: ids) s = dispatch wall ids (snd (update_state wall i EXECUTING s)).
Proof. reflexivity. Qed.

Lemma dispatch_effect ids :
  forall s, env_ok s ->
    env_ok (dispatch wall ids s)
    /\ forall i n', find_node (nodes (dispatch wall ids s)) i = Some n' ->
         exists n, find_node (nodes s) i = Some n
                   /\ state n' = if mem i ids then EXECUTING else state n.
Proof.
  induction ids as [| i0 ids IH]; intros s Henv.
  - split; [exact Henv |]. intros i n' Hn. exists n'. split; [exact Hn | reflexivity].
  - rewrite dispatch_cons, update_state_other by discriminate.
    set (s1 := snd (update_state_nested wall i0 EXECUTING s)).
    assert (Henv1 : env_ok s1) by (apply env_ok_nested; exact Henv).
    destruct (IH s1 Henv1) as [Henv2 Hst]. split; [exact Henv2 |].
    intros i n' Hn. destruct (Hst i n' Hn) as [n1 [Hn1 Hs1]].
    unfold s1 in Hn1. rewrite nodes_update_state_nested in Hn1.
    rewrite find_alter in Hn1 by auto with shape.
    unfold mem. simpl. fold (mem i ids).
    destruct (String.eqb i i0) eqn:E.
    + destruct (find_node (nodes s) i) as [n |] eqn:En; [| discriminate].
      cbn [option_map] in Hn1. injection Hn1 as <-. exists n. split; [reflexivity |].
      cbn [orb]. rewrite Hs1. destruct (mem i ids); reflexivity.
    + exists n1. split; [exact Hn1 | exact Hs1].
Qed.

(** The ids the loop collects are those of the registered nodes of the
    level that is READY. *)
Lemma ready_ids_spec j ns :
  NoDup (map id ns) -> at_round j ns ->
  forall i, In i (map id (filter is_ready ns))
            <-> find_node ns i <> None /\ lvl i = j.
Proof.
  intros Hnd Hround i. split.
  - intros Hin. apply in_map_iff in Hin. destruct Hin as [n [<- Hn]].
    apply filter_In in Hn. destruct Hn as [Hn Hr].
    pose proof (In_find_node ns n Hnd Hn) as Hf.
    split; [congruence |].
    specialize (Hround (id n) n Hf). unfold is_ready in Hr.
    apply NodeState_eqb_eq in Hr. rewrite Hr in Hround.
    destruct (Nat.ltb (lvl (id n)) j); [discriminate |].
    destruct (Nat.eqb (lvl (id n)) j) eqn:E; [| discriminate].
    apply Nat.eqb_eq. exact E.
  - intros [Hreg Hl]. destruct (find_node ns i) as [n |] eqn:En; [| contradiction].
    apply in_map_iff. exists n. split; [apply (find_node_id _ _ _ En) |].
    apply filter_In. split; [apply (find_node_In _ _ _ En) |].
    specialize (Hround i n En). rewrite Hl, Nat.ltb_irrefl, Nat.eqb_refl in Hround.
    unfold is_ready. rewrite Hround. reflexivity.
Qed.

(** Above a level none of whose nodes, and none above, is COMPLETED, no node
    passes the readiness test. *)
Lemma nothing_ready_above j ns i n :
  well_formed lvl ns ->
  (forall u, j <= lvl u -> ~ completed ns u) ->
  find_node ns i = Some n -> j < lvl i ->
  all_deps_completed ns n = false.
Proof.
  intros Hw Hnc Hn Hj.
  destruct (all_deps_completed ns n) eqn:E; [| reflexivity]. exfalso.
  destruct (lvl i) as [| k] eqn:Ek; [lia |].
  destruct (level_step lvl ns Hw i n k Hn Ek) as [u [Hu Hlu]].
  apply (Hnc u); [lia |].
  apply (proj1 (all_deps_completed_iff ns n) E u Hu).
Qed.

Lemma dispatch_phase j s :
  env_ok s -> at_round j (nodes s) ->
  env_ok (dispatch wall (map id (filter is_ready (nodes s))) s)
  /\ phase j [] []
            (nodes (dispatch wall (map id (filter is_ready (nodes s))) s)).
Proof.
  intros Henv Hround.
  set (ids := map id (filter is_ready (nodes s))).
  destruct (dispatch_effect ids s Henv) as [Henv' Hst].
  split; [exact Henv' |].
  pose proof (env_ok_wf _ Henv) as Hw. pose proof (env_ok_wf _ Henv') as Hw'.
  assert (Hids : forall i, mem i ids = true <-> find_node (nodes s) i <> None /\ lvl i = j).
  { intros i. rewrite mem_In. apply ready_ids_spec; [| exact Hround].
    apply (wf_distinct lvl _ Hw). }
  assert (Hstates : forall i n', find_node (nodes (dispatch wall ids s)) i = Some n' ->
                      state n' = if Nat.ltb (lvl i) j then COMPLETED
                                 else if Nat.eqb (lvl i) j then EXECUTING else IDLE).
  { intros i n' Hn'. destruct (Hst i n' Hn') as [n [Hn Hs]].
    rewrite Hs, (Hround i n Hn).
    destruct (mem i ids) eqn:Em.
    - apply Hids in Em. destruct Em as [_ Em].
      rewrite Em, Nat.ltb_irrefl, Nat.eqb_refl. reflexivity.
    - destruct (Nat.ltb (lvl i) j); [reflexivity |].
      destruct (Nat.eqb (lvl i) j) eqn:E; [| reflexivity].
      apply Nat.eqb_eq in E.
      assert (Hm : mem i ids = true) by (apply Hids; split; [congruence | exact E]).
      congruence. }
  intros i n' Hn'. rewrite (Hstates i n' Hn').
  destruct (Nat.ltb (lvl i) j) eqn:E1; [reflexivity |].
  destruct (Nat.eqb (lvl i) j) eqn:E2; [reflexivity |].
  right. split; [reflexivity |]. left.
  apply Nat.ltb_ge in E1. apply Nat.eqb_neq in E2.
  apply (nothing_ready_above j _ i n' Hw'); [| exact Hn' | lia].
  intros u Hu Hc. unfold completed in Hc. apply state_of_find in Hc.
  destruct Hc as [un [Hun Hsu]]. rewrite (Hstates u un Hun) in Hsu.
  destruct (Nat.ltb (lvl u) j) eqn:E3; [apply Nat.ltb_lt in E3; lia |].
  destruct (Nat.eqb (lvl u) j); discriminate.
Qed.

(** The tasks read their start times: the nodes are not touched. *)
Lemma start_tasks_frame ids s :
  nodes (snd (start_tasks wall ids s)) = nodes s
  /\ prompt_generator (snd (start_tasks wall ids s)) = prompt_generator s
  /\ state_listeners (snd (start_tasks wall ids s)) = state_listeners s.
Proof.
  unfold start_tasks.
  assert (H : forall l (acc : list (string * Time) * Scheduler),
             let r := fold_left
                        (fun (acc : list (string * Time) * Scheduler) (i : string) =>
                           let '(starts, s') := acc in
                           (starts ++ [(i, wall (clock_reads s'))], tick s'))
                        l acc in
             nodes (snd r) = nodes (snd acc)
             /\ prompt_generator (snd r) = prompt_generator (snd acc)
             /\ state_listeners (snd r) = state_listeners (snd acc)).
  { induction l as [| i l IH]; intros [starts s']; simpl; [tauto |].
    destruct (IH (starts ++ [(i, wall (clock_reads s'))], tick s')) as (H1 & H2 & H3).
    simpl in H1, H2, H3. rewrite H1, H2, H3. tauto. }
  apply (H ids ([], s)).
Qed.

Lemma env_ok_same_nodes s s' :
  nodes s' = nodes s -> prompt_generator s' = prompt_generator s ->
  state_listeners s' = state_listeners s -> env_ok s -> env_ok s'.
Proof.
  intros Hn Hg Hl (H1 & H2 & H3 & H4). unfold env_ok. rewrite Hn, Hg, Hl. tauto.
Qed.

(** ** The trigger inside a pass *)

(** A write to a node that keeps its state keeps the phase. *)
Lemma phase_same_states j done pending ns ns' :
  graph_of ns' = graph_of ns ->
  (forall i, state_of ns' i = state_of ns i) ->
  phase j done pending ns -> phase j done pending ns'.
Proof.
  intros Hg Hst Hp i n' Hn'.
  destruct (graph_of_find ns' ns i n' Hg Hn') as [n [Hn Hsh]].
  assert (Hs : state n' = state n).
  { pose proof (Hst i) as E. unfold state_of in E. rewrite Hn', Hn in E.
    simpl in E. congruence. }
  assert (Hd : all_deps_completed ns' n' = all_deps_completed ns n).
  { apply all_deps_completed_ext.
    - unfold shape in Hsh. congruence.
    - intros u _. unfold completed. rewrite Hst. tauto. }
  specialize (Hp i n Hn). rewrite Hs, Hd. exact Hp.
Qed.

Lemma trigger_phase j done downs s :
  (forall d dn, In d downs -> find_node dag d = Some dn -> j < lvl d) ->
  env_ok s -> phase j done downs (nodes s) ->
  (env_ok (fst (trigger_loop wall downs s))
   /\ phase j done [] (nodes (fst (trigger_loop wall downs s))))
  /\ snd (trigger_loop wall downs s) = false.
Proof.
  intros Hdowns Henv Hphase.
  destruct (trigger_loop_total wall
              (fun rest s1 => incl rest downs /\ env_ok s1 /\ phase j done rest (nodes s1)))
    with (ds := downs) (s := s) as [(_ & H1 & H2) H3].
  - (* an id that is not registered *)
    intros d rest s1 (Hi & He & Hp) Hnone.
    split; [intros x Hx; apply Hi; right; exact Hx |]. split; [exact He |].
    intros i n Hn. specialize (Hp i n Hn).
    destruct (Nat.ltb (lvl i) j); [exact Hp |]. destruct (Nat.eqb (lvl i) j); [exact Hp |].
    destruct Hp as [Hp | [Hs [Hp | [<- | Hp]]]]; auto.
    congruence.
  - (* a node that fails the test *)
    intros d rest s1 dn (Hi & He & Hp) Hd Hfalse.
    split; [intros x Hx; apply Hi; right; exact Hx |]. split; [exact He |].
    intros i n Hn. specialize (Hp i n Hn).
    destruct (Nat.ltb (lvl i) j); [exact Hp |]. destruct (Nat.eqb (lvl i) j); [exact Hp |].
    destruct Hp as [Hp | [Hs [Hp | [<- | Hp]]]]; auto.
    rewrite Hn in Hd. injection Hd as <-. auto.
  - (* a node that passes it *)
    intros d rest s1 dn text (Hi & He & Hp) Hd Htrue.
    split; [intros x Hx; apply Hi; right; exact Hx |].
    split; [apply env_ok_promote; exact He |].
    rewrite nodes_promote.
    assert (Hlevel : j < lvl d).
    { destruct He as [Hg _].
      destruct (graph_of_find (nodes s1) dag d dn Hg Hd) as [dn0 [Hdn0 _]].
      apply (Hdowns d dn0); [apply Hi; left; reflexivity | exact Hdn0]. }
    assert (Hnotc : state_of (nodes s1) d <> Some COMPLETED).
    { unfold state_of. rewrite Hd. simpl. pose proof (Hp d dn Hd) as H.
      assert (E1 : Nat.ltb (lvl d) j = false) by (apply Nat.ltb_ge; lia).
      assert (E2 : Nat.eqb (lvl d) j = false) by (apply Nat.eqb_neq; lia).
      rewrite E1, E2 in H.
      destruct H as [[H _] | [H _]]; rewrite H; discriminate. }
    assert (Hneutral : forall m m', upstream_nodes m = upstream_nodes m' ->
              all_deps_completed (alter (promoted text) d (nodes s1)) m
              = all_deps_completed (nodes s1) m').
    { intros m m' Hup. apply all_deps_completed_ext; [exact Hup |].
      intros u _. apply completed_alter_neutral.
      - apply keeps_shape_promoted.
      - intros x. rewrite state_promoted. discriminate.
      - exact Hnotc. }
    intros i n' Hn'. rewrite find_alter in Hn' by apply keeps_shape_promoted.
    destruct (String.eqb i d) eqn:E.
    + apply String.eqb_eq in E. subst i. rewrite Hd in Hn'. simpl in Hn'.
      injection Hn' as <-.
      assert (E1 : Nat.ltb (lvl d) j = false) by (apply Nat.ltb_ge; lia).
      assert (E2 : Nat.eqb (lvl d) j = false) by (apply Nat.eqb_neq; lia).
      rewrite E1, E2. left. split; [reflexivity |].
      rewrite (Hneutral (promoted text dn) dn); [exact Htrue |].
      pose proof (keeps_shape_promoted text dn) as Hsh. unfold shape in Hsh. congruence.
    + specialize (Hp i n' Hn'). rewrite (Hneutral n' n' eq_refl).
      destruct (Nat.ltb (lvl i) j); [exact Hp |]. destruct (Nat.eqb (lvl i) j); [exact Hp |].
      destruct Hp as [Hp | [Hs [Hp | [Hp | Hp]]]]; auto.
      apply String.eqb_neq in E. congruence.
  - (* the generator does not raise *)
    intros d rest s1 dn g (_ & He & _) Hd Hg.
    destruct He as (_ & Hgen & _ & Hres). rewrite Hgen in Hg. injection Hg as <-.
    apply generate_prompt_succeeds. exact Hres.
  - split; [apply incl_refl |]. split; assumption.
  - split; [split |]; assumption.
Qed.

(** ** A task that finishes *)

(** The listeners of a completion: the first one runs the trigger on a
    scheduler where [P] holds and leaves [Q]; every later one finds [Q],
    hence [P], and leaves [Q] again.  No callback raises. *)
Lemma notify_completed_run (P Q : Scheduler -> Prop) i n old cbs s0 :
  cbs <> [] ->
  (forall s1, P s1 -> exists cn, find_node (nodes s1) i = Some cn
                                 /\ downstream_nodes cn = downstream_nodes n) ->
  (forall s1, P s1 -> Q (fst (trigger_loop wall (downstream_nodes n) s1))
                      /\ snd (trigger_loop wall (downstream_nodes n) s1) = false) ->
  (forall s1, Q s1 -> P s1) ->
  P s0 -> Q (notify_listeners (on_state_change wall i old COMPLETED) cbs s0).
Proof.
  intros Hne Hfind Htrig Hweak HP. unfold notify_listeners.
  set (F := fun (acc : Scheduler) (cb : Callback) =>
              match cb with
              | OnStateChange =>
                  let '(s', raised) := on_state_change wall i old COMPLETED acc in
                  if raised then logged ListenerFailed s' else s'
              end).
  assert (Hstep : forall s1, P s1 -> Q (F s1 OnStateChange)).
  { intros s1 H1. unfold F. simpl. unfold trigger_downstream_nodes.
    destruct (Hfind s1 H1) as [cn [Hcn Hd]]. rewrite Hcn, Hd.
    destruct (Htrig s1 H1) as [HQ Hr].
    destruct (trigger_loop wall (downstream_nodes n) s1) as [s' raised].
    simpl in HQ, Hr. subst raised. exact HQ. }
  assert (Hrest : forall l s1, Q s1 -> Q (fold_left F l s1)).
  { induction l as [| [] l IH]; intros s1 H1; [exact H1 |].
    change (Q (fold_left F l (F s1 OnStateChange))).
    apply IH, Hstep, Hweak, H1. }
  destruct cbs as [| [] cbs]; [contradiction |].
  change (Q (fold_left F cbs (F s0 OnStateChange))).
  apply Hrest, Hstep, HP.
Qed.

Lemma mem_cons_same i l : mem i (i :: l) = true.
Proof. unfold mem. simpl. rewrite String.eqb_refl. reflexivity. Qed.

Lemma mem_cons_other i k l : i <> k -> mem i (k :: l) = mem i l.
Proof.
  intros H. unfold mem. simpl. apply String.eqb_neq in H. rewrite H. reflexivity.
Qed.

(** A node that passes the readiness test once [i] is COMPLETED, and failed
    it before, has [i] among its upstream nodes. *)
Lemma became_ready ns ns' i m :
  (forall u, u <> i -> completed ns' u -> completed ns u) ->
  all_deps_completed ns m = false -> all_deps_completed ns' m = true ->
  In i (upstream_nodes m).
Proof.
  intros Hsame Hf Ht.
  destruct (in_dec string_dec i (upstream_nodes m)) as [H | H]; [exact H |].
  exfalso. assert (E : all_deps_completed ns m = true).
  { apply all_deps_completed_iff. intros u Hu. apply Hsame.
    - intros ->. contradiction.
    - apply (proj1 (all_deps_completed_iff ns' m) Ht u Hu). }
  congruence.
Qed.

Lemma completed_alter_mono g i ns u :
  keeps_shape g -> (forall n, state (g n) = COMPLETED) ->
  completed ns u -> completed (alter g i ns) u.
Proof.
  intros Hg Hst. unfold completed. rewrite (state_of_alter g i u ns Hg).
  destruct (String.eqb u i); [| tauto].
  unfold state_of. destruct (find_node ns u); simpl; [| discriminate].
  intros _. rewrite Hst. reflexivity.
Qed.

Lemma env_ok_tick s : env_ok s -> env_ok (tick s).
Proof. apply env_ok_same_nodes; reflexivity. Qed.

(** [update_state(node.id, COMPLETED)] on a task of the level being run,
    after the write [f] of its result. *)
Lemma complete_phase j done i n f s :
  keeps_shape f -> (forall m, state (f m) = state m) ->
  (forall m, json_safe (result (f m)) = true) ->
  env_ok s -> phase j done [] (nodes s) ->
  find_node (nodes s) i = Some n -> lvl i = j -> mem i done = false ->
  env_ok (snd (update_state wall i COMPLETED (alter_node f i (tick s))))
  /\ phase j (i :: done) []
            (nodes (snd (update_state wall i COMPLETED (alter_node f i (tick s))))).
Proof.
  intros Hf Hfs Hfr Henv Hphase Hn Hl Hm.
  set (s1 := alter_node f i (tick s)).
  assert (Hnodes1 : nodes s1 = alter f i (nodes s)) by reflexivity.
  assert (Henv1 : env_ok s1).
  { apply env_ok_alter; [exact Hf | intros m _; apply Hfr | apply env_ok_tick, Henv]. }
  assert (Hphase1 : phase j done [] (nodes s1)).
  { apply (phase_same_states j done [] (nodes s)); [| | exact Hphase].
    - rewrite Hnodes1. apply graph_of_alter, Hf.
    - intros k. rewrite Hnodes1, (state_of_alter f i k (nodes s) Hf).
      destruct (String.eqb k i); [| reflexivity].
      unfold state_of. destruct (find_node (nodes s) k); simpl; [| reflexivity].
      rewrite Hfs. reflexivity. }
  assert (Hn1 : find_node (nodes s1) i = Some (f n)).
  { rewrite Hnodes1, find_alter by exact Hf. rewrite String.eqb_refl, Hn. reflexivity. }
  assert (Hid : id (f n) = i) by apply (find_node_id _ _ _ Hn1).
  pose proof (env_ok_wf _ Henv1) as Hw1.
  unfold update_state, update_state_with. rewrite Hn1. cbn [snd].
  set (s2 := mark wall (f n) COMPLETED s1).
  assert (Hnodes2 : nodes s2 = alter (stamped (wall (clock_reads s1)) COMPLETED) i (nodes s1)).
  { unfold s2. rewrite nodes_mark, Hid. reflexivity. }
  assert (Henv2 : env_ok s2) by (apply env_ok_mark, Henv1).
  assert (Hn2 : find_node (nodes s2) i
                = Some (stamped (wall (clock_reads s1)) COMPLETED (f n))).
  { rewrite Hnodes2, find_alter by auto with shape.
    rewrite String.eqb_refl, Hn1. reflexivity. }
  apply (notify_completed_run
           (fun s' => env_ok s' /\ phase j (i :: done) (downstream_nodes (f n)) (nodes s'))
           (fun s' => env_ok s' /\ phase j (i :: done) [] (nodes s'))
           i (f n)).
  - destruct Henv2 as (_ & _ & Hls & _). apply (Hls i _ Hn2).
  - intros s' [[Hg' _] _]. destruct Henv1 as [Hg1 _].
    destruct (graph_of_find (nodes s1) (nodes s') i (f n)) as [cn [Hcn Hsh]];
      [congruence | exact Hn1 |].
    exists cn. split; [exact Hcn |]. unfold shape in Hsh. congruence.
  - intros s' [He' Hp']. apply trigger_phase; [| exact He' | exact Hp'].
    intros d dn Hd Hdn. destruct Henv1 as [Hg1 _].
    destruct (graph_of_find (nodes s1) dag i (f n) Hg1 Hn1) as [n0 [Hn0 Hsh]].
    assert (Hdown : downstream_nodes n0 = downstream_nodes (f n)).
    { unfold shape in Hsh. congruence. }
    rewrite <- Hl. apply (level_above lvl dag Hwf d dn i Hdn).
    apply (wf_inverse lvl dag Hwf i n0 d dn Hn0); [rewrite Hdown; exact Hd | exact Hdn].
  - intros s' [He' Hp']. split; [exact He' |].
    apply (phase_weaken j (i :: done) []); [intros x [] | exact Hp'].
  - split; [exact Henv2 |].
    assert (Hmono : forall u, completed (nodes s1) u -> completed (nodes s2) u).
    { intros u. rewrite Hnodes2. apply completed_alter_mono; [auto with shape |].
      intros m. apply state_stamped. }
    assert (Hsame : forall u, u <> i -> completed (nodes s2) u -> completed (nodes s1) u).
    { intros u Hu. unfold completed.
      rewrite Hnodes2, state_of_alter by auto with shape.
      apply String.eqb_neq in Hu. rewrite Hu. tauto. }
    intros k m Hk.
    destruct (String.eqb k i) eqn:E.
    + apply String.eqb_eq in E. subst k.
      assert (Em : m = stamped (wall (clock_reads s1)) COMPLETED (f n)) by congruence.
      rewrite Hl, Nat.ltb_irrefl, Nat.eqb_refl, mem_cons_same, Em.
      apply state_stamped.
    + assert (Hk1 : find_node (nodes s1) k = Some m).
      { rewrite Hnodes2, find_alter in Hk by auto with shape.
        rewrite E in Hk. exact Hk. }
      apply String.eqb_neq in E. specialize (Hphase1 k m Hk1).
      destruct (Nat.ltb (lvl k) j); [exact Hphase1 |].
      destruct (Nat.eqb (lvl k) j).
      { rewrite mem_cons_other by exact E. exact Hphase1. }
      destruct Hphase1 as [[Hs Hd] | [Hs [Hd | []]]].
      * left. split; [exact Hs |]. apply all_deps_completed_iff.
        intros u Hu. apply Hmono.
        apply (proj1 (all_deps_completed_iff (nodes s1) m) Hd u Hu).
      * right. split; [exact Hs |].
        destruct (all_deps_completed (nodes s2) m) eqn:E2; [right | left; reflexivity].
        apply (wf_forward lvl _ Hw1 i (f n) k m Hn1 Hk1).
        apply (became_ready (nodes s1) (nodes s2) i m Hsame Hd E2).
Qed.

Lemma finish_phase j done starts i n s :
  env_ok s -> phase j done [] (nodes s) ->
  find_node (nodes s) i = Some n -> lvl i = j -> mem i done = false ->
  env_ok (finish_node wall executor starts i s)
  /\ phase j (i :: done) [] (nodes (finish_node wall executor starts i s)).
Proof.
  intros Henv Hphase Hn Hl Hm. unfold finish_node. rewrite Hn.
  destruct (Hexec n) as [r [Hr Hsafe]]. rewrite Hr. cbv zeta.
  apply (complete_phase j done i n); try assumption.
  - intros m. reflexivity.
  - intros m. reflexivity.
  - intros m. exact Hsafe.
Qed.

(** ** A pass of the loop *)

Lemma registered_in_run s i :
  env_ok s -> (find_node (nodes s) i <> None <-> find_node dag i <> None).
Proof.
  intros [Hg _]. split; intros H Hnone; apply H.
  - apply (find_graph_none dag (nodes s) i (eq_sym Hg) Hnone).
  - apply (find_graph_none (nodes s) dag i Hg Hnone).
Qed.

(** The tasks of a gather finish one after the other, in any order. *)
Lemma finish_all j starts order :
  forall done s,
    NoDup order ->
    (forall i, In i order -> find_node dag i <> None /\ lvl i = j /\ mem i done = false) ->
    env_ok s -> phase j done [] (nodes s) ->
    env_ok (fold_left (fun acc i => finish_node wall executor starts i acc) order s)
    /\ phase j (rev order ++ done) []
              (nodes (fold_left (fun acc i => finish_node wall executor starts i acc)
                                order s)).
Proof.
  induction order as [| i order IH]; intros done s Hnd Hall Henv Hp.
  - simpl. split; assumption.
  - apply NoDup_cons_iff in Hnd. destruct Hnd as [Hni Hnd].
    destruct (Hall i (or_introl eq_refl)) as (Hreg & Hl & Hm).
    apply (registered_in_run s i Henv) in Hreg.
    destruct (find_node (nodes s) i) as [n |] eqn:En; [| contradiction].
    destruct (finish_phase j done starts i n s Henv Hp En Hl Hm) as [He Hp'].
    cbn [fold_left rev]. rewrite <- app_assoc. cbn [app].
    apply IH; try assumption.
    intros k Hk. destruct (Hall k (or_intror Hk)) as (Hreg' & Hl' & Hm').
    split; [exact Hreg' |]. split; [exact Hl' |].
    rewrite mem_cons_other; [exact Hm' |]. intros ->. contradiction.
Qed.

(** When every task of the level has finished, the next level is READY. *)
Lemma phase_round_done j done ns :
  well_formed lvl ns ->
  (forall i n, find_node ns i = Some n -> lvl i = j -> mem i done = true) ->
  phase j done [] ns -> at_round (S j) ns.
Proof.
  intros Hw Hall Hp i n Hn. pose proof (Hp i n Hn) as H.
  destruct (Nat.ltb (lvl i) j) eqn:E1.
  - apply Nat.ltb_lt in E1.
    assert (E : Nat.ltb (lvl i) (S j) = true) by (apply Nat.ltb_lt; lia).
    rewrite E. exact H.
  - apply Nat.ltb_ge in E1. destruct (Nat.eqb (lvl i) j) eqn:E2.
    + apply Nat.eqb_eq in E2. rewrite (Hall i n Hn E2) in H.
      assert (E : Nat.ltb (lvl i) (S j) = true) by (apply Nat.ltb_lt; lia).
      rewrite E. exact H.
    + apply Nat.eqb_neq in E2.
      assert (E : Nat.ltb (lvl i) (S j) = false) by (apply Nat.ltb_ge; lia).
      rewrite E. destruct (Nat.eqb (lvl i) (S j)) eqn:E3.
      * apply Nat.eqb_eq in E3.
        destruct H as [[Hs _] | [Hs [Hd | []]]]; [exact Hs |]. exfalso.
        assert (Ht : all_deps_completed ns n = true).
        { apply all_deps_completed_iff. intros u Hu.
          apply (phase_completed j done [] ns u Hp).
          pose proof (wf_resolve lvl ns Hw i n u Hn Hu) as Hreg.
          split; [exact Hreg |].
          pose proof (level_above lvl ns Hw i n u Hn Hu) as Hlt.
          destruct (find_node ns u) as [un |] eqn:Eu; [| contradiction].
          destruct (Nat.eq_dec (lvl u) j) as [Ej | Ej]; [| left; lia].
          right. split; [exact Ej |]. apply (Hall u un Eu Ej). }
        congruence.
      * apply Nat.eqb_neq in E3.
        destruct H as [[Hs Hd] | [Hs _]]; [| exact Hs]. exfalso.
        apply E3. apply (ready_is_next_level j done [] ns i n Hw Hp Hn); [lia | exact Hd].
Qed.

(** The ids of the READY nodes are distinct when the ids of the nodes are. *)
Lemma ready_ids_distinct ns :
  NoDup (map id ns) -> NoDup (map id (filter is_ready ns)).
Proof.
  induction ns as [| m ns IH]; simpl; intros Hnd; [constructor |].
  apply NoDup_cons_iff in Hnd. destruct Hnd as [Hfresh Hrest].
  destruct (is_ready m); simpl; [| auto].
  constructor; [| auto].
  intros Hin. apply Hfresh. apply in_map_iff in Hin. destruct Hin as [x [Hx Hin]].
  apply filter_In in Hin. apply in_map_iff. exists x. tauto.
Qed.

(** One dispatching pass: the READY nodes of the level are dispatched,
    gathered, and the next level is READY when the gather returns. *)
Lemma round_step j pass s :
  env_ok s -> at_round j (nodes s) ->
  env_ok (gather wall executor schedule pass (map id (filter is_ready (nodes s)))
                 (dispatch wall (map id (filter is_ready (nodes s))) s))
  /\ at_round (S j)
       (nodes (gather wall executor schedule pass (map id (filter is_ready (nodes s)))
                      (dispatch wall (map id (filter is_ready (nodes s))) s))).
Proof.
  intros Henv Hround.
  pose proof (env_ok_wf _ Henv) as Hw.
  pose proof (ready_ids_spec j (nodes s) (wf_distinct lvl _ Hw) Hround) as Hids.
  assert (Hnd : NoDup (map id (filter is_ready (nodes s)))).
  { apply ready_ids_distinct. apply (wf_distinct lvl _ Hw). }
  destruct (dispatch_phase j s Henv Hround) as [He1 Hp1].
  set (ids := map id (filter is_ready (nodes s))) in *.
  unfold gather.
  destruct (start_tasks_frame ids (dispatch wall ids s)) as (Hn & Hg & Hl).
  destruct (start_tasks wall ids (dispatch wall ids s)) as [starts s2].
  cbn [snd] in Hn, Hg, Hl.
  assert (He2 : env_ok s2) by (apply (env_ok_same_nodes _ _ Hn Hg Hl He1)).
  assert (Hp2 : phase j [] [] (nodes s2)) by (rewrite Hn; exact Hp1).
  pose proof (Hsched pass ids) as Hperm.
  destruct (finish_all j starts (schedule pass ids) [] s2) as [He3 Hp3];
    try assumption.
  - apply (Permutation_NoDup (Permutation_sym Hperm) Hnd).
  - intros i Hi. apply (Permutation_in _ Hperm) in Hi. apply Hids in Hi.
    destruct Hi as [Hreg Hl']. split; [| split; [exact Hl' | reflexivity]].
    apply (registered_in_run s i Henv). exact Hreg.
  - split; [exact He3 |].
    apply (phase_round_done j (rev (schedule pass ids) ++ []));
      [apply env_ok_wf, He3 | | exact Hp3].
    intros i n Hn' Hl'. apply mem_In. apply in_or_app. left. apply -> in_rev.
    apply (Permutation_in _ (Permutation_sym Hperm)). apply Hids.
    split; [| exact Hl'].
    apply (registered_in_run s i Henv). apply (registered_in_run _ i He3). congruence.
Qed.

(** ** The loop *)

Lemma run_loop_S fuel pass s :
  run_loop wall executor schedule (S fuel) pass s
  = match map id (filter is_ready (nodes s)) with
    | [] =>
        if forallb is_done (nodes s) then (s, [PassBreak])
        else
          let '(s', passes) := run_loop wall executor schedule fuel (S pass) s in
          (s', PassSleep :: passes)
    | ready_ids =>
        let s1 := gather wall executor schedule pass ready_ids
                         (dispatch wall ready_ids s) in
        let '(s', passes) := run_loop wall executor schedule fuel (S pass) s1 in
        (s', PassDispatch ready_ids :: passes)
    end.
Proof. reflexivity. Qed.

Lemma filter_none (A : Type) (p : A -> bool) (l : list A) :
  (forall x, In x l -> p x = false) -> filter p l = [].
Proof.
  induction l as [| a l IH]; simpl; intros H; [reflexivity |].
  rewrite (H a) by tauto. apply IH. intros x Hx. apply H. tauto.
Qed.

(** The pass that finds every node COMPLETED leaves the loop. *)
Lemma all_completed_break fuel pass s :
  NoDup (map id (nodes s)) ->
  (forall i n, find_node (nodes s) i = Some n -> state n = COMPLETED) ->
  run_loop wall executor schedule (S fuel) pass s = (s, [PassBreak]).
Proof.
  intros Hnd Hall.
  assert (Hin : forall n, In n (nodes s) -> state n = COMPLETED).
  { intros n Hn. apply (Hall (id n)). apply In_find_node; assumption. }
  rewrite run_loop_S, filter_none.
  - simpl.
    assert (E : forallb is_done (nodes s) = true).
    { apply forallb_forall. intros n Hn. unfold is_done. rewrite (Hin n Hn). reflexivity. }
    rewrite E. reflexivity.
  - intros n Hn. unfold is_ready. rewrite (Hin n Hn). reflexivity.
Qed.

(** From the pass that dispatches level [j], the loop makes one dispatching
    pass for every level that is left and one more pass, which breaks. *)
Lemma run_loop_rounds :
  forall k j fuel pass s,
    j + k = depth lvl dag -> k < fuel -> env_ok s -> at_round j (nodes s) ->
    exists s' ps,
      run_loop wall executor schedule fuel pass s = (s', ps ++ [PassBreak])
      /\ List.length ps = k /\ forallb is_dispatch ps = true
      /\ env_ok s'
      /\ (forall i n, find_node (nodes s') i = Some n -> state n = COMPLETED).
Proof.
  induction k as [| k IH]; intros j fuel pass s Hk Hfuel Henv Hround;
    (destruct fuel as [| fuel]; [lia |]).
  - assert (Hall : forall i n, find_node (nodes s) i = Some n -> state n = COMPLETED).
    { intros i n Hn. rewrite (Hround i n Hn).
      destruct Henv as [Hg _].
      destruct (graph_of_find (nodes s) dag i n Hg Hn) as [n0 [Hn0 _]].
      pose proof (level_below_depth lvl dag i n0 Hn0) as Hlt.
      assert (E : Nat.ltb (lvl i) j = true) by (apply Nat.ltb_lt; lia).
      rewrite E. reflexivity. }
    exists s, []. rewrite all_completed_break; [| | exact Hall].
    + split; [reflexivity |]. split; [reflexivity |]. split; [reflexivity |].
      split; assumption.
    + apply (wf_distinct lvl _ (env_ok_wf _ Henv)).
  - pose proof (env_ok_wf _ Henv) as Hw.
    destruct (level_inhabited lvl dag Hwf j) as [i [n0 [Hn0 Hl]]]; [lia |].
    assert (Hin : In i (map id (filter is_ready (nodes s)))).
    { apply (ready_ids_spec j (nodes s) (wf_distinct lvl _ Hw) Hround).
      split; [| exact Hl]. apply (registered_in_run s i Henv). congruence. }
    destruct (round_step j pass s Henv Hround) as [He1 Hr1].
    rewrite run_loop_S.
    destruct (map id (filter is_ready (nodes s))) as [| i0 rest]; [contradiction |].
    cbv zeta.
    destruct (IH (S j) fuel (S pass) _ ltac:(lia) ltac:(lia) He1 Hr1)
      as (s' & ps & Hrun & Hlen & Hdis & He' & Hall).
    rewrite Hrun. exists s', (PassDispatch (i0 :: rest) :: ps).
    split; [reflexivity |]. split; [simpl; lia |]. split; [exact Hdis |].
    split; assumption.
Qed.

Lemma passes_count ps :
  forallb is_dispatch ps = true ->
  filter is_dispatch (ps ++ [PassBreak]) = ps
  /\ filter is_sleep (ps ++ [PassBreak]) = [].
Proof.
  induction ps as [| [ids | |] ps IH]; simpl; intros H; try discriminate.
  - split; reflexivity.
  - destruct (IH H) as [E1 E2]. rewrite E1, E2. split; reflexivity.
Qed.

(** The whole loop, from the scheduler [execute_dag] has prepared. *)
Lemma run_loop_completes s0 :
  nodes (register_nodes dag s0) = dag ->
  Forall (fun n => state n = IDLE /\ json_safe (result n) = true) dag ->
  exists s' ps,
    run_loop wall executor schedule (2 * List.length dag) 0 (prepare wall dag s0)
    = (s', ps)
    /\ map id (nodes s') = map id dag
    /\ (forall n, In n (nodes s') -> state n = COMPLETED)
    /\ List.length (filter is_dispatch ps) = depth lvl dag
    /\ filter is_sleep ps = []
    /\ List.length ps <= depth lvl dag + 1
    /\ List.length ps <= 2 * List.length dag.
Proof.
  intros Hreg Hfresh.
  destruct (prepare_at_round_0 s0 Hreg Hfresh) as [Henv Hround].
  pose proof (depth_le_length lvl dag Hwf) as Hdepth.
  destruct (Nat.eq_dec (List.length dag) 0) as [Hlen | Hlen].
  - exists (prepare wall dag s0), []. destruct Henv as [Hg _].
    apply graph_of_ids in Hg.
    assert (Hnil : nodes (prepare wall dag s0) = []).
    { apply length_zero_iff_nil.
      rewrite <- (length_map id), Hg, length_map. exact Hlen. }
    split; [rewrite Hlen; reflexivity |]. split; [exact Hg |].
    split; [rewrite Hnil; intros n [] |].
    repeat split; simpl; lia.
  - destruct (run_loop_rounds (depth lvl dag) 0 (2 * List.length dag) 0
                              (prepare wall dag s0))
      as (s' & ps & Hrun & Hps & Hdis & He' & Hall); try assumption; try lia.
    exists s', (ps ++ [PassBreak]).
    destruct (passes_count ps Hdis) as [E1 E2].
    split; [exact Hrun |].
    split; [destruct He' as [Hg _]; apply graph_of_ids, Hg |].
    split.
    { intros n Hn. apply (Hall (id n)). apply In_find_node; [| exact Hn].
      apply (wf_distinct lvl _ (env_ok_wf _ He')). }
    rewrite E1, E2, length_app. simpl. repeat split; lia.
Qed.

End AllSucceed.

(** The states of the dict [execute_dag] returns. *)
Definition status_states (r : Run) : list (string * string) :=
  map (fun kv => (fst kv, status_state (snd kv))) (results r).


(** ** The run of [__main__] *)

(** The tests that decide the conditions on a graph. *)
Definition references_resolve_b (ns : list ExecutionNode) : bool :=
  forallb
    (fun n =>
       forallb (fun u => match find_node ns u with Some _ => true | None => false end)
               (upstream_nodes n))
    ns.

Lemma references_resolve_b_sound ns :
  references_resolve_b ns = true -> references_resolve ns.
Proof.
  unfold references_resolve_b. rewrite forallb_forall.
  intros H i n u Hn Hu. specialize (H n (find_node_In _ _ _ Hn)).
  rewrite forallb_forall in H. specialize (H u Hu).
  destruct (find_node ns u); [discriminate | discriminate H].
Qed.

Definition is_level_b (lvl : string -> nat) (ns : list ExecutionNode) : bool :=
  forallb
    (fun n => Nat.eqb (lvl (id n))
                      (list_max (map (fun u => S (lvl u)) (upstream_nodes n))))
    ns.

Lemma is_level_b_sound lvl ns : is_level_b lvl ns = true -> is_level lvl ns.
Proof.
  unfold is_level_b. rewrite forallb_forall.
  intros H i n Hn. specialize (H n (find_node_In _ _ _ Hn)).
  apply Nat.eqb_eq in H. rewrite (find_node_id _ _ _ Hn) in H. exact H.
Qed.

Definition well_formed_b (lvl : string -> nat) (ns : list ExecutionNode) : bool :=
  ReadinessClaim.nodup_b (map id ns)
  && references_resolve_b ns
  && ReadinessClaim.downstream_inverse_b ns
  && forward_b ns
  && is_level_b lvl ns.

Lemma well_formed_b_sound lvl ns : well_formed_b lvl ns = true -> well_formed lvl ns.
Proof.
  unfold well_formed_b. intros H.
  apply andb_prop in H. destruct H as [H H5].
  apply andb_prop in H. destruct H as [H H4].
  apply andb_prop in H. destruct H as [H H3].
  apply andb_prop in H. destruct H as [H1 H2].
  constructor.
  - apply ReadinessClaim.nodup_b_sound, H1.
  - apply references_resolve_b_sound, H2.
  - apply ReadinessClaim.downstream_inverse_b_sound, H3.
  - apply forward_b_sound, H4.
  - apply is_level_b_sound, H5.
Qed.

Definition fresh_b (ns : list ExecutionNode) : bool :=
  forallb (fun n => NodeState_eqb (state n) IDLE && json_safe (result n)) ns.

Lemma fresh_b_sound ns :
  fresh_b ns = true ->
  Forall (fun n => state n = IDLE /\ json_safe (result n) = true) ns.
Proof.
  unfold fresh_b. rewrite forallb_forall, Forall_forall.
  intros H n Hn. specialize (H n Hn). apply andb_prop in H.
  destruct H as [H1 H2]. apply NodeState_eqb_eq in H1. split; assumption.
Qed.

(** The levels of the four nodes of [__main__]. *)
Definition demo_level (i : string) : nat :=
  if String.eqb i "node_4" then 2
  else if String.eqb i "node_2" || String.eqb i "node_3" then 1
  else 0.

Lemma demo_well_formed : well_formed demo_level (nodes demo_scheduler).
Proof. apply well_formed_b_sound. vm_compute. reflexivity. Qed.

Lemma demo_fresh :
  Forall (fun n => state n = IDLE /\ json_safe (result n) = true) (nodes demo_scheduler).
Proof. apply fresh_b_sound. vm_compute. reflexivity. Qed.

Lemma demo_registered_again :
  nodes (register_nodes (nodes demo_scheduler) demo_scheduler) = nodes demo_scheduler.
Proof. vm_compute. reflexivity. Qed.

Lemma mock_executor_encodable :
  forall n, exists r, mock_executor n = inl r /\ json_safe r = true.
Proof.
  intros n. eexists. split; [reflexivity |]. unfold json_safe.
  apply orb_true_r.
Qed.

Lemma in_order_permutation :
  forall (pass : nat) (ids : list string), Permutation (in_order pass ids) ids.
Proof. intros pass ids. apply Permutation_refl. Qed.


(** ** Where the run does not complete *)

(** Two nodes, B after A, with the dependency set in both directions. *)
Definition chain_scheduler : Scheduler :=
  set_node_dependencies
    [("B", ["A"])]
    (register_nodes [demo_node "A" "architect" "task_a" [] 0%Z;
                     demo_node "B" "developer" "task_b" ["A"] 1%Z]
                    create_scheduler).

Definition chain_level (i : string) : nat := if String.eqb i "B" then 1 else 0.

(** An executor that returns a set that is not empty, whatever the node. *)
Definition set_executor (node : ExecutionNode) : pyval + string :=
  inl (PObject "set" false).

Definition chain_run : Run :=
  execute_dag demo_wall set_executor in_order (nodes chain_scheduler) chain_scheduler.

(** The same two nodes handed to [execute_dag] of a new scheduler as they
    were built, B naming A as its upstream node and no downstream list
    written. *)
Definition unwired_run : Run :=
  execute_dag demo_wall mock_executor in_order
              [demo_node "A" "architect" "task_a" [] 0%Z;
               demo_node "B" "developer" "task_b" ["A"] 1%Z]
              create_scheduler.


End Completion.

(* ================================================================== *)
(** * The state manager and the bridge: further properties *)
(* ================================================================== *)

Module BridgeExtras.
Import Py GlobalBridge StoreLemmas TransitionLemmas Readiness.


(** ** Registration *)

Lemma find_dict_set n ns i :
  find_node (dict_set n ns) i
  = if String.eqb i (id n) then Some n else find_node ns i.
Proof.
  unfold find_node. induction ns as [| m ns IH]; simpl.
  - rewrite (String.eqb_sym (id n) i). destruct (String.eqb i (id n)); reflexivity.
  - destruct (String.eqb (id m) (id n)) eqn:E; simpl.
    + apply String.eqb_eq in E. rewrite E, (String.eqb_sym (id n) i).
      destruct (String.eqb i (id n)); reflexivity.
    + destruct (String.eqb (id m) i) eqn:E2; [| exact IH].
      apply String.eqb_eq in E2. subst i. rewrite E. reflexivity.
Qed.

Lemma keys_dict_set n ns :
  map id (dict_set n ns)
  = if existsb (String.eqb (id n)) (map id ns) then map id ns
    else map id ns ++ [id n].
Proof.
  induction ns as [| m ns IH]; simpl; [reflexivity |].
  rewrite (String.eqb_sym (id n) (id m)).
  destruct (String.eqb (id m) (id n)) eqn:E; simpl.
  - apply String.eqb_eq in E. rewrite E. reflexivity.
  - rewrite IH. destruct (existsb (String.eqb (id n)) (map id ns)); reflexivity.
Qed.

(** X1.  [register_node] followed by [get_state]: the state of the node just
    registered is returned under its id, every other id answers as before;
    an id that was registered already keeps its place in the dict and a new
    one is appended. *)
Theorem register_node_then_get_state (node : ExecutionNode) (s : Scheduler) (i : string) :
  get_state (register_node node s) i
  = (if String.eqb i (id node) then Some (state node) else get_state s i)
  /\ map id (nodes (register_node node s))
     = (if existsb (String.eqb (id node)) (map id (nodes s)) then map id (nodes s)
        else map id (nodes s) ++ [id node]).
Proof.
  split.
  - unfold get_state, register_node. simpl. rewrite find_dict_set.
    destruct (String.eqb i (id node)); reflexivity.
  - apply keys_dict_set.
Qed.

(** ** Listeners *)

Lemma listeners_of_add i cb ls j :
  listeners_of (add_listener i cb ls) j
  = if String.eqb j i then listeners_of ls j ++ [cb] else listeners_of ls j.
Proof.
  induction ls as [| [k cbs] ls IH]; simpl.
  - rewrite (String.eqb_sym i j). destruct (String.eqb j i); reflexivity.
  - destruct (String.eqb k i) eqn:E; simpl.
    + apply String.eqb_eq in E. subst k. rewrite (String.eqb_sym i j).
      destruct (String.eqb j i); reflexivity.
    + destruct (String.eqb k j) eqn:E2; [| exact IH].
      apply String.eqb_eq in E2. subst k.
      rewrite E. reflexivity.
Qed.

Lemma listeners_register_fold l :
  forall s1 i,
    listeners_of
      (state_listeners
         (fold_left
            (fun acc node =>
               with_listeners (add_listener (id node) OnStateChange (state_listeners acc))
                              acc)
            l s1)) i
    = listeners_of (state_listeners s1) i
      ++ repeat OnStateChange (count_occ string_dec (map id l) i).
Proof.
  induction l as [| m l IH]; intros s1 i; simpl.
  - rewrite app_nil_r. reflexivity.
  - rewrite IH. simpl. rewrite listeners_of_add.
    destruct (string_dec (id m) i) as [E | E].
    + subst i. rewrite String.eqb_refl, <- app_assoc. reflexivity.
    + assert (E2 : String.eqb i (id m) = false).
      { apply String.eqb_neq. congruence. }
      rewrite E2. reflexivity.
Qed.

Lemma listeners_register_node_fold l :
  forall s1,
    state_listeners (fold_left (fun acc node => register_node node acc) l s1)
    = state_listeners s1.
Proof.
  induction l as [| m l IH]; intros s1; simpl; [reflexivity |].
  rewrite IH. reflexivity.
Qed.

(** X2.  [register_nodes] appends the coordinator's callback to the
    listeners of a node once for every occurrence of its id in the list, on
    top of the listeners the node already had: registering the same nodes
    again gives every node the callback a second time. *)
Theorem register_nodes_appends_listeners
        (ns : list ExecutionNode) (s : Scheduler) (i : string) :
  listeners_of (state_listeners (register_nodes ns s)) i
  = listeners_of (state_listeners s) i
    ++ repeat OnStateChange (count_occ string_dec (map id ns) i).
Proof.
  unfold register_nodes. rewrite listeners_register_fold.
  rewrite listeners_register_node_fold. reflexivity.
Qed.

(** ** Transitions that complete nothing *)

Section Updates.
Variable wall : nat -> Time.

Lemma journal_mark n st s :
  journal (mark wall n st s) = journal s ++ [StateChange (id n) (state n) st].
Proof. destruct st; reflexivity. Qed.

(** The effect of [update_state] with a state other than COMPLETED. *)
Lemma update_state_effect (s : Scheduler) (i : string) (st : NodeState) :
  st <> COMPLETED ->
  fst (update_state wall i st s)
  = (match find_node (nodes s) i with Some _ => true | None => false end)
  /\ (forall j,
        find_node (nodes (snd (update_state wall i st s))) j
        = if String.eqb j i
          then option_map (stamped (wall (clock_reads s)) st) (find_node (nodes s) j)
          else find_node (nodes s) j)
  /\ (find_node (nodes s) i = None -> snd (update_state wall i st s) = s)
  /\ state_listeners (snd (update_state wall i st s)) = state_listeners s
  /\ prompt_generator (snd (update_state wall i st s)) = prompt_generator s
  /\ audit_log (snd (update_state wall i st s)) = audit_log s.
Proof.
  intros Hst. rewrite (update_state_other wall i st s Hst).
  split; [| split; [| split; [| split; [| split]]]].
  - rewrite update_state_nested_eq. destruct (find_node (nodes s) i); reflexivity.
  - intros j. rewrite nodes_update_state_nested.
    apply find_alter. auto with shape.
  - intros Hnone. rewrite update_state_nested_eq, Hnone. reflexivity.
  - apply listeners_update_state_nested.
  - apply generator_update_state_nested.
  - rewrite update_state_nested_eq.
    destruct (find_node (nodes s) i); cbn [snd]; [apply audit_mark | reflexivity].
Qed.

(** X3.  [update_state] with a state other than COMPLETED.  It returns
    whether the id is registered.  Of the nodes, only the one of that id is
    written: it takes the new state and the time stamp of the transition
    ([started_at] for EXECUTING, [completed_at] for FAILED), every other
    entry answers as before; on an id that is not registered nothing at all
    is written.  Listeners, prompt generator and audit log are untouched. *)
Theorem update_state_writes_one_node (s : Scheduler) (i : string) (st : NodeState) :
  st <> COMPLETED ->
  fst (update_state wall i st s)
  = (match find_node (nodes s) i with Some _ => true | None => false end)
  /\ (forall j,
        find_node (nodes (snd (update_state wall i st s))) j
        = if String.eqb j i
          then option_map (stamped (wall (clock_reads s)) st) (find_node (nodes s) j)
          else find_node (nodes s) j)
  /\ (find_node (nodes s) i = None -> snd (update_state wall i st s) = s)
  /\ state_listeners (snd (update_state wall i st s)) = state_listeners s
  /\ prompt_generator (snd (update_state wall i st s)) = prompt_generator s
  /\ audit_log (snd (update_state wall i st s)) = audit_log s.
Proof. apply update_state_effect. Qed.

End Updates.

Lemma failed_is_no_completion : FAILED <> COMPLETED.
Proof. discriminate. Qed.

Lemma update_state_writes_one_node_witness :
  fst (update_state demo_wall "node_2" FAILED demo_scheduler)
  = (match find_node (nodes demo_scheduler) "node_2" with
     | Some _ => true | None => false end)
  /\ (forall j,
        find_node (nodes (snd (update_state demo_wall "node_2" FAILED demo_scheduler))) j
        = if String.eqb j "node_2"
          then option_map (stamped (demo_wall (clock_reads demo_scheduler)) FAILED)
                          (find_node (nodes demo_scheduler) j)
          else find_node (nodes demo_scheduler) j)
  /\ (find_node (nodes demo_scheduler) "node_2" = None ->
      snd (update_state demo_wall "node_2" FAILED demo_scheduler) = demo_scheduler)
  /\ state_listeners (snd (update_state demo_wall "node_2" FAILED demo_scheduler))
     = state_listeners demo_scheduler
  /\ prompt_generator (snd (update_state demo_wall "node_2" FAILED demo_scheduler))
     = prompt_generator demo_scheduler
  /\ audit_log (snd (update_state demo_wall "node_2" FAILED demo_scheduler))
     = audit_log demo_scheduler.
Proof.
  exact (update_state_writes_one_node demo_wall demo_scheduler "node_2" FAILED
                                      failed_is_no_completion).
Defined.

(** ** Completions *)

Section Completions.
Variable wall : nat -> Time.

(** No transition writes the id or the edge lists of a node. *)
Lemma graph_update_state i st s :
  graph_of (nodes (snd (update_state wall i st s))) = graph_of (nodes s).
Proof.
  assert (Hother : forall st', st' <> COMPLETED ->
            graph_of (nodes (snd (update_state wall i st' s))) = graph_of (nodes s)).
  { intros st' Hst. rewrite (update_state_other wall i st' s Hst).
    rewrite nodes_update_state_nested. apply graph_of_alter. auto with shape. }
  destruct st; try (apply Hother; discriminate).
  destruct (find_node (nodes s) i) as [n |] eqn:En.
  - apply (Readiness.update_state_completed_ind wall
             (fun s1 => graph_of (nodes s1) = graph_of (nodes s)) i n s En).
    + rewrite nodes_mark. apply graph_of_alter. auto with shape.
    + intros s1 H1.
      destruct (trigger_loop_frame wall (downstream_nodes n) s1) as [Hg _].
      congruence.
    + intros s1 H1. exact H1.
  - unfold update_state, update_state_with. rewrite En. reflexivity.
Qed.

(** What the listeners of the completion of [i] keep, [downs] being its
    downstream ids and [s] the scheduler before the transition. *)
Definition completion_frame (s : Scheduler) (i : string) (n : ExecutionNode)
           (s1 : Scheduler) : Prop :=
  (forall j, j <> i -> ~ In j (downstream_nodes n) ->
             find_node (nodes s1) j = find_node (nodes s) j)
  /\ (forall j, j <> i ->
        state_of (nodes s1) j = state_of (nodes s) j
        \/ (In j (downstream_nodes n) /\ state_of (nodes s1) j = Some READY))
  /\ (~ In i (downstream_nodes n) ->
      find_node (nodes s1) i = Some (stamped (wall (clock_reads s)) COMPLETED n))
  /\ state_listeners s1 = state_listeners s
  /\ prompt_generator s1 = prompt_generator s
  /\ audit_log s1 = audit_log s.

Lemma completion_frame_trigger s i n s1 :
  completion_frame s i n s1 ->
  completion_frame s i n (fst (trigger_loop wall (downstream_nodes n) s1)).
Proof.
  intros H1.
  destruct (trigger_loop_ind wall
              (fun rest s2 => incl rest (downstream_nodes n) /\ completion_frame s i n s2))
    with (ds := downstream_nodes n) (s := s1) as [rest [[_ H] _]].
  - intros d rest s2 [Hi H] _. split; [| exact H].
    intros x Hx. apply Hi. right. exact Hx.
  - intros d rest s2 dn [Hi H] _ _. split; [| exact H].
    intros x Hx. apply Hi. right. exact Hx.
  - intros d rest s2 dn text [Hi (Hout & Hst & Hself & Hl & Hg & Ha)] Hd _.
    assert (Hdin : In d (downstream_nodes n)) by (apply Hi; left; reflexivity).
    split; [intros x Hx; apply Hi; right; exact Hx |].
    unfold completion_frame.
    rewrite nodes_promote, listeners_promote, generator_promote.
    split; [| split; [| split; [| split; [| split]]]]; try assumption.
    + intros j Hji Hjd. rewrite find_alter_other; [apply Hout; assumption | |].
      * apply keeps_shape_promoted.
      * intros ->. contradiction.
    + intros j Hji. rewrite state_of_alter by apply keeps_shape_promoted.
      destruct (String.eqb j d) eqn:E; [| apply Hst; exact Hji].
      apply String.eqb_eq in E. subst j. right. split; [exact Hdin |].
      rewrite Hd. reflexivity.
    + intros Hnot. rewrite find_alter_other; [apply Hself; exact Hnot | |].
      * apply keeps_shape_promoted.
      * intros ->. contradiction.
    + unfold promote. simpl. rewrite update_state_nested_eq.
      destruct text; simpl;
        match goal with
        | |- context [find_node ?a ?b] => destruct (find_node a b)
        end; simpl; rewrite ?audit_mark; exact Ha.
  - split; [apply incl_refl | exact H1].
  - exact H.
Qed.

(** X4.  [update_state] with COMPLETED on a registered node.  The id and
    the edge lists of every node stay as they are.  Outside the completed
    node and the nodes of its downstream list no entry is written; a
    downstream node either keeps its state or is READY; the completed node,
    when it is not in its own downstream list, carries the state COMPLETED
    and the time stamp.  Listeners, prompt generator and audit log are
    untouched. *)
Theorem completion_writes_downstream_only
        (s : Scheduler) (i : string) (n : ExecutionNode) :
  find_node (nodes s) i = Some n ->
  graph_of (nodes (snd (update_state wall i COMPLETED s))) = graph_of (nodes s)
  /\ completion_frame s i n (snd (update_state wall i COMPLETED s)).
Proof.
  intros Hn. split; [apply graph_update_state |].
  apply (Readiness.update_state_completed_ind wall (completion_frame s i n) i n s Hn).
  - unfold completion_frame.
    rewrite nodes_mark, listeners_mark, generator_mark, audit_mark.
    rewrite (find_node_id _ _ _ Hn).
    split; [| split; [| split; [| split; [| split]]]]; try reflexivity.
    + intros j Hji _. apply find_alter_other; [auto with shape | exact Hji].
    + intros j Hji. left. rewrite state_of_alter by auto with shape.
      apply String.eqb_neq in Hji. rewrite Hji. reflexivity.
    + intros _. rewrite find_alter_same by auto with shape. rewrite Hn. reflexivity.
  - apply completion_frame_trigger.
  - intros s1 H1. exact H1.
Qed.

End Completions.

Definition demo_node_1 : ExecutionNode :=
  Eval vm_compute in ReadinessClaim.node_at demo_scheduler "node_1".

Lemma demo_node_1_found : find_node (nodes demo_scheduler) "node_1" = Some demo_node_1.
Proof. vm_compute. reflexivity. Qed.

Lemma completion_writes_downstream_only_witness :
  graph_of (nodes (snd (update_state demo_wall "node_1" COMPLETED demo_scheduler)))
  = graph_of (nodes demo_scheduler)
  /\ completion_frame demo_wall demo_scheduler "node_1" demo_node_1
                      (snd (update_state demo_wall "node_1" COMPLETED demo_scheduler)).
Proof.
  exact (completion_writes_downstream_only demo_wall demo_scheduler "node_1"
                                           demo_node_1 demo_node_1_found).
Defined.

(** ** The loop of [execute_dag], whatever the executor does *)

Section Loop.
Variable wall : nat -> Time.
Variable executor : ExecutionNode -> pyval + string.
Variable schedule : nat -> list string -> list string.

Lemma graph_dispatch ids :
  forall s, graph_of (nodes (dispatch wall ids s)) = graph_of (nodes s).
Proof.
  induction ids as [| i ids IH]; intros s; [reflexivity |].
  change (dispatch wall (i :: ids) s)
    with (dispatch wall ids (snd (update_state wall i EXECUTING s))).
  rewrite IH. apply graph_update_state.
Qed.

Lemma graph_seed_roots roots :
  forall s, graph_of (nodes (seed_roots wall roots s)) = graph_of (nodes s).
Proof.
  unfold seed_roots.
  induction roots as [| m roots IH]; intros s; simpl; [reflexivity |].
  rewrite IH. destruct (upstream_nodes m); [apply graph_update_state | reflexivity].
Qed.

Lemma graph_finish_node starts i s :
  graph_of (nodes (finish_node wall executor starts i s)) = graph_of (nodes s).
Proof.
  unfold finish_node.
  destruct (find_node (nodes s) i) as [n |]; [| reflexivity].
  cbv zeta. destruct (executor n) as [r | msg]; rewrite graph_update_state;
    apply graph_of_alter; intros m; reflexivity.
Qed.

Lemma graph_gather pass ids s :
  graph_of (nodes (gather wall executor schedule pass ids s)) = graph_of (nodes s).
Proof.
  unfold gather.
  destruct (Completion.start_tasks_frame wall ids s) as [Hn _].
  destruct (start_tasks wall ids s) as [starts s1]. cbn [snd] in Hn.
  rewrite <- Hn. generalize (schedule pass ids) as order. clear Hn.
  intros order. revert s1.
  induction order as [| i order IH]; intros s1; simpl; [reflexivity |].
  rewrite IH. apply graph_finish_node.
Qed.

Lemma run_loop_frame remaining :
  forall pass s,
    graph_of (nodes (fst (run_loop wall executor schedule remaining pass s)))
    = graph_of (nodes s)
    /\ List.length (snd (run_loop wall executor schedule remaining pass s)) <= remaining.
Proof.
  induction remaining as [| k IH]; intros pass s; [split; [reflexivity | apply Nat.le_refl] |].
  rewrite Completion.run_loop_S.
  destruct (map id (filter is_ready (nodes s))) as [| i0 rest].
  - destruct (forallb is_done (nodes s)); [split; [reflexivity | simpl; lia] |].
    destruct (IH (S pass) s) as [Hg Hl].
    destruct (run_loop wall executor schedule k (S pass) s) as [s' ps].
    cbn [fst snd] in *. split; [exact Hg | simpl; lia].
  - cbv zeta.
    destruct (IH (S pass)
                 (gather wall executor schedule pass (i0 :: rest)
                         (dispatch wall (i0 :: rest) s))) as [Hg Hl].
    destruct (run_loop wall executor schedule k (S pass)
                (gather wall executor schedule pass (i0 :: rest)
                        (dispatch wall (i0 :: rest) s))) as [s' ps].
    cbn [fst snd] in *. split; [| simpl; lia].
    rewrite Hg, graph_gather. apply graph_dispatch.
Qed.

(** X5.  [execute_dag], for every list of nodes, scheduler, executor and
    order in which the tasks of a pass finish.  The loop makes at most
    [2 * len(dag_nodes)] passes.  The dict it returns has one entry for every
    node the scheduler holds once the nodes are registered, in the order of
    the dict, nodes registered earlier included; and the run leaves the id
    and the edge lists of every node as registration left them. *)
Theorem execute_dag_bounded_and_reports_every_node
        (dag : list ExecutionNode) (s0 : Scheduler) :
  List.length (passes (execute_dag wall executor schedule dag s0))
  <= 2 * List.length dag
  /\ map fst (results (execute_dag wall executor schedule dag s0))
     = map id (nodes (register_nodes dag s0))
  /\ graph_of (nodes (final (execute_dag wall executor schedule dag s0)))
     = graph_of (nodes (register_nodes dag s0)).
Proof.
  unfold execute_dag.
  destruct (run_loop_frame (2 * List.length dag) 0 (prepare wall dag s0)) as [Hg Hl].
  destruct (run_loop wall executor schedule (2 * List.length dag) 0
                     (prepare wall dag s0)) as [s' ps].
  cbn [fst snd results passes final] in *.
  assert (Hgraph : graph_of (nodes s') = graph_of (nodes (register_nodes dag s0))).
  { rewrite Hg. unfold prepare. rewrite graph_seed_roots. reflexivity. }
  split; [exact Hl |]. split; [| exact Hgraph].
  unfold collect_results. rewrite map_map. cbn [fst].
  apply graph_of_ids. exact Hgraph.
Qed.

(** ** A task whose executor raises *)

(** X6.  [_execute_node] when the executor raises on a registered node: the
    exception does not leave the task.  The node takes the state FAILED with
    the time stamp, the text of the exception as [error] and the elapsed time;
    its result and prompt are what they were.  No other node is written, no
    downstream node is looked at, and listeners, prompt generator and audit
    log are untouched. *)
Theorem raising_executor_fails_its_node_only
        (starts : list (string * Time)) (s : Scheduler) (i : string)
        (n : ExecutionNode) (msg : string) :
  find_node (nodes s) i = Some n ->
  executor n = inr msg ->
  find_node (nodes (finish_node wall executor starts i s)) i
  = Some (stamped (wall (S (clock_reads s))) FAILED
            (set_execution_time (wall (clock_reads s) - start_of starts i)%Z
               (set_error (Some msg) n)))
  /\ (forall j, j <> i ->
        find_node (nodes (finish_node wall executor starts i s)) j
        = find_node (nodes s) j)
  /\ state_listeners (finish_node wall executor starts i s) = state_listeners s
  /\ prompt_generator (finish_node wall executor starts i s) = prompt_generator s
  /\ audit_log (finish_node wall executor starts i s) = audit_log s.
Proof.
  intros Hn Hraise. unfold finish_node. rewrite Hn, Hraise. cbv zeta.
  set (f := fun m => set_execution_time (wall (clock_reads s) - start_of starts i)%Z
                       (set_error (Some msg) m)).
  assert (Hf : keeps_shape f) by (intros m; reflexivity).
  destruct (update_state_effect wall (alter_node f i (tick s)) i FAILED
                                failed_is_no_completion)
    as (_ & Hfind & _ & Hl & Hg & Ha).
  split; [| split; [| split; [| split]]].
  - rewrite Hfind, String.eqb_refl. simpl.
    rewrite find_alter_same by exact Hf. rewrite Hn. reflexivity.
  - intros j Hj. rewrite Hfind. apply String.eqb_neq in Hj. rewrite Hj. simpl.
    apply find_alter_other; [exact Hf | apply String.eqb_neq; exact Hj].
  - rewrite Hl. reflexivity.
  - rewrite Hg. reflexivity.
  - rewrite Ha. reflexivity.
Qed.

End Loop.

(** The failure scenario {A -> B, A -> C, B -> D}, the nodes registered. *)
Definition failure_start : Scheduler :=
  register_nodes SchedulerClaims.isolation_graph create_scheduler.

Definition failure_node_B : ExecutionNode :=
  Eval vm_compute in ReadinessClaim.node_at failure_start "B".

Lemma failure_node_B_found : find_node (nodes failure_start) "B" = Some failure_node_B.
Proof. vm_compute. reflexivity. Qed.

Lemma failing_on_B_raises : SchedulerClaims.failing_on_B failure_node_B = inr "boom".
Proof. reflexivity. Qed.

Lemma raising_executor_fails_its_node_only_witness :
  find_node (nodes (finish_node demo_wall SchedulerClaims.failing_on_B [] "B"
                                failure_start)) "B"
  = Some (stamped (demo_wall (S (clock_reads failure_start))) FAILED
            (set_execution_time
               (demo_wall (clock_reads failure_start) - start_of [] "B")%Z
               (set_error (Some "boom") failure_node_B)))
  /\ (forall j, j <> "B" ->
        find_node (nodes (finish_node demo_wall SchedulerClaims.failing_on_B [] "B"
                                      failure_start)) j
        = find_node (nodes failure_start) j)
  /\ state_listeners (finish_node demo_wall SchedulerClaims.failing_on_B [] "B"
                                  failure_start)
     = state_listeners failure_start
  /\ prompt_generator (finish_node demo_wall SchedulerClaims.failing_on_B [] "B"
                                   failure_start)
     = prompt_generator failure_start
  /\ audit_log (finish_node demo_wall SchedulerClaims.failing_on_B [] "B" failure_start)
     = audit_log failure_start.
Proof.
  exact (raising_executor_fails_its_node_only
           demo_wall SchedulerClaims.failing_on_B [] failure_start "B"
           failure_node_B "boom" failure_node_B_found failing_on_B_raises).
Defined.

(** ** The bridge *)

Section Bridge.
Variable wall : nat -> Time.


(** X8.  [bridge_context] reads the nodes and writes none: after the call
    the nodes, their listeners and the prompt generator are what they were,
    whatever the request.  The audit log is only appended to, by at most one
    entry. *)
Theorem bridge_context_writes_no_node (request : BridgeRequest) (s : Scheduler) :
  nodes (snd (bridge_context wall request s)) = nodes s
  /\ state_listeners (snd (bridge_context wall request s)) = state_listeners s
  /\ prompt_generator (snd (bridge_context wall request s)) = prompt_generator s
  /\ exists added,
       audit_log (snd (bridge_context wall request s)) = audit_log s ++ added
       /\ List.length added <= 1.
Proof.
  unfold bridge_context.
  destruct (validate_consent_token request); simpl.
  - destruct (find_node (nodes s) (source_node request)) as [src |];
      destruct (find_node (nodes s) (target_node request)) as [tgt |]; simpl;
      repeat split;
      try (exists []; rewrite app_nil_r; split; [reflexivity | simpl; lia]).
    eexists [_]. split; [reflexivity | simpl; lia].
  - repeat split. exists []. rewrite app_nil_r. split; [reflexivity | simpl; lia].
Qed.

(** X9.  The prompt of a node crosses the bridge for scope "public" only:
    for every other scope string, whatever the outcome of the request, the
    data of the response has no entry "prompt". *)
Theorem bridge_context_keeps_prompts_private (request : BridgeRequest) (s : Scheduler) :
  scope request <> "public" ->
  match data (fst (bridge_context wall request s)) with
  | Some d => dict_get "prompt" d = None
  | None => True
  end.
Proof.
  intros Hsc. unfold bridge_context.
  destruct (validate_consent_token request); simpl; [| exact I].
  destruct (find_node (nodes s) (source_node request)) as [src |];
    destruct (find_node (nodes s) (target_node request)) as [tgt |]; simpl;
    try reflexivity.
  unfold filter_by_scope.
  destruct (String.eqb (scope request) "public") eqn:E1.
  - apply String.eqb_eq in E1. contradiction.
  - destruct (String.eqb (scope request) "shared").
    + apply BridgeProps.dict_get_pop_same.
    + reflexivity.
Qed.

End Bridge.

(** A request for the shared record of node_2, with a token of eight
    characters. *)
Definition shared_request : BridgeRequest :=
  mkRequest "req_002" "node_1" "node_2" "status" "read upstream status"
            "shared" "abcdefgh" 0%Z.

Lemma shared_is_not_public : scope shared_request <> "public".
Proof. discriminate. Qed.

Lemma bridge_context_keeps_prompts_private_witness :
  match data (fst (bridge_context demo_wall shared_request demo_scheduler)) with
  | Some d => dict_get "prompt" d = None
  | None => True
  end.
Proof.
  exact (bridge_context_keeps_prompts_private demo_wall shared_request demo_scheduler
                                              shared_is_not_public).
Defined.

(** ** The prompt generator *)

Lemma upstream_results_encodable ns ups :
  forallb json_ok
    (flat_map
       (fun up_id =>
          match find_node ns up_id with
          | Some up_node =>
              if truthy (result up_node)
              then [PDict [("node", PStr up_id); ("role", PStr (role up_node));
                           ("result", result up_node)]]
              else []
          | None => []
          end)
       ups) = false
  <-> exists u un, In u ups /\ find_node ns u = Some un
                   /\ truthy (result un) = true /\ json_ok (result un) = false.
Proof.
  induction ups as [| u ups IH]; simpl.
  - split; [discriminate | intros (u & un & [] & _)].
  - rewrite forallb_app, andb_false_iff, IH. split.
    + intros [H | (v & vn & Hv & Hrest)].
      * destruct (find_node ns u) as [un |] eqn:Eu; [| discriminate H].
        destruct (truthy (result un)) eqn:Et; [| discriminate H].
        simpl in H. rewrite !andb_true_r in H.
        exists u, un. repeat split; auto.
      * exists v, vn. split; [right; exact Hv | exact Hrest].
    + intros (v & vn & [-> | Hv] & Hf & Ht & Hj).
      * left. rewrite Hf, Ht. simpl. rewrite Hj. reflexivity.
      * right. exists v, vn. repeat split; assumption.
Qed.


(** ** The instant trigger *)

Section Trigger.
Variable wall : nat -> Time.

(** The generator is not set, or it is [generate_prompt] and every result
    held can go into a prompt. *)
Definition generator_safe (s : Scheduler) : Prop :=
  prompt_generator s = None
  \/ (prompt_generator s = Some generate_prompt
      /\ forall j m, find_node (nodes s) j = Some m ->
                     Completion.json_safe (result m) = true).

(** What holds of the dependent [d] while the listeners of the completion of
    [i] run. *)
Definition awaiting (s : Scheduler) (n dn : ExecutionNode) (s1 : Scheduler) : Prop :=
  graph_of (nodes s1) = graph_of (nodes s)
  /\ generator_safe s1
  /\ forall u, In u (upstream_nodes dn) -> completed (nodes s1) u.

Lemma awaiting_promote s n dn text x s1 :
  In x (downstream_nodes n) ->
  (forall u, In u (upstream_nodes dn) -> ~ In u (downstream_nodes n)) ->
  awaiting s n dn s1 -> awaiting s n dn (promote wall text x s1).
Proof.
  intros Hx Hapart (Hg & Hgen & Hc). unfold awaiting, generator_safe.
  rewrite nodes_promote, generator_promote.
  split; [rewrite graph_of_alter by apply keeps_shape_promoted; exact Hg |].
  split.
  - destruct Hgen as [Hnone | [Hsome Hres]]; [left; exact Hnone | right].
    split; [exact Hsome |]. intros j m Hm.
    rewrite find_alter in Hm by apply keeps_shape_promoted.
    destruct (String.eqb j x); [| apply (Hres j m Hm)].
    destruct (find_node (nodes s1) j) as [m0 |] eqn:E; [| discriminate].
    cbn [option_map] in Hm. assert (Em : m = promoted text m0) by congruence.
    rewrite Em, result_promoted. apply (Hres j m0 E).
  - intros u Hu. unfold completed.
    rewrite state_of_alter by apply keeps_shape_promoted.
    assert (E : String.eqb u x = false).
    { apply String.eqb_neq. intros ->. apply (Hapart x Hu Hx). }
    rewrite E. apply Hc. exact Hu.
Qed.

Lemma awaiting_trigger s n d dn s1 :
  In d (downstream_nodes n) ->
  find_node (nodes s) d = Some dn ->
  (forall u, In u (upstream_nodes dn) -> ~ In u (downstream_nodes n)) ->
  awaiting s n dn s1 ->
  (awaiting s n dn (fst (trigger_loop wall (downstream_nodes n) s1))
   /\ state_of (nodes (fst (trigger_loop wall (downstream_nodes n) s1))) d = Some READY)
  /\ snd (trigger_loop wall (downstream_nodes n) s1) = false.
Proof.
  intros Hd Hdn Hapart Hs1.
  assert (Hfound : forall s2, awaiting s n dn s2 ->
            exists dn2, find_node (nodes s2) d = Some dn2
                        /\ all_deps_completed (nodes s2) dn2 = true).
  { intros s2 (Hg & _ & Hc).
    destruct (graph_of_find (nodes s) (nodes s2) d dn (eq_sym Hg) Hdn) as [dn2 [H2 Hsh]].
    exists dn2. split; [exact H2 |]. apply all_deps_completed_iff.
    assert (E : upstream_nodes dn2 = upstream_nodes dn).
    { unfold shape in Hsh. congruence. }
    rewrite E. exact Hc. }
  destruct (trigger_loop_total wall
              (fun rest s2 => incl rest (downstream_nodes n) /\ awaiting s n dn s2
                              /\ (In d rest \/ state_of (nodes s2) d = Some READY)))
    with (ds := downstream_nodes n) (s := s1) as [(_ & H1 & H2) H3].
  - intros x rest s2 (Hi & Ha & Hr) Hnone.
    split; [intros y Hy; apply Hi; right; exact Hy |]. split; [exact Ha |].
    destruct Hr as [[-> | Hr] | Hr]; auto.
    destruct (Hfound s2 Ha) as [dn2 [H2 _]]. congruence.
  - intros x rest s2 xn (Hi & Ha & Hr) Hx Hfalse.
    split; [intros y Hy; apply Hi; right; exact Hy |]. split; [exact Ha |].
    destruct Hr as [[-> | Hr] | Hr]; auto.
    destruct (Hfound s2 Ha) as [dn2 [H2 Ht]]. congruence.
  - intros x rest s2 xn text (Hi & Ha & Hr) Hx _.
    split; [intros y Hy; apply Hi; right; exact Hy |].
    split; [apply awaiting_promote; [apply Hi; left; reflexivity | exact Hapart | exact Ha] |].
    rewrite nodes_promote, state_of_alter by apply keeps_shape_promoted.
    destruct (String.eqb d x) eqn:E.
    + right. apply String.eqb_eq in E. subst x. rewrite Hx. reflexivity.
    + destruct Hr as [[-> | Hr] | Hr]; auto.
      rewrite String.eqb_refl in E. discriminate.
  - intros x rest s2 xn g (_ & (_ & Hgen & _) & _) Hx Hg.
    destruct Hgen as [Hnone | [Hsome Hres]]; [congruence |].
    rewrite Hsome in Hg. injection Hg as <-.
    apply Completion.generate_prompt_succeeds. exact Hres.
  - split; [apply incl_refl |]. split; [exact Hs1 | left; exact Hd].
  - split; [split; [exact H1 |] | exact H3].
    destruct H2 as [[] | H2]. exact H2.
Qed.


End Trigger.

(** The scheduler of [__main__] as [execute_dag] prepares it: generator
    set, node_1 READY. *)
Definition trigger_start : Scheduler :=
  prepare demo_wall (nodes demo_scheduler) demo_scheduler.

Definition trigger_node_1 : ExecutionNode :=
  Eval vm_compute in ReadinessClaim.node_at trigger_start "node_1".

Definition trigger_node_2 : ExecutionNode :=
  Eval vm_compute in ReadinessClaim.node_at trigger_start "node_2".

Lemma trigger_node_1_found :
  find_node (nodes trigger_start) "node_1" = Some trigger_node_1.
Proof. vm_compute. reflexivity. Qed.

Lemma trigger_node_2_found :
  find_node (nodes trigger_start) "node_2" = Some trigger_node_2.
Proof. vm_compute. reflexivity. Qed.

Lemma trigger_node_2_downstream : In "node_2" (downstream_nodes trigger_node_1).
Proof. left. reflexivity. Qed.

Lemma trigger_node_2_upstream :
  forall u, In u (upstream_nodes trigger_node_2) ->
            u = "node_1" \/ completed (nodes trigger_start) u.
Proof. intros u [<- | []]. left. reflexivity. Qed.

Lemma trigger_nodes_apart :
  forall u, In u ("node_1" :: upstream_nodes trigger_node_2) ->
            ~ In u (downstream_nodes trigger_node_1).
Proof.
  intros u [<- | [<- | []]] [H | [H | []]]; discriminate H.
Qed.

Lemma trigger_start_listeners :
  listeners_of (state_listeners trigger_start) "node_1" <> [].
Proof. vm_compute. discriminate. Qed.

Lemma trigger_start_generator : generator_safe trigger_start.
Proof.
  right. split; [reflexivity |]. intros j m Hm.
  assert (H : forallb (fun x => Completion.json_safe (result x)) (nodes trigger_start)
              = true) by (vm_compute; reflexivity).
  rewrite forallb_forall in H. apply H. apply (find_node_In _ _ _ Hm).
Qed.


(** ** Setting dependencies *)

(** A node with its two edge lists emptied. *)
Definition without_edges (n : ExecutionNode) : ExecutionNode :=
  set_upstream_nodes [] (set_downstream_nodes [] n).

Lemma without_edges_alter f i ns :
  (forall n, without_edges (f n) = without_edges n) ->
  map without_edges (alter f i ns) = map without_edges ns.
Proof.
  intros Hf. unfold alter. rewrite map_map. apply map_ext.
  intros n. destruct (String.eqb (id n) i); [apply Hf | reflexivity].
Qed.

Lemma without_edges_link_upstream k ups :
  forall ns, map without_edges (link_upstream k ups ns) = map without_edges ns.
Proof.
  intros ns. rewrite DependencyClaims.link_upstream_fold. revert ns.
  induction ups as [| up ups IH]; intros ns; simpl; [reflexivity |].
  rewrite IH. unfold DependencyClaims.link_one.
  destruct (find_node ns up) as [upn |]; [| reflexivity].
  destruct (existsb (String.eqb k) (downstream_nodes upn)); [reflexivity |].
  apply without_edges_alter. intros n. reflexivity.
Qed.

Lemma without_edges_set_entry acc e :
  map without_edges (DependencyClaims.set_entry acc e) = map without_edges acc.
Proof.
  unfold DependencyClaims.set_entry.
  destruct (find_node acc (fst e)); [| reflexivity].
  rewrite without_edges_link_upstream. apply without_edges_alter.
  intros n. reflexivity.
Qed.

Lemma downstream_set_entry acc e j n :
  find_node acc j = Some n ->
  exists n', find_node (DependencyClaims.set_entry acc e) j = Some n'
             /\ incl (downstream_nodes n) (downstream_nodes n')
             /\ upstream_nodes n'
                = if andb (String.eqb j (fst e))
                          (match find_node acc (fst e) with Some _ => true | None => false end)
                  then snd e else upstream_nodes n.
Proof.
  intros Hj. destruct e as [k ups]. cbn [fst snd].
  destruct (find_node acc k) as [kn |] eqn:Hk.
  - rewrite (DependencyClaims.find_set_entry acc k ups j kn Hk), Hj. cbn [option_map].
    eexists. split; [reflexivity |]. split.
    + intros x Hx. apply DependencyClaims.entry_effect_grows. exact Hx.
    + rewrite DependencyClaims.entry_effect_upstream, andb_true_r. reflexivity.
  - rewrite (DependencyClaims.set_entry_unregistered acc k ups Hk).
    exists n. split; [exact Hj |]. split; [apply incl_refl |].
    rewrite andb_false_r. reflexivity.
Qed.

(** X12.  [set_node_dependencies] writes edge lists and nothing else: the
    dict keeps its nodes in their order, each with every field other than
    the two edge lists as it was, and listeners, generator, audit log and
    log are those of before.  Downstream lists only grow: an id that was in
    the downstream list of a node is still in it after the call. *)
Theorem set_node_dependencies_writes_edge_lists_only
        (deps : list (string * list string)) (s : Scheduler) :
  set_node_dependencies deps s = with_nodes (nodes (set_node_dependencies deps s)) s
  /\ map without_edges (nodes (set_node_dependencies deps s))
     = map without_edges (nodes s)
  /\ forall j n, find_node (nodes s) j = Some n ->
       exists n', find_node (nodes (set_node_dependencies deps s)) j = Some n'
                  /\ incl (downstream_nodes n) (downstream_nodes n').
Proof.
  rewrite DependencyClaims.set_node_dependencies_nodes. cbn [nodes with_nodes].
  split; [reflexivity |].
  generalize (nodes s) as acc. clear s.
  induction deps as [| e deps IH]; intros acc.
  - split; [reflexivity |]. intros j n Hj. exists n. split; [exact Hj | apply incl_refl].
  - cbn [fold_left]. destruct (IH (DependencyClaims.set_entry acc e)) as [H1 H2].
    split; [rewrite H1; apply without_edges_set_entry |].
    intros j n Hj.
    destruct (downstream_set_entry acc e j n Hj) as (n1 & Hn1 & Hincl & _).
    destruct (H2 j n1 Hn1) as (n2 & Hn2 & Hincl2).
    exists n2. split; [exact Hn2 |].
    intros x Hx. apply Hincl2, Hincl, Hx.
Qed.

Lemma upstream_fold_set_entry deps :
  forall acc j n,
    find_node acc j = Some n -> ~ In j (map fst deps) ->
    exists n', find_node (fold_left DependencyClaims.set_entry deps acc) j = Some n'
               /\ upstream_nodes n' = upstream_nodes n.
Proof.
  induction deps as [| e deps IH]; intros acc j n Hj Hnot.
  - exists n. split; [exact Hj | reflexivity].
  - cbn [fold_left].
    destruct (downstream_set_entry acc e j n Hj) as (n1 & Hn1 & _ & Hup).
    assert (E : String.eqb j (fst e) = false).
    { apply String.eqb_neq. intros ->. apply Hnot. left. reflexivity. }
    rewrite E in Hup. cbn [andb] in Hup.
    destruct (IH _ j n1 Hn1) as (n2 & Hn2 & Hup2).
    { intros Hin. apply Hnot. right. exact Hin. }
    exists n2. split; [exact Hn2 | congruence].
Qed.

Lemma fold_set_entry_unregistered deps :
  forall acc,
    (forall k, In k (map fst deps) -> find_node acc k = None) ->
    fold_left DependencyClaims.set_entry deps acc = acc.
Proof.
  induction deps as [| [k ups] deps IH]; intros acc H; [reflexivity |].
  cbn [fold_left].
  rewrite (DependencyClaims.set_entry_unregistered acc k ups);
    [| apply H; left; reflexivity].
  apply IH. intros k' Hk'. apply H. right. exact Hk'.
Qed.

(** X13.  [set_node_dependencies] on a dict of dependencies (distinct
    keys).  A registered key has its upstream list replaced by the list
    given, as it is given, ids that are not registered included; a registered
    node that is no key keeps its upstream list; and when no key is
    registered the call changes nothing. *)
Theorem set_node_dependencies_sets_upstream_as_given
        (deps : list (string * list string)) (s : Scheduler) :
  NoDup (map fst deps) ->
  (forall k ups n, In (k, ups) deps -> find_node (nodes s) k = Some n ->
     exists n', find_node (nodes (set_node_dependencies deps s)) k = Some n'
                /\ upstream_nodes n' = ups)
  /\ (forall j n, find_node (nodes s) j = Some n -> ~ In j (map fst deps) ->
       exists n', find_node (nodes (set_node_dependencies deps s)) j = Some n'
                  /\ upstream_nodes n' = upstream_nodes n)
  /\ ((forall k, In k (map fst deps) -> find_node (nodes s) k = None) ->
      set_node_dependencies deps s = s).
Proof.
  intros Hnd. rewrite DependencyClaims.set_node_dependencies_nodes.
  cbn [nodes with_nodes]. split; [| split].
  - intros k ups n Hin Hk.
    assert (Hreg : find_node (nodes s) (fst (k, ups)) <> None) by (simpl; congruence).
    destruct (DependencyClaims.fold_set_entry_settled deps (nodes s) Hnd (k, ups) Hin Hreg)
      as [Hup _].
    destruct (find_node (fold_left DependencyClaims.set_entry deps (nodes s)) k)
      as [n' |] eqn:E.
    + exists n'. split; [reflexivity |].
      apply (Hup n' (find_node_In _ _ _ E) (find_node_id _ _ _ E)).
    + apply DependencyClaims.fold_set_entry_registered in E. congruence.
  - intros j n Hj Hnot. apply (upstream_fold_set_entry deps (nodes s) j n Hj Hnot).
  - intros Hnone. rewrite fold_set_entry_unregistered by exact Hnone.
    destruct s; reflexivity.
Qed.

Lemma demo_dependencies_distinct : NoDup (map fst demo_dependencies).
Proof. apply ReadinessClaim.nodup_b_sound. vm_compute. reflexivity. Qed.

Lemma set_node_dependencies_sets_upstream_as_given_witness :
  (forall k ups n,
     In (k, ups) demo_dependencies ->
     find_node (nodes (register_nodes demo_nodes create_scheduler)) k = Some n ->
     exists n',
       find_node (nodes (set_node_dependencies demo_dependencies
                           (register_nodes demo_nodes create_scheduler))) k = Some n'
       /\ upstream_nodes n' = ups)
  /\ (forall j n,
       find_node (nodes (register_nodes demo_nodes create_scheduler)) j = Some n ->
       ~ In j (map fst demo_dependencies) ->
       exists n',
         find_node (nodes (set_node_dependencies demo_dependencies
                             (register_nodes demo_nodes create_scheduler))) j = Some n'
         /\ upstream_nodes n' = upstream_nodes n)
  /\ ((forall k, In k (map fst demo_dependencies) ->
                 find_node (nodes (register_nodes demo_nodes create_scheduler)) k = None) ->
      set_node_dependencies demo_dependencies
                            (register_nodes demo_nodes create_scheduler)
      = register_nodes demo_nodes create_scheduler).
Proof.
  exact (set_node_dependencies_sets_upstream_as_given
           demo_dependencies (register_nodes demo_nodes create_scheduler)
           demo_dependencies_distinct).
Defined.

End BridgeExtras.

(* ================================================================== *)
(** * The context layers: further properties *)
(* ================================================================== *)

Module ContextExtras.
Import Py HierarchicalContext.

(** ** The dict of a layer *)

Lemma ContextLevel_eqb_eq a b : ContextLevel_eqb a b = true <-> a = b.
Proof. destruct a, b; simpl; split; intros H; try reflexivity; discriminate H. Qed.

Lemma RecordId_eqb_eq a b : RecordId_eqb a b = true <-> a = b.
Proof.
  unfold RecordId_eqb. destruct a as [la da sa], b as [lb db sb]. simpl.
  rewrite !andb_true_iff, ContextLevel_eqb_eq, String.eqb_eq, Z.eqb_eq.
  split; [intros (-> & -> & ->); reflexivity | intros H; injection H; auto].
Qed.

Lemma RecordId_eqb_neq a b : RecordId_eqb a b = false <-> a <> b.
Proof.
  split.
  - intros H E. apply RecordId_eqb_eq in E. congruence.
  - intros H. destruct (RecordId_eqb a b) eqn:E; [| reflexivity].
    apply RecordId_eqb_eq in E. contradiction.
Qed.

Lemma records_get_set k r rs k' :
  records_get (records_set k r rs) k'
  = if RecordId_eqb k k' then Some r else records_get rs k'.
Proof.
  induction rs as [| [k0 r0] rs IH]; simpl.
  - destruct (RecordId_eqb k k'); reflexivity.
  - destruct (RecordId_eqb k0 k) eqn:E; simpl.
    + apply RecordId_eqb_eq in E. subst k0.
      destruct (RecordId_eqb k k'); reflexivity.
    + destruct (RecordId_eqb k0 k') eqn:E2; [| exact IH].
      apply RecordId_eqb_eq in E2. subst k0.
      rewrite (proj2 (RecordId_eqb_neq k k')); [reflexivity |].
      intros ->. rewrite ContextClaims.RecordId_eqb_refl in E. discriminate.
Qed.

Lemma layer_with_layer l v m l' :
  layer (with_layer l v m) l' = if ContextLevel_eqb l l' then v else layer m l'.
Proof. destruct l, l'; reflexivity. Qed.

Lemma clock_with_layer l v m : clock_reads (with_layer l v m) = clock_reads m.
Proof. destruct l; reflexivity. Qed.

Lemma layer_with_clock v m l : layer (with_clock_reads v m) l = layer m l.
Proof. destruct l; reflexivity. Qed.

Lemma indexes_with_layer l v m :
  project_contexts (with_layer l v m) = project_contexts m
  /\ node_contexts (with_layer l v m) = node_contexts m.
Proof. destruct l; split; reflexivity. Qed.

Lemma ContextLevel_eqb_refl l : ContextLevel_eqb l l = true.
Proof. destruct l; reflexivity. Qed.

Lemma id_with_default_ttl l r : id (with_default_ttl l r) = id r.
Proof. unfold with_default_ttl. destruct (ttl_minutes r); reflexivity. Qed.

Section Layers.
Variable wall : nat -> Time.

(** What [add_record] stores and what [get_record] then answers. *)
Lemma add_record_then_get_record_aux (l : ContextLevel) (r : ContextRecord) (m : Manager) :
  (forall k, records_get (layer (add_record l r m) l) k
             = if RecordId_eqb (id r) k then Some (with_default_ttl l r)
               else records_get (layer m l) k)
  /\ fst (get_record wall l (id r) (add_record l r m))
     = (if fst (is_expired wall (with_default_ttl l r) (clock_reads m)) then None
        else Some (set_last_accessed
                     (Some (wall (snd (is_expired wall (with_default_ttl l r)
                                                  (clock_reads m)))))
                     (with_default_ttl l r)))
  /\ (fst (is_expired wall (with_default_ttl l r) (clock_reads m)) = true ->
      records_get (layer (snd (get_record wall l (id r) (add_record l r m))) l) (id r)
      = Some (with_default_ttl l r)).
Proof.
  assert (Hget : forall k, records_get (layer (add_record l r m) l) k
                           = if RecordId_eqb (id r) k then Some (with_default_ttl l r)
                             else records_get (layer m l) k).
  { intros k. unfold add_record.
    rewrite layer_with_layer, ContextLevel_eqb_refl, records_get_set.
    rewrite id_with_default_ttl. reflexivity. }
  split; [exact Hget |].
  unfold get_record. rewrite (Hget (id r)), ContextClaims.RecordId_eqb_refl.
  assert (Hclock : clock_reads (add_record l r m) = clock_reads m).
  { unfold add_record. apply clock_with_layer. }
  rewrite Hclock.
  destruct (is_expired wall (with_default_ttl l r) (clock_reads m)) as [expired reads1].
  cbn [fst snd]. destruct expired; cbn [fst snd].
  - split; [reflexivity |]. intros _.
    rewrite layer_with_clock, (Hget (id r)), ContextClaims.RecordId_eqb_refl.
    reflexivity.
  - split; [reflexivity | intros H; discriminate H].
Qed.


(** ** Creating a record and finding it again *)

(** Every record is stored in the layer its id names: what [create_context]
    keeps. *)
Definition layers_keyed (m : Manager) : Prop :=
  forall l k r, records_get (layer m l) k = Some r -> id_level k = l.

Lemma get_record_absent l k m :
  records_get (layer m l) k = None -> get_record wall l k m = (None, m).
Proof. intros H. unfold get_record. rewrite H. reflexivity. Qed.

Lemma get_record_none_keeps_layers l k m :
  fst (get_record wall l k m) = None ->
  forall l', layer (snd (get_record wall l k m)) l' = layer m l'.
Proof.
  unfold get_record. destruct (records_get (layer m l) k) as [r |]; [| reflexivity].
  destruct (is_expired wall r (clock_reads m)) as [expired reads1].
  destruct expired; cbn [fst snd]; [| discriminate].
  intros _ l'. apply layer_with_clock.
Qed.

Lemma keyed_elsewhere m l k :
  layers_keyed m -> id_level k <> l -> records_get (layer m l) k = None.
Proof.
  intros Hm Hne. destruct (records_get (layer m l) k) as [r |] eqn:E; [| reflexivity].
  exfalso. apply Hne. apply (Hm l k r E).
Qed.

(** On a manager whose records are stored by level, [get_context] is the
    [get_record] of the layer the id names. *)
Lemma get_context_keyed k m :
  layers_keyed m -> get_context wall k m = get_record wall (id_level k) k m.
Proof.
  intros Hm. unfold get_context.
  assert (Hlater : forall l l',
            id_level k = l -> l' <> l ->
            fst (get_record wall l k m) = None ->
            get_record wall l' k (snd (get_record wall l k m))
            = (None, snd (get_record wall l k m))).
  { intros l l' Hl Hne Hnone. apply get_record_absent.
    rewrite (get_record_none_keeps_layers l k m Hnone).
    apply keyed_elsewhere; [exact Hm | congruence]. }
  destruct (id_level k) eqn:El.
  - destruct (get_record wall L1_SYSTEM k m) as [[r |] m1] eqn:E1; [reflexivity |].
    assert (Hn : fst (get_record wall L1_SYSTEM k m) = None) by (rewrite E1; reflexivity).
    pose proof (Hlater L1_SYSTEM L2_PROJECT eq_refl ltac:(discriminate) Hn) as H2.
    pose proof (Hlater L1_SYSTEM L3_NODE eq_refl ltac:(discriminate) Hn) as H3.
    pose proof (Hlater L1_SYSTEM L4_SESSION eq_refl ltac:(discriminate) Hn) as H4.
    rewrite E1 in H2, H3, H4. cbn [snd] in H2, H3, H4.
    rewrite H2, H3, H4. reflexivity.
  - rewrite (get_record_absent L1_SYSTEM k m)
      by (apply keyed_elsewhere; [exact Hm | congruence]).
    destruct (get_record wall L2_PROJECT k m) as [[r |] m1] eqn:E1; [reflexivity |].
    assert (Hn : fst (get_record wall L2_PROJECT k m) = None) by (rewrite E1; reflexivity).
    pose proof (Hlater L2_PROJECT L3_NODE eq_refl ltac:(discriminate) Hn) as H3.
    pose proof (Hlater L2_PROJECT L4_SESSION eq_refl ltac:(discriminate) Hn) as H4.
    rewrite E1 in H3, H4. cbn [snd] in H3, H4.
    rewrite H3, H4. reflexivity.
  - rewrite (get_record_absent L1_SYSTEM k m)
      by (apply keyed_elsewhere; [exact Hm | congruence]).
    rewrite (get_record_absent L2_PROJECT k m)
      by (apply keyed_elsewhere; [exact Hm | congruence]).
    destruct (get_record wall L3_NODE k m) as [[r |] m1] eqn:E1; [reflexivity |].
    assert (Hn : fst (get_record wall L3_NODE k m) = None) by (rewrite E1; reflexivity).
    pose proof (Hlater L3_NODE L4_SESSION eq_refl ltac:(discriminate) Hn) as H4.
    rewrite E1 in H4. cbn [snd] in H4. rewrite H4. reflexivity.
  - rewrite (get_record_absent L1_SYSTEM k m)
      by (apply keyed_elsewhere; [exact Hm | congruence]).
    rewrite (get_record_absent L2_PROJECT k m)
      by (apply keyed_elsewhere; [exact Hm | congruence]).
    rewrite (get_record_absent L3_NODE k m)
      by (apply keyed_elsewhere; [exact Hm | congruence]).
    destruct (get_record wall L4_SESSION k m) as [[r |] m1]; reflexivity.
Qed.

Section Creation.
Variable sha256_hex12 : string -> string.

Lemma layer_with_indexes v m l :
  layer (with_project_contexts v m) l = layer m l
  /\ layer (with_node_contexts v m) l = layer m l.
Proof. destruct l; split; reflexivity. Qed.

Lemma clock_with_indexes v m :
  clock_reads (with_project_contexts v m) = clock_reads m
  /\ clock_reads (with_node_contexts v m) = clock_reads m.
Proof. split; reflexivity. Qed.

(** The record [create_context] builds before it is stored. *)
Definition new_record (l : ContextLevel) (text : string) (meta : list (string * pyval))
           (sc : ContextScope) (project node session : option string) (iso : bool)
           (m : Manager) : ContextRecord :=
  mkRecord (mkId l (sha256_hex12 text)
                 (wall (clock_reads m) / microseconds_per_second))
           l sc text meta project node session
           (wall (S (clock_reads m))) None None iso.

Lemma create_context_result l text meta sc project node session iso m :
  fst (create_context wall sha256_hex12 l text meta sc project node session iso m)
  = with_default_ttl l (new_record l text meta sc project node session iso m)
  /\ (forall l',
        layer (snd (create_context wall sha256_hex12 l text meta sc project node
                                   session iso m)) l'
        = layer (add_record l (new_record l text meta sc project node session iso m)
                            (with_clock_reads (S (S (clock_reads m))) m)) l')
  /\ clock_reads (snd (create_context wall sha256_hex12 l text meta sc project node
                                      session iso m))
     = S (S (clock_reads m)).
Proof.
  unfold create_context, new_record. cbv zeta. cbn [fst snd].
  split; [reflexivity |].
  destruct (given project) as [p |]; destruct (given node) as [nd |];
    (split;
     [intros l';
      rewrite ?(proj2 (layer_with_indexes _ _ l')), ?(proj1 (layer_with_indexes _ _ l'));
      reflexivity
     | unfold add_record; cbn [clock_reads with_node_contexts with_project_contexts];
       rewrite clock_with_layer; reflexivity]).
Qed.

(** X15.  [create_context] followed by [get_context].  On a manager whose
    records are each stored in the layer their id names (the empty manager
    is one), [create_context] leaves a manager of the same kind, and
    [get_context] under the id of the record created returns that record,
    [last_accessed] set, unless its TTL has already run out, in which case
    it returns [None]. *)
Theorem create_context_then_get_context
        (l : ContextLevel) (text : string) (meta : list (string * pyval))
        (sc : ContextScope) (project node session : option string) (iso : bool)
        (m : Manager) :
  layers_keyed m ->
  layers_keyed (snd (create_context wall sha256_hex12 l text meta sc project node
                                    session iso m))
  /\ fst (get_context wall
            (id (fst (create_context wall sha256_hex12 l text meta sc project node
                                     session iso m)))
            (snd (create_context wall sha256_hex12 l text meta sc project node
                                 session iso m)))
     = (if fst (is_expired wall
                  (fst (create_context wall sha256_hex12 l text meta sc project node
                                       session iso m))
                  (S (S (clock_reads m))))
        then None
        else Some (set_last_accessed
                     (Some (wall (snd (is_expired wall
                              (fst (create_context wall sha256_hex12 l text meta sc
                                                   project node session iso m))
                              (S (S (clock_reads m)))))))
                     (fst (create_context wall sha256_hex12 l text meta sc project
                                          node session iso m)))).
Proof.
  intros Hm.
  destruct (create_context_result l text meta sc project node session iso m)
    as (Hr & Hlayers & Hclock).
  set (c := create_context wall sha256_hex12 l text meta sc project node session iso m)
    in *.
  set (r0 := new_record l text meta sc project node session iso m) in *.
  set (m0 := with_clock_reads (S (S (clock_reads m))) m) in *.
  destruct (add_record_then_get_record_aux l r0 m0) as [Hget _].
  assert (Hkeyed : layers_keyed (snd c)).
  { intros l' k r Hk. rewrite Hlayers in Hk.
    destruct (ContextLevel_eqb l l') eqn:E.
    - apply ContextLevel_eqb_eq in E. subst l'. rewrite Hget in Hk.
      destruct (RecordId_eqb (id r0) k) eqn:Ek.
      + apply RecordId_eqb_eq in Ek. subst k. reflexivity.
      + unfold m0 in Hk. rewrite layer_with_clock in Hk. apply (Hm l k r Hk).
    - unfold add_record in Hk. rewrite layer_with_layer, E in Hk.
      unfold m0 in Hk. rewrite layer_with_clock in Hk. apply (Hm l' k r Hk). }
  split; [exact Hkeyed |].
  rewrite (get_context_keyed _ _ Hkeyed).
  assert (Hid : id (fst c) = id r0) by (rewrite Hr; apply id_with_default_ttl).
  assert (Hlvl : id_level (id (fst c)) = l) by (rewrite Hid; reflexivity).
  rewrite Hlvl. unfold get_record.
  rewrite Hlayers, Hid, Hget, ContextClaims.RecordId_eqb_refl, Hclock, <- Hr.
  destruct (is_expired wall (fst c) (S (S (clock_reads m)))) as [expired reads1].
  cbn [fst snd]. destruct expired; reflexivity.
Qed.

End Creation.

(** ** What a node sees *)

Lemma opt_string_eqb_eq a b : opt_string_eqb a b = true <-> a = b.
Proof.
  destruct a as [x |], b as [y |]; simpl; split; intros H;
    try reflexivity; try discriminate H.
  - apply String.eqb_eq in H. congruence.
  - injection H as ->. apply String.eqb_refl.
Qed.

(** The four loops of [get_visible_context], each on the layer it reads. *)
Lemma get_visible_context_loops node project session m :
  exists reads1 reads2 reads3,
    visible_L1 (fst (get_visible_context wall node project session m))
    = fst (select wall (fun _ => true) (layer_L1 m) (clock_reads m))
    /\ visible_L2 (fst (get_visible_context wall node project session m))
       = match given project with
         | Some p =>
             fst (select wall
                    (fun r => andb (opt_string_eqb (project_id r) (Some p))
                                   (orb (negb (isolated r)) (negb (is_private (scope r)))))
                    (layer_L2 m) reads1)
         | None => []
         end
    /\ visible_L3 (fst (get_visible_context wall node project session m))
       = fst (select wall (fun r => opt_string_eqb (node_id r) (Some node))
                     (layer_L3 m) reads2)
    /\ visible_L4 (fst (get_visible_context wall node project session m))
       = match given session with
         | Some ss =>
             fst (select wall (fun r => opt_string_eqb (session_id r) (Some ss))
                         (layer_L4 m) reads3)
         | None => []
         end.
Proof.
  unfold get_visible_context.
  destruct (select wall (fun _ => true) (layer_L1 m) (clock_reads m)) as [v1 reads1].
  exists reads1.
  destruct (given project) as [p |].
  - destruct (select wall _ (layer_L2 m) reads1) as [v2 reads2] eqn:E2.
    exists reads2.
    destruct (select wall _ (layer_L3 m) reads2) as [v3 reads3] eqn:E3.
    exists reads3.
    destruct (given session) as [ss |].
    + destruct (select wall _ (layer_L4 m) reads3) as [v4 reads4] eqn:E4.
      cbn [fst visible_L1 visible_L2 visible_L3 visible_L4]. auto.
    + cbn [fst visible_L1 visible_L2 visible_L3 visible_L4]. auto.
  - exists reads1.
    destruct (select wall _ (layer_L3 m) reads1) as [v3 reads3] eqn:E3.
    exists reads3.
    destruct (given session) as [ss |].
    + destruct (select wall _ (layer_L4 m) reads3) as [v4 reads4] eqn:E4.
      cbn [fst visible_L1 visible_L2 visible_L3 visible_L4]. auto.
    + cbn [fst visible_L1 visible_L2 visible_L3 visible_L4]. auto.
Qed.

(** The records visible at each level come from the layer of that level and
    pass the test of the level. *)
Lemma visible_records node project session m :
  (forall r, In r (visible_L1 (fst (get_visible_context wall node project session m))) ->
             In r (map snd (layer_L1 m)))
  /\ (forall r, In r (visible_L2 (fst (get_visible_context wall node project session m))) ->
        In r (map snd (layer_L2 m))
        /\ project_id r = given project
        /\ (isolated r = false \/ scope r <> PRIVATE))
  /\ (forall r, In r (visible_L3 (fst (get_visible_context wall node project session m))) ->
        In r (map snd (layer_L3 m)) /\ node_id r = Some node)
  /\ (forall r, In r (visible_L4 (fst (get_visible_context wall node project session m))) ->
        In r (map snd (layer_L4 m)) /\ session_id r = given session).
Proof.
  destruct (get_visible_context_loops node project session m)
    as (reads1 & reads2 & reads3 & H1 & H2 & H3 & H4).
  rewrite H1, H2, H3, H4. clear H1 H2 H3 H4.
  split; [| split; [| split]].
  - intros r Hr. apply ContextClaims.select_keeps in Hr. tauto.
  - intros r Hr. destruct (given project) as [p |]; [| contradiction].
    apply ContextClaims.select_keeps in Hr. destruct Hr as [Hk Hin].
    apply andb_prop in Hk. destruct Hk as [Hp Hs].
    split; [exact Hin |]. split; [apply opt_string_eqb_eq; exact Hp |].
    apply orb_prop in Hs. destruct Hs as [Hs | Hs].
    + left. apply negb_true_iff. exact Hs.
    + right. intros E. rewrite E in Hs. discriminate Hs.
  - intros r Hr. apply ContextClaims.select_keeps in Hr. destruct Hr as [Hk Hin].
    split; [exact Hin | apply opt_string_eqb_eq; exact Hk].
  - intros r Hr. destruct (given session) as [ss |]; [| contradiction].
    apply ContextClaims.select_keeps in Hr. destruct Hr as [Hk Hin].
    split; [exact Hin | apply opt_string_eqb_eq; exact Hk].
Qed.

(** X16.  [get_visible_context].  System records are the same for every
    node, project and session asked for.  A project record is visible only
    when a project id is given and is the record's, and the record is not
    both isolated and private (so a project record created with the defaults
    is visible to no node); a node record only to the node whose id it
    carries; a session record only when a session id is given and is the
    record's.  Without a project id (none, or the empty string) no project
    record is listed, and without a session id no session record.  The call
    writes no layer and no index. *)
Theorem get_visible_context_rules
        (node : string) (project session : option string) (m : Manager) :
  (forall node' project' session',
     visible_L1 (fst (get_visible_context wall node project session m))
     = visible_L1 (fst (get_visible_context wall node' project' session' m)))
  /\ (forall r, In r (visible_L2 (fst (get_visible_context wall node project session m))) ->
        In r (map snd (layer_L2 m))
        /\ project_id r = given project
        /\ (isolated r = false \/ scope r <> PRIVATE))
  /\ (forall r, In r (visible_L3 (fst (get_visible_context wall node project session m))) ->
        In r (map snd (layer_L3 m)) /\ node_id r = Some node)
  /\ (forall r, In r (visible_L4 (fst (get_visible_context wall node project session m))) ->
        In r (map snd (layer_L4 m)) /\ session_id r = given session)
  /\ (forall l, layer (snd (get_visible_context wall node project session m)) l
                = layer m l)
  /\ project_contexts (snd (get_visible_context wall node project session m))
     = project_contexts m
  /\ node_contexts (snd (get_visible_context wall node project session m))
     = node_contexts m
  /\ (given project = None ->
      visible_L2 (fst (get_visible_context wall node project session m)) = [])
  /\ (given session = None ->
      visible_L4 (fst (get_visible_context wall node project session m)) = []).
Proof.
  destruct (visible_records node project session m) as (_ & H2 & H3 & H4).
  assert (Hnone : (given project = None ->
                   visible_L2 (fst (get_visible_context wall node project session m)) = [])
                  /\ (given session = None ->
                      visible_L4 (fst (get_visible_context wall node project session m))
                      = [])).
  { destruct (get_visible_context_loops node project session m)
      as (? & ? & ? & _ & E2 & _ & E4).
    split; intros E; [rewrite E in E2; exact E2 | rewrite E in E4; exact E4]. }
  destruct Hnone as [N2 N4].
  split; [| split; [exact H2 | split; [exact H3 | split; [exact H4 |]]]].
  2: rewrite <- !and_assoc; split; [split; [rewrite !and_assoc | exact N2] | exact N4].
  - intros node' project' session'.
    destruct (get_visible_context_loops node project session m)
      as (? & ? & ? & -> & _).
    destruct (get_visible_context_loops node' project' session' m)
      as (? & ? & ? & -> & _).
    reflexivity.
  - unfold get_visible_context.
    destruct (select wall (fun _ => true) (layer_L1 m) (clock_reads m)) as [v1 reads1].
    destruct (match given project with
              | Some p => _
              | None => ([], reads1)
              end) as [v2 reads2].
    destruct (select wall _ (layer_L3 m) reads2) as [v3 reads3].
    destruct (match given session with
              | Some ss => _
              | None => ([], reads3)
              end) as [v4 reads4].
    cbn [snd]. split; [intros l; apply layer_with_clock |]. split; reflexivity.
Qed.

(** ** The contexts of a node and of a project *)

Lemma collected_records (keep : ContextRecord -> bool) (P : ContextRecord -> Prop)
      (ids : list RecordId) :
  (forall r, keep r = true -> P r) ->
  forall found m,
    Forall P found ->
    List.length found <= List.length found + List.length ids ->
    Forall P
      (fst (fold_left
              (fun acc k =>
                 let '(found, m1) := acc in
                 match get_context wall k m1 with
                 | (Some r, m2) => if keep r then (found ++ [r], m2) else (found, m2)
                 | (None, m2) => (found, m2)
                 end)
              ids (found, m)))
    /\ List.length
         (fst (fold_left
                 (fun acc k =>
                    let '(found, m1) := acc in
                    match get_context wall k m1 with
                    | (Some r, m2) => if keep r then (found ++ [r], m2) else (found, m2)
                    | (None, m2) => (found, m2)
                    end)
                 ids (found, m)))
       <= List.length found + List.length ids.
Proof.
  intros Hkeep. induction ids as [| k ids IH]; intros found m Hf _.
  - simpl. split; [exact Hf | lia].
  - cbn [fold_left].
    destruct (get_context wall k m) as [[r |] m2].
    + destruct (keep r) eqn:E.
      * destruct (IH (found ++ [r]) m2) as [H1 H2].
        -- apply Forall_app. split; [exact Hf |]. constructor; [auto | constructor].
        -- lia.
        -- split; [exact H1 |]. rewrite length_app in H2. simpl in *. lia.
      * destruct (IH found m2 Hf) as [H1 H2]; [lia |].
        split; [exact H1 | simpl; lia].
    + destruct (IH found m2 Hf) as [H1 H2]; [lia |].
      split; [exact H1 | simpl; lia].
Qed.

(** X17.  [get_node_context] returns isolated records only, and
    [get_project_context] with [include_shared=False] records that are not
    isolated only; neither returns more records than the index holds ids for
    the node or project, and for a node or project the index does not know
    the answer is the empty list and nothing is read. *)
Theorem node_and_project_context_filters
        (node project : string) (include_shared : bool) (m : Manager) :
  Forall (fun r => isolated r = true) (fst (get_node_context wall node m))
  /\ List.length (fst (get_node_context wall node m))
     <= List.length (index_get (node_contexts m) node)
  /\ Forall (fun r => isolated r = false)
            (fst (get_project_context wall project false m))
  /\ List.length (fst (get_project_context wall project include_shared m))
     <= List.length (index_get (project_contexts m) project)
  /\ (index_get (node_contexts m) node = [] -> get_node_context wall node m = ([], m))
  /\ (index_get (project_contexts m) project = [] ->
      get_project_context wall project include_shared m = ([], m)).
Proof.
  split; [| split; [| split; [| split; [| split]]]].
  - apply (collected_records isolated (fun r => isolated r = true)); auto. simpl. lia.
  - apply (collected_records isolated (fun r => isolated r = true)); auto. simpl. lia.
  - unfold get_project_context.
    apply (collected_records (fun r => orb (negb (isolated r)) false)
                             (fun r => isolated r = false)); auto; [| simpl; lia].
    intros r H. rewrite orb_false_r in H. apply negb_true_iff. exact H.
  - unfold get_project_context.
    apply (collected_records (fun r => orb (negb (isolated r)) include_shared)
                             (fun _ => True)); auto. simpl. lia.
  - intros H. unfold get_node_context. rewrite H. reflexivity.
  - intros H. unfold get_project_context. rewrite H. reflexivity.
Qed.

(** ** The prompt built for a node *)

Section Prompt.
Variable code_points : string -> nat.

(** The visible records in the order the loops take them, each with the
    level it is listed under. *)
Definition in_level_order (v : Visible) : list (ContextLevel * ContextRecord) :=
  flat_map (fun l => map (pair l) (visible_at v l))
           [L1_SYSTEM; L2_PROJECT; L3_NODE; L4_SESSION].

(** The text of one part. *)
Definition part_text (lr : ContextLevel * ContextRecord) : string :=
  ("[" ++ level_value (fst lr) ++ "] " ++ content (snd lr))%string.

Definition tokens_of (lrs : list (ContextLevel * ContextRecord)) : Z :=
  fold_right (fun lr acc => (content_tokens code_points (snd lr) + acc)%Z) 0%Z lrs.

(** [chosen] lists some of the entries of [all], in the order of [all]. *)
Inductive taken_from {A : Type} : list A -> list A -> Prop :=
| taken_none : taken_from [] []
| taken_left (x : A) (chosen all : list A) :
    taken_from chosen all -> taken_from chosen (x :: all)
| taken_this (x : A) (chosen all : list A) :
    taken_from chosen all -> taken_from (x :: chosen) (x :: all).

Lemma taken_from_app {A : Type} (c1 a1 c2 a2 : list A) :
  taken_from c1 a1 -> taken_from c2 a2 -> taken_from (c1 ++ c2) (a1 ++ a2).
Proof.
  intros H1 H2. induction H1; simpl; [exact H2 | |]; constructor; assumption.
Qed.

Lemma taken_from_In {A : Type} (chosen all : list A) x :
  taken_from chosen all -> In x chosen -> In x all.
Proof.
  intros H. induction H; simpl; [tauto | tauto |].
  intros [-> | Hx]; tauto.
Qed.

Lemma tokens_of_app a b : tokens_of (a ++ b) = (tokens_of a + tokens_of b)%Z.
Proof.
  unfold tokens_of. induction a as [| x a IH]; simpl; [reflexivity |].
  fold (tokens_of (a ++ b)) in *. fold (tokens_of a) in *. lia.
Qed.

Lemma content_tokens_nonneg r : (0 <= content_tokens code_points r)%Z.
Proof. unfold content_tokens. apply Z.div_pos; lia. Qed.

(** The inner loop over the records of one level. *)
Lemma inner_loop max_tokens l rs :
  forall parts count,
    exists chosen,
      fold_left (add_part code_points max_tokens l) rs (parts, count)
      = (parts ++ map part_text chosen, (count + tokens_of chosen)%Z)
      /\ taken_from chosen (map (pair l) rs)
      /\ (chosen <> [] -> (count + tokens_of chosen <= max_tokens)%Z)
      /\ (0 <= tokens_of chosen)%Z.
Proof.
  induction rs as [| r rs IH]; intros parts count.
  - exists []. simpl. rewrite app_nil_r, Z.add_0_r.
    split; [reflexivity |]. split; [constructor |]. split; [congruence | lia].
  - cbn [fold_left add_part].
    destruct (count + content_tokens code_points r <=? max_tokens)%Z eqn:E.
    + destruct (IH (parts ++ [part_text (l, r)])
                   (count + content_tokens code_points r)%Z)
        as (chosen & Hf & Ht & Hb & Hn).
      exists ((l, r) :: chosen).
      split.
      { unfold part_text at 1 in Hf. cbn [fst snd] in Hf. rewrite Hf.
        rewrite <- app_assoc. cbn [map app]. f_equal.
        unfold tokens_of. cbn [fold_right snd]. fold (tokens_of chosen). lia. }
      split; [cbn [map]; constructor; exact Ht |].
      pose proof (content_tokens_nonneg r) as Hr.
      assert (Etok : tokens_of ((l, r) :: chosen)
                     = (content_tokens code_points r + tokens_of chosen)%Z)
        by reflexivity.
      rewrite Etok. split; [| lia].
      intros _. destruct chosen as [| c chosen'].
      * change (tokens_of []) with 0%Z. apply Z.leb_le in E. lia.
      * assert (Hne : c :: chosen' <> []) by discriminate.
        specialize (Hb Hne). lia.
    + destruct (IH parts count) as (chosen & Hf & Ht & Hb & Hn).
      exists chosen. split; [exact Hf |].
      split; [cbn [map]; constructor; exact Ht |]. split; assumption.
Qed.

(** The two loops together. *)
Lemma assemble_chosen max_tokens v :
  exists chosen,
    fst (assemble code_points max_tokens v) = map part_text chosen
    /\ taken_from chosen (in_level_order v)
    /\ (chosen <> [] -> (tokens_of chosen <= max_tokens)%Z)
    /\ (0 <= tokens_of chosen)%Z.
Proof.
  unfold assemble, in_level_order. cbn [fold_left flat_map].
  destruct (inner_loop max_tokens L1_SYSTEM (visible_at v L1_SYSTEM) [] 0%Z)
    as (c1 & -> & T1 & B1 & N1).
  destruct (inner_loop max_tokens L2_PROJECT (visible_at v L2_PROJECT)
                       ([] ++ map part_text c1) (0 + tokens_of c1)%Z)
    as (c2 & -> & T2 & B2 & N2).
  destruct (inner_loop max_tokens L3_NODE (visible_at v L3_NODE)
                       (([] ++ map part_text c1) ++ map part_text c2)
                       (0 + tokens_of c1 + tokens_of c2)%Z)
    as (c3 & -> & T3 & B3 & N3).
  destruct (inner_loop max_tokens L4_SESSION (visible_at v L4_SESSION)
                       ((([] ++ map part_text c1) ++ map part_text c2)
                          ++ map part_text c3)
                       (0 + tokens_of c1 + tokens_of c2 + tokens_of c3)%Z)
    as (c4 & -> & T4 & B4 & N4).
  exists (c1 ++ c2 ++ c3 ++ c4). cbn [fst].
  split; [rewrite !map_app, !app_assoc; reflexivity |].
  split.
  { rewrite app_nil_r. repeat apply taken_from_app; assumption. }
  rewrite !tokens_of_app. split; [| lia].
  intros Hne.
  destruct c4 as [| x4 c4']; [| assert (H : x4 :: c4' <> []) by discriminate;
                                specialize (B4 H); lia].
  change (tokens_of []) with 0%Z.
  destruct c3 as [| x3 c3']; [| assert (H : x3 :: c3' <> []) by discriminate;
                                specialize (B3 H); lia].
  change (tokens_of []) with 0%Z.
  destruct c2 as [| x2 c2']; [| assert (H : x2 :: c2' <> []) by discriminate;
                                specialize (B2 H); lia].
  change (tokens_of []) with 0%Z.
  destruct c1 as [| x1 c1']; [exfalso; apply Hne; reflexivity |].
  assert (H : x1 :: c1' <> []) by discriminate. specialize (B1 H). lia.
Qed.

(** X18.  [build_prompt_context].  The text is the parts of some of the
    records visible to the node, joined by blank lines, each part written
    [[level] content], in the order system, project, node, session and within
    a level in the order of the layer.  The token estimates
    ([len(content) // 4]) of the records taken add up to at most
    [max_tokens] (to nothing when [max_tokens] is negative), and a record
    listed under the node level carries the id of the node asked for. *)
Theorem build_prompt_context_within_budget
        (node : string) (project session : option string) (max_tokens : Z)
        (m : Manager) :
  exists chosen,
    fst (build_prompt_context wall code_points node project session max_tokens m)
    = String.concat (String newline (String newline EmptyString))
                    (map part_text chosen)
    /\ taken_from chosen
         (in_level_order (fst (get_visible_context wall node project session m)))
    /\ (0 <= tokens_of chosen <= Z.max 0 max_tokens)%Z
    /\ (forall r, In (L3_NODE, r) chosen -> node_id r = Some node).
Proof.
  unfold build_prompt_context.
  destruct (visible_records node project session m) as (_ & _ & H3 & _).
  destruct (get_visible_context wall node project session m) as [v m1].
  cbn [fst] in *.
  destruct (assemble_chosen max_tokens v) as (chosen & Hf & Ht & Hb & Hn).
  exists chosen. split; [rewrite Hf; reflexivity |]. split; [exact Ht |].
  split.
  - split; [exact Hn |]. destruct chosen as [| c chosen']; [simpl; lia |].
    assert (H : c :: chosen' <> []) by discriminate. specialize (Hb H). lia.
  - intros r Hr. apply (taken_from_In _ _ _ Ht) in Hr.
    unfold in_level_order in Hr. cbn [flat_map] in Hr.
    rewrite !in_app_iff, !in_map_iff in Hr.
    destruct Hr as [Hr | [Hr | [Hr | [Hr | []]]]];
      destruct Hr as (x & Hx & Hin); try discriminate Hx.
    injection Hx as ->. apply (H3 r Hin).
Qed.

End Prompt.

(** ** Cleaning a layer *)

(** The test of [is_expired] at clock value [t]. *)
Definition expired_at (t : Time) (r : ContextRecord) : bool :=
  match ttl_minutes r with
  | None => false
  | Some ttl => (created_at r + ttl * microseconds_per_minute <? t)%Z
  end.

Lemma is_expired_at r reads :
  fst (is_expired wall r reads) = expired_at (wall reads) r
  /\ reads <= snd (is_expired wall r reads) <= S reads
  /\ (fst (is_expired wall r reads) = true -> snd (is_expired wall r reads) = S reads).
Proof.
  unfold is_expired, expired_at.
  destruct (ttl_minutes r); cbn [fst snd]; repeat split; auto; try lia; discriminate.
Qed.

Lemma expired_at_later t t' r :
  (t <= t')%Z -> expired_at t r = true -> expired_at t' r = true.
Proof.
  unfold expired_at. destruct (ttl_minutes r); [| discriminate].
  rewrite !Z.ltb_lt. lia.
Qed.

(** The records [cleanup_expired] leaves, [ids] being the ids it deletes. *)
Definition survivors (ids : list RecordId) (rs : Records) : Records :=
  filter (fun kv => negb (existsb (RecordId_eqb (fst kv)) ids)) rs.

Lemma survivors_cons ids kv rs :
  survivors ids (kv :: rs)
  = if negb (existsb (RecordId_eqb (fst kv)) ids) then kv :: survivors ids rs
    else survivors ids rs.
Proof. reflexivity. Qed.

Lemma deleted_one_by_one ids :
  forall rs, fold_left (fun rs k => records_del k rs) ids rs = survivors ids rs.
Proof.
  unfold survivors. induction ids as [| k ids IH]; intros rs; cbn [fold_left].
  - simpl. induction rs as [| kv rs IHrs]; simpl; [reflexivity | f_equal; exact IHrs].
  - rewrite IH. unfold records_del.
    induction rs as [| kv rs IHrs]; simpl; [reflexivity |].
    destruct (RecordId_eqb (fst kv) k); simpl.
    + exact IHrs.
    + destruct (existsb (RecordId_eqb (fst kv)) ids); simpl; [| f_equal]; exact IHrs.
Qed.

Lemma records_get_survivors ids rs k :
  records_get (survivors ids rs) k
  = if existsb (RecordId_eqb k) ids then None else records_get rs k.
Proof.
  unfold survivors. induction rs as [| [k0 r0] rs IH]; simpl.
  - destruct (existsb (RecordId_eqb k) ids); reflexivity.
  - destruct (RecordId_eqb k0 k) eqn:E.
    + apply RecordId_eqb_eq in E. subst k0.
      destruct (existsb (RecordId_eqb k) ids) eqn:Ex; simpl.
      * exact IH.
      * rewrite ContextClaims.RecordId_eqb_refl. reflexivity.
    + destruct (existsb (RecordId_eqb k0) ids); simpl; [exact IH |].
      rewrite E. exact IH.
Qed.

Lemma records_get_In rs k r : records_get rs k = Some r -> In (k, r) rs.
Proof.
  induction rs as [| [k0 r0] rs IH]; simpl; [discriminate |].
  destruct (RecordId_eqb k0 k) eqn:E.
  - apply RecordId_eqb_eq in E. subst k0. intros H. injection H as ->. left. reflexivity.
  - intros H. right. apply IH. exact H.
Qed.

Lemma existsb_id_In k ids : existsb (RecordId_eqb k) ids = true <-> In k ids.
Proof.
  rewrite existsb_exists. split.
  - intros [x [Hx He]]. apply RecordId_eqb_eq in He. subst. exact Hx.
  - intros H. exists k. split; [exact H | apply ContextClaims.RecordId_eqb_refl].
Qed.

(** What [expired_ids] collects from a dict: the readings only go forward,
    the ids are keys of the dict, and each record was tested at a reading of
    its own, those collected being the ones found expired. *)
Lemma expired_ids_verdicts rs :
  forall reads,
    NoDup (map fst rs) ->
    reads <= snd (expired_ids wall rs reads)
    /\ (forall k, In k (fst (expired_ids wall rs reads)) -> In k (map fst rs))
    /\ List.length (fst (expired_ids wall rs reads))
       + List.length (survivors (fst (expired_ids wall rs reads)) rs)
       = List.length rs
    /\ (forall k r, In (k, r) rs ->
          exists t, reads <= t
                    /\ if existsb (RecordId_eqb k) (fst (expired_ids wall rs reads))
                       then t < snd (expired_ids wall rs reads)
                            /\ expired_at (wall t) r = true
                       else expired_at (wall t) r = false).
Proof.
  induction rs as [| [k0 r0] rs IH]; intros reads Hnd.
  - simpl. repeat split; try lia; intros; contradiction.
  - cbn [map fst] in Hnd. apply NoDup_cons_iff in Hnd. destruct Hnd as [Hfresh Hnd].
    cbn [expired_ids].
    destruct (is_expired_at r0 reads) as (Hv & Hr & Hs).
    destruct (is_expired wall r0 reads) as [expired reads1]. cbn [fst snd] in Hv, Hr, Hs.
    destruct (IH reads1 Hnd) as (Hle & Hkeys & Hlen & Hverdict).
    destruct (expired_ids wall rs reads1) as [ids reads2]. cbn [fst snd] in *.
    assert (Hk0 : existsb (RecordId_eqb k0) ids = false).
    { destruct (existsb (RecordId_eqb k0) ids) eqn:E; [| reflexivity].
      apply existsb_id_In in E. exfalso. apply Hfresh. apply Hkeys. exact E. }
    assert (Hrest : forall k r, In (k, r) rs -> RecordId_eqb k k0 = false).
    { intros k r Hin. apply RecordId_eqb_neq. intros ->. apply Hfresh.
      apply in_map_iff. exists (k0, r). split; [reflexivity | exact Hin]. }
    assert (Hsame : survivors (k0 :: ids) rs = survivors ids rs).
    { unfold survivors. apply filter_ext_in. intros [k r] Hin. cbn [fst existsb].
      rewrite (Hrest k r Hin). reflexivity. }
    destruct expired; cbn [fst snd].
    + split; [lia |]. split; [| split].
      * intros k [<- | Hk]; [left; reflexivity | right; apply Hkeys; exact Hk].
      * rewrite survivors_cons. cbn [fst existsb].
        rewrite ContextClaims.RecordId_eqb_refl. cbn [orb negb].
        rewrite Hsame. cbn [List.length]. lia.
      * intros k r [Hin | Hin].
        -- injection Hin as -> ->. exists reads. split; [lia |].
           cbn [existsb]. rewrite ContextClaims.RecordId_eqb_refl. cbn [orb].
           specialize (Hs eq_refl). split; [lia | congruence].
        -- destruct (Hverdict k r Hin) as (t & Ht & Hcase).
           exists t. split; [lia |]. cbn [existsb]. rewrite (Hrest k r Hin). exact Hcase.
    + split; [lia |]. split; [| split].
      * intros k Hk. right. apply Hkeys. exact Hk.
      * rewrite survivors_cons. cbn [fst]. rewrite Hk0. cbn [negb List.length]. lia.
      * intros k r [Hin | Hin].
        -- injection Hin as -> ->. exists reads. split; [lia |].
           rewrite Hk0. congruence.
        -- destruct (Hverdict k r Hin) as (t & Ht & Hcase).
           exists t. split; [lia | exact Hcase].
Qed.

Lemma cleanup_layer_layers l m :
  fst (cleanup_layer wall l m) = List.length (fst (expired_ids wall (layer m l) (clock_reads m)))
  /\ (forall l',
        layer (snd (cleanup_layer wall l m)) l'
        = if ContextLevel_eqb l l'
          then survivors (fst (expired_ids wall (layer m l) (clock_reads m))) (layer m l)
          else layer m l')
  /\ clock_reads (snd (cleanup_layer wall l m))
     = snd (expired_ids wall (layer m l) (clock_reads m))
  /\ project_contexts (snd (cleanup_layer wall l m)) = project_contexts m
  /\ node_contexts (snd (cleanup_layer wall l m)) = node_contexts m.
Proof.
  unfold cleanup_layer.
  destruct (expired_ids wall (layer m l) (clock_reads m)) as [ids reads1].
  cbn [fst snd]. rewrite deleted_one_by_one.
  split; [reflexivity |]. split; [| split; [| split]].
  - intros l'. rewrite layer_with_clock. apply layer_with_layer.
  - reflexivity.
  - cbn [project_contexts with_clock_reads]. apply (proj1 (indexes_with_layer _ _ _)).
  - cbn [node_contexts with_clock_reads]. apply (proj2 (indexes_with_layer _ _ _)).
Qed.


End Layers.

(** A manager with one session record, for a digest function that is
    constant. *)
Definition constant_digest (text : string) : string := "2c26b46b68ff".

Lemma create_manager_keyed : layers_keyed create_manager.
Proof. intros l k r H. destruct l; discriminate H. Qed.

Lemma create_context_then_get_context_witness :
  layers_keyed
    (snd (create_context GlobalBridge.demo_wall constant_digest L4_SESSION "hello" []
                         PRIVATE None None (Some "session_1") true create_manager))
  /\ fst (get_context GlobalBridge.demo_wall
            (id (fst (create_context GlobalBridge.demo_wall constant_digest L4_SESSION
                                     "hello" [] PRIVATE None None (Some "session_1")
                                     true create_manager)))
            (snd (create_context GlobalBridge.demo_wall constant_digest L4_SESSION
                                 "hello" [] PRIVATE None None (Some "session_1") true
                                 create_manager)))
     = (if fst (is_expired GlobalBridge.demo_wall
                  (fst (create_context GlobalBridge.demo_wall constant_digest
                                       L4_SESSION "hello" [] PRIVATE None None
                                       (Some "session_1") true create_manager))
                  (S (S (clock_reads create_manager))))
        then None
        else Some (set_last_accessed
                     (Some (GlobalBridge.demo_wall
                              (snd (is_expired GlobalBridge.demo_wall
                                      (fst (create_context GlobalBridge.demo_wall
                                              constant_digest L4_SESSION "hello" []
                                              PRIVATE None None (Some "session_1") true
                                              create_manager))
                                      (S (S (clock_reads create_manager)))))))
                     (fst (create_context GlobalBridge.demo_wall constant_digest
                                          L4_SESSION "hello" [] PRIVATE None None
                                          (Some "session_1") true create_manager)))).
Proof.
  exact (create_context_then_get_context
           GlobalBridge.demo_wall constant_digest L4_SESSION "hello" [] PRIVATE
           None None (Some "session_1") true create_manager create_manager_keyed).
Defined.

Definition one_session_record : Manager :=
  snd (create_context GlobalBridge.demo_wall constant_digest L4_SESSION "hello" []
                      PRIVATE None None (Some "session_1") true create_manager).

Lemma demo_wall_goes_forward :
  forall a b, a <= b -> (GlobalBridge.demo_wall a <= GlobalBridge.demo_wall b)%Z.
Proof. intros a b H. unfold GlobalBridge.demo_wall. lia. Qed.

Lemma one_session_record_distinct : NoDup (map fst (layer one_session_record L4_SESSION)).
Proof. cbv. constructor; [intros [] | constructor]. Qed.


End ContextExtras.

(* ================================================================== *)
(** * The task graph and the decomposer: further properties *)
(* ================================================================== *)

Module TaskExtras.
Import Py TaskDecomposer.

(** ** State updates of the task graph *)

Lemma lookup_alter f k ns j :
  lookup (alter f k ns) j
  = if String.eqb j k then option_map f (lookup ns j) else lookup ns j.
Proof.
  unfold alter. induction ns as [| [k0 n0] ns IH]; simpl.
  - destruct (String.eqb j k); reflexivity.
  - destruct (String.eqb k0 k) eqn:E; simpl; destruct (String.eqb k0 j) eqn:E2.
    + apply String.eqb_eq in E. apply String.eqb_eq in E2. subst.
      rewrite String.eqb_refl. reflexivity.
    + exact IH.
    + apply String.eqb_eq in E2. subst. rewrite E. reflexivity.
    + exact IH.
Qed.

Lemma keys_alter f k ns : map fst (alter f k ns) = map fst ns.
Proof.
  unfold alter. rewrite map_map. apply map_ext. intros [k0 n0]. simpl.
  destruct (String.eqb k0 k); reflexivity.
Qed.

(** What the ready check keeps of the dict [start] it began on: the keys,
    and every node as it was or, when it was PENDING, set READY. *)
Definition promoted_only (start cur : list (string * TaskNode)) : Prop :=
  map fst cur = map fst start
  /\ forall k n, lookup start k = Some n ->
       lookup cur k = Some n
       \/ (state n = PENDING /\ lookup cur k = Some (set_state READY n)).

Lemma TaskState_eqb_eq a b : TaskState_eqb a b = true <-> a = b.
Proof. destruct a, b; simpl; split; intros H; try reflexivity; discriminate H. Qed.

Lemma ready_check_loop_promotes start completed_title keys :
  forall cur,
    promoted_only start cur ->
    promoted_only start (ready_check_loop completed_title keys cur).
Proof.
  induction keys as [| k0 keys IH]; intros cur Hcur; simpl; [exact Hcur |].
  destruct (lookup cur k0) as [node |] eqn:Enode; [| apply IH; exact Hcur].
  destruct (TaskState_eqb (state node) PENDING) eqn:Est; simpl; [| apply IH; exact Hcur].
  destruct (existsb (fun dep => contains completed_title dep) (dependencies node)
            && all_deps_done cur node)%bool; [| apply IH; exact Hcur].
  apply IH. apply TaskState_eqb_eq in Est.
  destruct Hcur as [Hkeys Hnodes]. split; [rewrite keys_alter; exact Hkeys |].
  intros k n Hk. rewrite lookup_alter.
  destruct (String.eqb k k0) eqn:E; [| apply Hnodes; exact Hk].
  apply String.eqb_eq in E. subst k0.
  destruct (Hnodes k n Hk) as [H | [Hp H]]; rewrite H in Enode; injection Enode as <-.
  - right. split; [exact Est |]. rewrite H. reflexivity.
  - simpl in Est. discriminate Est.
Qed.

(** X20.  [TaskDAG.update_task_state].  The dict keeps its keys, and an id
    that is no key changes nothing.  The task named takes the new state.  Of
    the other tasks, none is written unless the new state is COMPLETED, and
    then only tasks that were PENDING, which are set READY: a task that is
    READY, RUNNING, COMPLETED, FAILED or BLOCKED is never touched by the
    completion of another. *)
Theorem update_task_state_guard (g : TaskDAG) (task_id : string) (st : TaskState) :
  map fst (nodes (update_task_state task_id st g)) = map fst (nodes g)
  /\ (lookup (nodes g) task_id = None -> update_task_state task_id st g = g)
  /\ (forall n, lookup (nodes g) task_id = Some n ->
        lookup (nodes (update_task_state task_id st g)) task_id
        = Some (set_state st n))
  /\ (forall k n, k <> task_id -> lookup (nodes g) k = Some n ->
        lookup (nodes (update_task_state task_id st g)) k = Some n
        \/ (st = COMPLETED /\ state n = PENDING
            /\ lookup (nodes (update_task_state task_id st g)) k
               = Some (set_state READY n))).
Proof.
  unfold update_task_state.
  destruct (lookup (nodes g) task_id) as [n0 |] eqn:E0.
  - set (ns := alter (set_state st) task_id (nodes g)).
    assert (Hself : lookup ns task_id = Some (set_state st n0)).
    { unfold ns. rewrite lookup_alter, String.eqb_refl, E0. reflexivity. }
    assert (Hother : forall k, k <> task_id -> lookup ns k = lookup (nodes g) k).
    { intros k Hk. unfold ns. rewrite lookup_alter.
      apply String.eqb_neq in Hk. rewrite Hk. reflexivity. }
    assert (Hplain : map fst ns = map fst (nodes g)
                     /\ (Some n0 = None -> with_nodes ns g = g)
                     /\ (forall n, Some n0 = Some n ->
                           lookup ns task_id = Some (set_state st n))
                     /\ (forall k n, k <> task_id -> lookup (nodes g) k = Some n ->
                           lookup ns k = Some n)).
    { split; [apply keys_alter |]. split; [discriminate |].
      split; [intros n H; injection H as <-; exact Hself |].
      intros k n Hk Hn. rewrite (Hother k Hk). exact Hn. }
    assert (Hdone : promoted_only ns (trigger_downstream_ready_check task_id ns)).
    { unfold trigger_downstream_ready_check. rewrite Hself.
      apply ready_check_loop_promotes. split; [reflexivity | auto]. }
    destruct st; cbn [nodes with_nodes];
      try (destruct Hplain as (H1 & H2 & H3 & H4);
           split; [exact H1 |]; split; [discriminate |]; split; [exact H3 |];
           intros k n Hk Hn; left; exact (H4 k n Hk Hn)).
    destruct Hdone as [Hkeys Hnodes].
    split; [rewrite Hkeys; apply keys_alter |]. split; [discriminate |]. split.
    + intros n H. injection H as <-.
      destruct (Hnodes task_id _ Hself) as [H | [Hp _]]; [exact H | discriminate Hp].
    + intros k n Hk Hn. rewrite <- (Hother k Hk) in Hn.
      destruct (Hnodes k n Hn) as [H | [Hp H]]; [left; exact H |].
      right. repeat split; assumption.
  - split; [reflexivity |]. split; [reflexivity |].
    split; [intros n H; discriminate H |].
    intros k n _ Hn. left. exact Hn.
Qed.

(** ** Task type and roles *)

(** Scores that do not rise along the list. *)
Fixpoint falling (l : list (string * nat)) : Prop :=
  match l with
  | [] => True
  | x :: rest => (forall y, In y rest -> snd y <= snd x) /\ falling rest
  end.

Lemma insert_by_score_same_items x l : Permutation (insert_by_score x l) (x :: l).
Proof.
  induction l as [| y l IH]; simpl; [apply Permutation_refl |].
  destruct (Nat.leb (snd y) (snd x)); [apply Permutation_refl |].
  apply (Permutation_trans (l' := y :: x :: l)).
  - apply perm_skip. exact IH.
  - apply perm_swap.
Qed.

Lemma insert_by_score_falling x l : falling l -> falling (insert_by_score x l).
Proof.
  induction l as [| y l IH]; simpl; [intros _; split; [intros z [] | exact I] |].
  intros [Hy Hl]. destruct (Nat.leb (snd y) (snd x)) eqn:E.
  - apply Nat.leb_le in E. split; [| split; assumption].
    intros z [<- | Hz]; [exact E |]. specialize (Hy z Hz). lia.
  - apply Nat.leb_gt in E. split; [| apply IH; exact Hl].
    intros z Hz.
    apply (Permutation_in _ (insert_by_score_same_items x l)) in Hz.
    destruct Hz as [<- | Hz]; [lia | apply Hy; exact Hz].
Qed.

Lemma sorted_by_score_ranks l :
  Permutation (sorted_by_score l) l /\ falling (sorted_by_score l).
Proof.
  induction l as [| x l [IHp IHf]]; simpl; [split; [apply perm_nil | exact I] |].
  split; [| apply insert_by_score_falling; exact IHf].
  apply (Permutation_trans (insert_by_score_same_items x (sorted_by_score l))).
  apply perm_skip. exact IHp.
Qed.

Lemma role_names_distinct : NoDup (map fst role_indicators).
Proof.
  repeat (constructor;
          [simpl; intros H; repeat (destruct H as [H | H]; [discriminate H |]); exact H |]).
  constructor.
Qed.

Lemma scored_roles_known task_lower :
  NoDup (map fst (role_scores task_lower))
  /\ incl (map fst (role_scores task_lower)) (map fst role_indicators).
Proof.
  unfold role_scores.
  set (scored := map (fun entry => (fst entry, indicator_score task_lower (snd entry)))
                     role_indicators).
  assert (Hnames : map fst scored = map fst role_indicators).
  { unfold scored. rewrite map_map. reflexivity. }
  rewrite <- Hnames. pose proof role_names_distinct as Hnd. rewrite <- Hnames in Hnd.
  clear Hnames. induction scored as [| kv scored IH]; simpl.
  - split; [constructor | intros x []].
  - simpl in Hnd. apply NoDup_cons_iff in Hnd. destruct Hnd as [Hfresh Hnd].
    destruct (IH Hnd) as [IH1 IH2].
    destruct (Nat.ltb 0 (snd kv)); simpl.
    + split.
      * constructor; [| exact IH1]. intros Hin. apply Hfresh. apply IH2. exact Hin.
      * intros x [<- | Hx]; [left; reflexivity | right; apply IH2; exact Hx].
    + split; [exact IH1 |]. intros x Hx. right. apply IH2. exact Hx.
Qed.

(** The loop that chooses the type, over the entries that are left. *)
Definition choose_from (task_lower : string) (entries : list (TaskType * list string))
           (held : TaskType * nat) : TaskType * nat :=
  fold_left
    (fun acc entry =>
       let score := indicator_score task_lower (snd entry) in
       if Nat.ltb (snd acc) score then (fst entry, score) else acc)
    entries held.

Lemma choose_from_step task_lower e entries held :
  choose_from task_lower (e :: entries) held
  = choose_from task_lower entries
      (if Nat.ltb (snd held) (indicator_score task_lower (snd e))
       then (fst e, indicator_score task_lower (snd e)) else held).
Proof. reflexivity. Qed.

Lemma choose_from_best task_lower entries :
  forall held,
    incl entries type_indicators ->
    (exists inds, In (fst held, inds) type_indicators
                  /\ indicator_score task_lower inds = snd held)
    \/ held = (DEVELOPMENT, 0) ->
    snd held <= snd (choose_from task_lower entries held)
    /\ (forall e, In e entries ->
          indicator_score task_lower (snd e) <= snd (choose_from task_lower entries held))
    /\ ((exists inds, In (fst (choose_from task_lower entries held), inds) type_indicators
                      /\ indicator_score task_lower inds
                         = snd (choose_from task_lower entries held))
        \/ choose_from task_lower entries held = (DEVELOPMENT, 0)).
Proof.
  induction entries as [| e entries IH]; intros held Hincl Hheld.
  - simpl. split; [lia |]. split; [intros e [] | exact Hheld].
  - rewrite choose_from_step.
    assert (Hincl' : incl entries type_indicators).
    { intros x Hx. apply Hincl. right. exact Hx. }
    destruct (Nat.ltb (snd held) (indicator_score task_lower (snd e))) eqn:E.
    + apply Nat.ltb_lt in E.
      destruct (IH (fst e, indicator_score task_lower (snd e)) Hincl') as (H1 & H2 & H3).
      * left. exists (snd e). cbn [fst snd]. split; [| reflexivity].
        destruct e as [ty inds]. apply Hincl. left. reflexivity.
      * cbn [fst snd] in *. split; [lia |]. split; [| exact H3].
        intros x [<- | Hx]; [exact H1 | apply H2; exact Hx].
    + apply Nat.ltb_ge in E.
      destruct (IH held Hincl' Hheld) as (H1 & H2 & H3).
      split; [exact H1 |]. split; [| exact H3].
      intros x [<- | Hx]; [lia | apply H2; exact Hx].
Qed.

Lemma choose_from_nothing task_lower entries held :
  (forall e, In e entries -> indicator_score task_lower (snd e) = 0) ->
  choose_from task_lower entries held = held.
Proof.
  revert held. induction entries as [| e entries IH]; intros held H; [reflexivity |].
  unfold choose_from. cbn [fold_left]. fold (choose_from task_lower entries).
  rewrite (H e (or_introl eq_refl)).
  assert (E : Nat.ltb (snd held) 0 = false) by (apply Nat.ltb_ge; lia).
  rewrite E. apply IH. intros x Hx. apply H. right. exact Hx.
Qed.

Lemma chosen_type_is_best task_lower :
  (exists inds,
     In (fst (choose_type task_lower), inds) type_indicators
     /\ forall e, In e type_indicators ->
           indicator_score task_lower (snd e) <= indicator_score task_lower inds)
  /\ ((forall e, In e type_indicators -> indicator_score task_lower (snd e) = 0) ->
      fst (choose_type task_lower) = DEVELOPMENT).
Proof.
  change (choose_type task_lower)
    with (choose_from task_lower type_indicators (DEVELOPMENT, 0)).
  split.
  - destruct (choose_from_best task_lower type_indicators (DEVELOPMENT, 0))
      as (_ & H2 & [[inds [Hin Hs]] | H3]).
    + apply incl_refl.
    + right. reflexivity.
    + exists inds. split; [exact Hin |]. intros e He. rewrite Hs. apply H2. exact He.
    + rewrite H3 in *. cbn [fst snd] in *.
      eexists. split; [right; left; reflexivity |].
      intros e He. specialize (H2 e He). lia.
  - intros H. rewrite (choose_from_nothing task_lower type_indicators _ H). reflexivity.
Qed.

Lemma first_three_roles (ranked : list (string * nat)) :
  NoDup (map fst ranked) ->
  incl (map fst ranked) (map fst role_indicators) ->
  (match ranked with [] => ["developer"] | _ => map fst (firstn 3 ranked) end) <> []
  /\ List.length (match ranked with
                  | [] => ["developer"]
                  | _ => map fst (firstn 3 ranked)
                  end) <= 3
  /\ NoDup (match ranked with [] => ["developer"] | _ => map fst (firstn 3 ranked) end)
  /\ incl (match ranked with [] => ["developer"] | _ => map fst (firstn 3 ranked) end)
          (map fst role_indicators).
Proof.
  intros Hnd Hknown. destruct ranked as [| x rest].
  - split; [discriminate |]. split; [simpl; lia |].
    split; [constructor; [intros [] | constructor] |].
    intros y [<- | []]. simpl. tauto.
  - set (l := x :: rest) in *.
    assert (Hsplit : map fst l = map fst (firstn 3 l) ++ map fst (skipn 3 l)).
    { rewrite <- map_app, firstn_skipn. reflexivity. }
    split; [unfold l; simpl; discriminate |].
    split; [rewrite length_map; apply firstn_le_length |].
    split.
    + rewrite Hsplit in Hnd. apply NoDup_app_remove_r in Hnd. exact Hnd.
    + intros y Hy. apply Hknown. rewrite Hsplit. apply in_or_app. left. exact Hy.
Qed.

Section Roles.
Variable lower : string -> string.

(** X21.  [identify_task_type_and_roles].  The roles returned are never
    empty, at most three, distinct and among the six roles known; they are
    the first three of the roles that scored, ranked by falling score, or
    ["developer"] alone when no role scored.  The type returned is one whose
    score no type exceeds; it is DEVELOPMENT when no type indicator occurs in
    the text. *)
Theorem identified_type_and_roles (task_description : string) :
  (exists ranked,
     Permutation ranked (role_scores (lower task_description))
     /\ falling ranked
     /\ snd (identify_task_type_and_roles lower task_description)
        = match ranked with
          | [] => ["developer"]
          | _ => map fst (firstn 3 ranked)
          end)
  /\ snd (identify_task_type_and_roles lower task_description) <> []
  /\ List.length (snd (identify_task_type_and_roles lower task_description)) <= 3
  /\ NoDup (snd (identify_task_type_and_roles lower task_description))
  /\ incl (snd (identify_task_type_and_roles lower task_description))
          (map fst role_indicators)
  /\ (exists inds,
        In (fst (identify_task_type_and_roles lower task_description), inds)
           type_indicators
        /\ forall e, In e type_indicators ->
              indicator_score (lower task_description) (snd e)
              <= indicator_score (lower task_description) inds)
  /\ ((forall e, In e type_indicators ->
          indicator_score (lower task_description) (snd e) = 0) ->
      fst (identify_task_type_and_roles lower task_description) = DEVELOPMENT).
Proof.
  set (t := lower task_description).
  destruct (sorted_by_score_ranks (role_scores t)) as [Hperm Hfall].
  destruct (scored_roles_known t) as [Hnd Hknown].
  assert (Hroles : snd (identify_task_type_and_roles lower task_description)
                   = match sorted_by_score (role_scores t) with
                     | [] => ["developer"]
                     | _ => map fst (firstn 3 (sorted_by_score (role_scores t)))
                     end).
  { unfold identify_task_type_and_roles. cbv zeta. cbn [snd]. fold t.
    destruct (sorted_by_score (role_scores t)) as [| x rest]; reflexivity. }
  assert (Htype : fst (identify_task_type_and_roles lower task_description)
                  = fst (choose_type t)) by reflexivity.
  split; [exists (sorted_by_score (role_scores t)); auto |].
  rewrite Hroles, Htype.
  destruct (first_three_roles (sorted_by_score (role_scores t))) as (R1 & R2 & R3 & R4).
  - apply (Permutation_NoDup (l := map fst (role_scores t))); [| exact Hnd].
    apply Permutation_map. apply Permutation_sym. exact Hperm.
  - intros x Hx. apply Hknown.
    apply (Permutation_in x (Permutation_map fst Hperm)). exact Hx.
  - destruct (chosen_type_is_best t) as [T1 T2].
    repeat (split; [assumption |]). exact T2.
Qed.

(** ** Subtasks *)

(** The check that every dependency of a subtask is the title of a subtask
    before it and that no title comes twice; [seen] holds the titles met. *)
Fixpoint resolved_from (seen : list string) (subs : list Subtask) : bool :=
  match subs with
  | [] => true
  | s :: rest =>
      forallb (fun d => existsb (String.eqb d) seen) (sub_dependencies s)
      && negb (existsb (String.eqb (sub_title s)) seen)
      && resolved_from (sub_title s :: seen) rest
  end.

Lemma named_in (x : string) (l : list string) :
  existsb (String.eqb x) l = true <-> In x l.
Proof.
  rewrite existsb_exists. split.
  - intros [y [Hy E]]. apply String.eqb_eq in E. subst y. exact Hy.
  - intros H. exists x. split; [exact H | apply String.eqb_refl].
Qed.

Lemma resolved_from_sound subs :
  forall seen,
    resolved_from seen subs = true ->
    NoDup (map sub_title subs)
    /\ (forall t, In t (map sub_title subs) -> ~ In t seen)
    /\ (forall pre s post, subs = pre ++ s :: post ->
          forall d, In d (sub_dependencies s) ->
                    In d seen \/ In d (map sub_title pre)).
Proof.
  induction subs as [| s0 subs IH]; intros seen H.
  - split; [constructor |]. split; [intros t [] |].
    intros pre s post E. destruct pre; discriminate E.
  - simpl in H. apply andb_prop in H. destruct H as [H Hrest].
    apply andb_prop in H. destruct H as [Hdeps Hfresh].
    destruct (IH _ Hrest) as (IH1 & IH2 & IH3).
    assert (Hnew : ~ In (sub_title s0) seen).
    { intros Hin. apply named_in in Hin. rewrite Hin in Hfresh. discriminate Hfresh. }
    split; [| split].
    + simpl. constructor; [| exact IH1].
      intros Hin. apply (IH2 _ Hin). left. reflexivity.
    + intros t [<- | Ht]; [exact Hnew |].
      intros Hin. apply (IH2 _ Ht). right. exact Hin.
    + intros pre s post E d Hd. destruct pre as [| p pre].
      * injection E as <- _. left. apply named_in.
        rewrite forallb_forall in Hdeps. apply Hdeps. exact Hd.
      * injection E as <- E. destruct (IH3 pre s post E d Hd) as [[<- | Hs] | Hp].
        -- right. left. reflexivity.
        -- left. exact Hs.
        -- right. right. exact Hp.
Qed.

(** The subtasks that are well made: some, each of a positive time and of a
    role of the table, with dependencies that resolve. *)
Definition well_made (subs : list Subtask) : Prop :=
  subs <> []
  /\ NoDup (map sub_title subs)
  /\ (forall pre s post, subs = pre ++ s :: post ->
        incl (sub_dependencies s) (map sub_title pre))
  /\ (forall s, In s subs ->
        (0 < sub_estimated_time s)%Z /\ In (sub_role s) (map fst role_indicators)).

Definition well_made_check (subs : list Subtask) : bool :=
  negb (Nat.eqb (List.length subs) 0)
  && resolved_from [] subs
  && forallb (fun s => Z.ltb 0 (sub_estimated_time s)
                       && existsb (String.eqb (sub_role s)) (map fst role_indicators))
             subs.

Lemma well_made_check_sound subs : well_made_check subs = true -> well_made subs.
Proof.
  unfold well_made_check. intros H.
  apply andb_prop in H. destruct H as [H Hall].
  apply andb_prop in H. destruct H as [Hsome Hres].
  destruct (resolved_from_sound subs [] Hres) as (R1 & _ & R3).
  split; [intros ->; discriminate Hsome |]. split; [exact R1 |]. split.
  - intros pre s post E d Hd. destruct (R3 pre s post E d Hd) as [[] | H]. exact H.
  - intros s Hs. rewrite forallb_forall in Hall. specialize (Hall s Hs).
    apply andb_prop in Hall. destruct Hall as [Ht Hr].
    split; [apply Z.ltb_lt; exact Ht | apply named_in; exact Hr].
Qed.

Lemma identified_roles_known (task_description : string) :
  snd (identify_task_type_and_roles lower task_description) <> []
  /\ incl (snd (identify_task_type_and_roles lower task_description))
          (map fst role_indicators).
Proof.
  set (t := lower task_description).
  destruct (sorted_by_score_ranks (role_scores t)) as [Hperm _].
  destruct (scored_roles_known t) as [Hnd Hknown].
  assert (Hroles : snd (identify_task_type_and_roles lower task_description)
                   = match sorted_by_score (role_scores t) with
                     | [] => ["developer"]
                     | _ => map fst (firstn 3 (sorted_by_score (role_scores t)))
                     end).
  { unfold identify_task_type_and_roles. cbv zeta. cbn [snd]. fold t.
    destruct (sorted_by_score (role_scores t)) as [| x rest]; reflexivity. }
  rewrite Hroles.
  destruct (first_three_roles (sorted_by_score (role_scores t))) as (R1 & _ & _ & R4).
  - apply (Permutation_NoDup (l := map fst (role_scores t))); [| exact Hnd].
    apply Permutation_map. apply Permutation_sym. exact Hperm.
  - intros x Hx. apply Hknown.
    apply (Permutation_in x (Permutation_map fst Hperm)). exact Hx.
  - split; assumption.
Qed.

(** X22.  [generate_subtasks] (with [_generate_expert_level_subtasks]).  For
    every description and every complexity it returns a list, the
    [IndexError] of [required_roles[0]] never being raised.  The list is not
    empty, no two subtasks have the same title, every dependency of a subtask
    is the title of a subtask earlier in the list, and every subtask has a
    positive time and one of the six roles of [role_indicators]. *)
Theorem generate_subtasks_well_made (task_description : string)
        (complexity : TaskComplexity) :
  exists subs,
    generate_subtasks lower task_description complexity = Some subs
    /\ subs <> []
    /\ NoDup (map sub_title subs)
    /\ (forall pre s post, subs = pre ++ s :: post ->
          incl (sub_dependencies s) (map sub_title pre))
    /\ (forall s, In s subs ->
          (0 < sub_estimated_time s)%Z /\ In (sub_role s) (map fst role_indicators)).
Proof.
  change (exists subs, generate_subtasks lower task_description complexity = Some subs
                       /\ well_made subs).
  destruct (identified_roles_known task_description) as [Hsome Hknown].
  unfold generate_subtasks.
  destruct (identify_task_type_and_roles lower task_description) as [ty roles].
  cbn [snd] in Hsome, Hknown.
  destruct complexity.
  - destruct roles as [| role roles]; [contradiction Hsome; reflexivity |].
    eexists. split; [reflexivity |].
    split; [discriminate |].
    split; [constructor; [intros [] | constructor] |]. split.
    + intros pre s post E. destruct pre as [| p pre].
      * injection E as <- _. intros d [].
      * injection E as _ E. destruct pre; discriminate E.
    + intros s [<- | []]. cbn [sub_estimated_time sub_role].
      split; [lia | apply Hknown; left; reflexivity].
  - eexists. split; [reflexivity |]. apply well_made_check_sound. vm_compute. reflexivity.
  - destruct (TaskType_eqb ty DEVELOPMENT);
      (eexists; split; [reflexivity |]; apply well_made_check_sound; vm_compute; reflexivity).
  - destruct (TaskType_eqb ty DEVELOPMENT);
      (eexists; split; [reflexivity |]; apply well_made_check_sound; vm_compute; reflexivity).
  - eexists. split; [reflexivity |]. apply well_made_check_sound. vm_compute. reflexivity.
Qed.

End Roles.

(** ** Parallel time *)

(** The step of the loop of [_calculate_parallel_time] over the groups. *)
Definition add_group (ns : list (string * TaskNode)) (acc : option Z)
           (group : string * list string) : option Z :=
  match acc, times_of ns (snd group) with
  | Some sequential_time, Some ts =>
      match max_time ts with
      | Some group_max_time => Some (sequential_time + group_max_time)%Z
      | None => None
      end
  | _, _ => None
  end.

(** The time of the node of key [tid], 0 for an id that is no key. *)
Definition time_at (ns : list (string * TaskNode)) (tid : string) : Z :=
  match lookup ns tid with
  | Some n => estimated_time_minutes n
  | None => 0%Z
  end.

Definition total (ts : list Z) : Z := fold_right Z.add 0%Z ts.

(** A group on which the loop raises: it is empty, or names an id that is no
    key of the dict. *)
Definition raising_group (ns : list (string * TaskNode)) (g : string * list string)
  : Prop :=
  snd g = [] \/ exists tid, In tid (snd g) /\ lookup ns tid = None.

Lemma times_of_found ns task_ids :
  (forall tid, In tid task_ids -> lookup ns tid <> None) ->
  times_of ns task_ids = Some (map (time_at ns) task_ids).
Proof.
  induction task_ids as [| tid rest IH]; intros H; [reflexivity |].
  simpl. rewrite IH by (intros x Hx; apply H; right; exact Hx).
  unfold time_at. destruct (lookup ns tid) eqn:E; [reflexivity |].
  contradiction (H tid (or_introl eq_refl)).
Qed.

Lemma times_of_raises ns task_ids :
  times_of ns task_ids = None
  <-> exists tid, In tid task_ids /\ lookup ns tid = None.
Proof.
  split.
  - induction task_ids as [| tid rest IH]; simpl; [discriminate |].
    destruct (lookup ns tid) eqn:E.
    + destruct (times_of ns rest); [discriminate |]. intros _.
      destruct (IH eq_refl) as [x [Hx Hn]]. exists x. split; [right |]; assumption.
    + intros _. exists tid. split; [left; reflexivity | exact E].
  - intros [x [Hx Hn]]. destruct (times_of ns task_ids) eqn:E; [| reflexivity].
    exfalso. revert l E. induction task_ids as [| tid rest IH]; [destruct Hx |].
    intros l. simpl. destruct Hx as [-> | Hx].
    + rewrite Hn. discriminate.
    + destruct (lookup ns tid); [| discriminate].
      destruct (times_of ns rest) eqn:E; [| discriminate].
      intros _. exact (IH Hx l0 eq_refl).
Qed.

Lemma group_time_raises ns g :
  (match times_of ns (snd g) with
   | Some ts => max_time ts
   | None => None
   end) = None <-> raising_group ns g.
Proof.
  unfold raising_group. destruct (times_of ns (snd g)) as [ts |] eqn:E.
  - split.
    + intros H. left. destruct ts; [| discriminate H].
      destruct (snd g) as [| tid rest]; [reflexivity |].
      simpl in E. destruct (lookup ns tid); [| discriminate E].
      destruct (times_of ns rest); discriminate E.
    + intros [H | H].
      * rewrite H in E. injection E as <-. reflexivity.
      * apply times_of_raises in H. rewrite H in E. discriminate E.
  - split; [| reflexivity]. intros _. right. apply times_of_raises. exact E.
Qed.

Lemma add_group_none ns groups : fold_left (add_group ns) groups None = None.
Proof. induction groups as [| g groups IH]; [reflexivity | exact IH]. Qed.

Lemma groups_raise ns groups :
  forall acc,
    fold_left (add_group ns) groups (Some acc) = None
    <-> exists g, In g groups /\ raising_group ns g.
Proof.
  induction groups as [| g groups IH]; intros acc.
  - simpl. split; [discriminate | intros [g [[] _]]].
  - cbn [fold_left]. pose proof (group_time_raises ns g) as Hg.
    unfold add_group at 2.
    destruct (times_of ns (snd g)) as [ts |].
    + destruct (max_time ts) as [m |].
      * rewrite IH. split.
        -- intros [x [Hx Hr]]. exists x. split; [right |]; assumption.
        -- intros [x [[<- | Hx] Hr]].
           ++ apply Hg in Hr. discriminate Hr.
           ++ exists x. split; assumption.
      * rewrite add_group_none. split; [| reflexivity].
        intros _. exists g. split; [left; reflexivity | apply Hg; reflexivity].
    + rewrite add_group_none. split; [| reflexivity].
      intros _. exists g. split; [left; reflexivity | apply Hg; reflexivity].
Qed.

Lemma parallel_time_unfolded ns groups :
  calculate_parallel_time ns groups
  = match fold_left (add_group ns) groups (Some 0%Z) with
    | Some sequential_time =>
        Some (sequential_time
              + total (map estimated_time_minutes (filter ungrouped (values ns))))%Z
    | None => None
    end.
Proof. reflexivity. Qed.

(** X23.  [_calculate_parallel_time] raises exactly when some group is empty
    (the [ValueError] of [max]) or names a task id that is no key of [nodes]
    (the [KeyError]); otherwise it returns a time. *)
Theorem calculate_parallel_time_raises_exactly_when
        (ns : list (string * TaskNode)) (groups : list (string * list string)) :
  calculate_parallel_time ns groups = None
  <-> exists g, In g groups
                /\ (snd g = []
                    \/ exists tid, In tid (snd g) /\ lookup ns tid = None).
Proof.
  rewrite parallel_time_unfolded. rewrite <- (groups_raise ns groups 0%Z).
  destruct (fold_left (add_group ns) groups (Some 0%Z)); split; intros H;
    try reflexivity; discriminate H.
Qed.

Lemma max_time_bounds ts :
  forall t, (0 <= t)%Z -> (forall x, In x ts -> (0 <= x)%Z) ->
            (t <= fold_left Z.max ts t <= t + total ts)%Z.
Proof.
  induction ts as [| x ts IH]; intros t Ht Hts; simpl; [lia |].
  assert (Hx : (0 <= x)%Z) by (apply Hts; left; reflexivity).
  destruct (IH (Z.max t x)) as [H1 H2]; [lia | intros y Hy; apply Hts; right; exact Hy |].
  unfold total in *. lia.
Qed.

Lemma total_app a b : total (a ++ b) = (total a + total b)%Z.
Proof. unfold total. induction a as [| x a IH]; simpl; [reflexivity | lia]. Qed.

Lemma groups_time_bounds ns groups :
  (forall g, In g groups -> ~ raising_group ns g) ->
  (forall tid, In tid (List.concat (map snd groups)) -> (0 <= time_at ns tid)%Z) ->
  forall acc,
  exists t,
    fold_left (add_group ns) groups (Some acc) = Some (acc + t)%Z
    /\ (0 <= t <= total (map (time_at ns) (List.concat (map snd groups))))%Z.
Proof.
  induction groups as [| g groups IH]; intros Hok Hpos acc.
  - exists 0%Z. simpl. split; [f_equal; lia | unfold total; simpl; lia].
  - destruct g as [name ids0].
    assert (Hg : ~ raising_group ns (name, ids0)) by (apply Hok; left; reflexivity).
    destruct ids0 as [| tid ids]; [contradiction Hg; left; reflexivity |].
    assert (Hfound : forall x, In x (tid :: ids) -> lookup ns x <> None).
    { intros x Hin Hn. apply Hg. right. exists x. split; assumption. }
    assert (Hhere : forall x, In x (tid :: ids) -> (0 <= time_at ns x)%Z).
    { intros x Hx. apply Hpos. cbn [map List.concat snd].
      apply in_or_app. left. exact Hx. }
    assert (Hthere : forall x, In x (List.concat (map snd groups)) ->
                               (0 <= time_at ns x)%Z).
    { intros x Hx. apply Hpos. cbn [map List.concat snd].
      apply in_or_app. right. exact Hx. }
    cbn [fold_left]. unfold add_group at 2. cbn [snd].
    rewrite (times_of_found _ _ Hfound). cbn [map max_time].
    destruct (max_time_bounds (map (time_at ns) ids) (time_at ns tid)) as [M1 M2].
    { apply Hhere. left. reflexivity. }
    { intros x Hx. apply in_map_iff in Hx. destruct Hx as [y [<- Hy]].
      apply Hhere. right. exact Hy. }
    destruct (IH (fun x Hx => Hok x (or_intror Hx)) Hthere
                 (acc + fold_left Z.max (map (time_at ns) ids) (time_at ns tid))%Z)
      as [t [Ht Hb]].
    exists (fold_left Z.max (map (time_at ns) ids) (time_at ns tid) + t)%Z.
    split; [rewrite Ht; f_equal; lia |].
    cbn [map List.concat snd]. rewrite map_app, total_app.
    assert (H0 : (0 <= time_at ns tid)%Z) by (apply Hhere; left; reflexivity).
    cbn [map]. unfold total at 1. cbn [fold_right]. fold (total (map (time_at ns) ids)).
    lia.
Qed.

Lemma time_at_other k n rest tid :
  tid <> k -> time_at ((k, n) :: rest) tid = time_at rest tid.
Proof.
  intros H. unfold time_at. simpl.
  destruct (String.eqb k tid) eqn:E; [| reflexivity].
  apply String.eqb_eq in E. congruence.
Qed.

Lemma total_without (f : string -> Z) k ids :
  NoDup ids -> In k ids ->
  total (map f ids) = (f k + total (map f (remove string_dec k ids)))%Z.
Proof.
  induction ids as [| x ids IH]; intros Hnd Hin; [destruct Hin |].
  apply NoDup_cons_iff in Hnd. destruct Hnd as [Hx Hnd].
  simpl. destruct (string_dec k x) as [<- | Hne].
  - rewrite notin_remove by exact Hx. unfold total. simpl. reflexivity.
  - destruct Hin as [-> | Hin]; [contradiction Hne; reflexivity |].
    unfold total in *. simpl. rewrite (IH Hnd Hin). lia.
Qed.

Lemma remove_distinct k (ids : list string) :
  NoDup ids -> NoDup (remove string_dec k ids).
Proof.
  induction ids as [| x ids IH]; intros Hnd; [constructor |].
  apply NoDup_cons_iff in Hnd. destruct Hnd as [Hx Hnd]. simpl.
  destruct (string_dec k x); [apply IH; exact Hnd |].
  constructor; [| apply IH; exact Hnd].
  intros Hin. apply in_remove in Hin. apply Hx. apply Hin.
Qed.

Lemma grouped_times_step k n (ns : list (string * TaskNode)) :
  total (map estimated_time_minutes
             (filter (fun n => negb (ungrouped n)) (values ((k, n) :: ns))))
  = ((if ungrouped n then 0 else estimated_time_minutes n)
     + total (map estimated_time_minutes
                  (filter (fun n => negb (ungrouped n)) (values ns))))%Z.
Proof. unfold values, total. simpl. destruct (ungrouped n); reflexivity. Qed.

(** The tasks named by the groups, each once, weigh no more than the tasks
    of the dict that are in a group. *)
Lemma grouped_times_bound ns :
  forall ids,
    NoDup ids ->
    (forall n, In n (values ns) -> (0 <= estimated_time_minutes n)%Z) ->
    (forall tid, In tid ids ->
       exists n, lookup ns tid = Some n /\ ungrouped n = false) ->
    (total (map (time_at ns) ids)
     <= total (map estimated_time_minutes
                   (filter (fun n => negb (ungrouped n)) (values ns))))%Z.
Proof.
  induction ns as [| [k n] ns IH]; intros ids Hnd Hpos Hin.
  - destruct ids as [| tid ids]; [unfold total; simpl; lia |].
    destruct (Hin tid (or_introl eq_refl)) as [x [Hx _]]. discriminate Hx.
  - assert (Hpos' : forall x, In x (values ns) -> (0 <= estimated_time_minutes x)%Z).
    { intros x Hx. apply Hpos. right. exact Hx. }
    assert (Hn : (0 <= estimated_time_minutes n)%Z) by (apply Hpos; left; reflexivity).
    assert (Hrest : forall l, (forall tid, In tid l -> In tid ids /\ tid <> k) ->
                              NoDup l ->
                              (total (map (time_at ((k, n) :: ns)) l)
                               <= total (map estimated_time_minutes
                                             (filter (fun n => negb (ungrouped n))
                                                     (values ns))))%Z).
    { intros l Hl Hndl.
      rewrite (map_ext_in (time_at ((k, n) :: ns)) (time_at ns)).
      - apply IH; [exact Hndl | exact Hpos' |].
        intros tid Ht. destruct (Hl tid Ht) as [Hi Hne].
        destruct (Hin tid Hi) as [x [Hx Hg]]. exists x. split; [| exact Hg].
        simpl in Hx. destruct (String.eqb k tid) eqn:E; [| exact Hx].
        apply String.eqb_eq in E. congruence.
      - intros tid Ht. apply time_at_other. apply (Hl tid Ht). }
    destruct (in_dec string_dec k ids) as [Hk | Hk].
    + rewrite (total_without (time_at ((k, n) :: ns)) k ids Hnd Hk).
      destruct (Hin k Hk) as [x [Hx Hg]]. simpl in Hx. rewrite String.eqb_refl in Hx.
      injection Hx as <-.
      rewrite grouped_times_step, Hg.
      assert (Hk' : time_at ((k, n) :: ns) k = estimated_time_minutes n).
      { unfold time_at. simpl. rewrite String.eqb_refl. reflexivity. }
      rewrite Hk'.
      specialize (Hrest (remove string_dec k ids)).
      assert (H : (total (map (time_at ((k, n) :: ns)) (remove string_dec k ids))
                   <= total (map estimated_time_minutes
                                 (filter (fun n => negb (ungrouped n)) (values ns))))%Z).
      { apply Hrest; [| apply remove_distinct; exact Hnd].
        intros tid Ht. apply in_remove in Ht. exact Ht. }
      lia.
    + assert (H : (total (map (time_at ((k, n) :: ns)) ids)
                   <= total (map estimated_time_minutes
                                 (filter (fun n => negb (ungrouped n)) (values ns))))%Z).
      { apply Hrest; [| exact Hnd].
        intros tid Ht. split; [exact Ht |]. intros ->. contradiction. }
      rewrite grouped_times_step. destruct (ungrouped n); lia.
Qed.

Lemma total_by_group (l : list TaskNode) :
  total (map estimated_time_minutes l)
  = (total (map estimated_time_minutes (filter ungrouped l))
     + total (map estimated_time_minutes (filter (fun n => negb (ungrouped n)) l)))%Z.
Proof.
  unfold total. induction l as [| n l IH]; simpl; [reflexivity |].
  destruct (ungrouped n); simpl; lia.
Qed.

Lemma ungrouped_times_positive (l : list TaskNode) :
  (forall n, In n l -> (0 <= estimated_time_minutes n)%Z) ->
  (0 <= total (map estimated_time_minutes (filter ungrouped l)))%Z.
Proof.
  unfold total. induction l as [| n l IH]; intros H; simpl; [lia |].
  assert (Hn : (0 <= estimated_time_minutes n)%Z) by (apply H; left; reflexivity).
  assert (Hl : (0 <= fold_right Z.add 0 (map estimated_time_minutes (filter ungrouped l)))%Z).
  { apply IH. intros x Hx. apply H. right. exact Hx. }
  destruct (ungrouped n); simpl; lia.
Qed.

(** X24.  [_calculate_parallel_time] on groups as [decompose_task] builds
    them: no group is empty, no task id is listed twice, every id listed is
    the key of a task that has a parallel group, and no time is negative.
    Then a time is returned, it is not negative, and it is at most the sum of
    the times of all tasks ([total_time] of [decompose_task]). *)
Theorem calculate_parallel_time_at_most_total
        (ns : list (string * TaskNode)) (groups : list (string * list string)) :
  (forall n, In n (values ns) -> (0 <= estimated_time_minutes n)%Z) ->
  (forall g, In g groups -> snd g <> []) ->
  NoDup (List.concat (map snd groups)) ->
  (forall tid, In tid (List.concat (map snd groups)) ->
     exists n, lookup ns tid = Some n /\ ungrouped n = false) ->
  exists t,
    calculate_parallel_time ns groups = Some t
    /\ (0 <= t <= total (map estimated_time_minutes (values ns)))%Z.
Proof.
  intros Hpos Hsome Hnd Hkeys.
  assert (Hat : forall tid, In tid (List.concat (map snd groups)) -> (0 <= time_at ns tid)%Z).
  { intros tid Ht. destruct (Hkeys tid Ht) as [n [Hn _]]. unfold time_at. rewrite Hn.
    apply Hpos. clear - Hn. induction ns as [| [k x] ns IH]; [discriminate Hn |].
    simpl in Hn. destruct (String.eqb k tid).
    - injection Hn as ->. left. reflexivity.
    - right. apply IH. exact Hn. }
  assert (Hok : forall g, In g groups -> ~ raising_group ns g).
  { intros g Hg [He | [tid [Ht Hn]]]; [exact (Hsome g Hg He) |].
    destruct (Hkeys tid) as [n [Hn' _]]; [| congruence].
    apply in_concat. exists (snd g). split; [apply in_map; exact Hg | exact Ht]. }
  destruct (groups_time_bounds ns groups Hok Hat 0%Z) as [t [Ht Hb]].
  rewrite parallel_time_unfolded, Ht. eexists. split; [reflexivity |].
  pose proof (grouped_times_bound ns _ Hnd Hpos Hkeys) as Hg.
  pose proof (total_by_group (values ns)) as Hsplit.
  pose proof (ungrouped_times_positive (values ns) Hpos) as Hu.
  lia.
Qed.

Definition demo_task (tid : string) (minutes : Z) (group : option string) : TaskNode :=
  mkTask tid tid tid DEVELOPMENT MODERATE minutes "developer" [] group 1%Z [] [] []
         PENDING "L3" [].

Definition demo_tasks : list (string * TaskNode) :=
  [ ("task_001", demo_task "task_001" 10%Z None);
    ("task_002", demo_task "task_002" 20%Z (Some "implementation"));
    ("task_003", demo_task "task_003" 30%Z (Some "implementation")) ].

Definition demo_groups : list (string * list string) :=
  [ ("implementation", ["task_002"; "task_003"]) ].

Lemma calculate_parallel_time_at_most_total_witness :
  exists t,
    calculate_parallel_time demo_tasks demo_groups = Some t
    /\ (0 <= t <= total (map estimated_time_minutes (values demo_tasks)))%Z.
Proof.
  apply (calculate_parallel_time_at_most_total demo_tasks demo_groups).
  - intros n [<- | [<- | [<- | []]]]; simpl; lia.
  - intros g [<- | []]. discriminate.
  - simpl. repeat (constructor; [simpl; intros H;
                                 repeat (destruct H as [H | H]; [discriminate H |]);
                                 exact H |]).
    constructor.
  - intros tid [<- | [<- | []]]; eexists; split; reflexivity.
Defined.

(** ** The execution plan *)

(** The step of the loop of [_generate_execution_plan] over the groups. *)
Definition add_phase (ns : list (string * TaskNode)) (max_instances : Z)
           (acc : option (list Phase)) (group : string * list string)
  : option (list Phase) :=
  match acc, nodes_of ns (snd group) with
  | Some phases, Some group_tasks =>
      Some (phases
              ++ [ mkPhase ("parallel_" ++ fst group) "parallel"
                           (Some (Z.min (Z.of_nat (List.length group_tasks))
                                        max_instances))
                           (map plan_task group_tasks) ])
  | _, _ => None
  end.

(** The phase [ph] is the parallel phase of the group [g]. *)
Definition phase_of_group (max_instances : Z) (g : string * list string) (ph : Phase)
  : Prop :=
  phase_name ph = ("parallel_" ++ fst g)%string
  /\ phase_type ph = "parallel"
  /\ phase_max_concurrent ph
     = Some (Z.min (Z.of_nat (List.length (snd g))) max_instances)
  /\ List.length (phase_tasks ph) = List.length (snd g).

Lemma nodes_of_raises ns task_ids :
  nodes_of ns task_ids = None
  <-> exists tid, In tid task_ids /\ lookup ns tid = None.
Proof.
  induction task_ids as [| tid rest IH]; simpl.
  - split; [discriminate | intros [x [[] _]]].
  - destruct (lookup ns tid) eqn:E.
    + destruct (nodes_of ns rest).
      * split; [discriminate |]. intros [x [[<- | Hx] Hn]]; [congruence |].
        assert (H : Some l = None) by (apply IH; exists x; split; assumption).
        discriminate H.
      * split; [| reflexivity]. intros _.
        destruct (proj1 IH eq_refl) as [x [Hx Hn]]. exists x. split; [right |]; assumption.
    + split; [| reflexivity]. intros _. exists tid. split; [left; reflexivity | exact E].
Qed.

Lemma nodes_of_length ns task_ids :
  forall group_tasks,
    nodes_of ns task_ids = Some group_tasks ->
    List.length group_tasks = List.length task_ids.
Proof.
  induction task_ids as [| tid rest IH]; simpl; intros group_tasks H.
  - injection H as <-. reflexivity.
  - destruct (lookup ns tid); [| discriminate H].
    destruct (nodes_of ns rest) as [l |]; [| discriminate H].
    injection H as <-. simpl. rewrite (IH l eq_refl). reflexivity.
Qed.

Lemma add_phase_none ns max_instances groups :
  fold_left (add_phase ns max_instances) groups None = None.
Proof. induction groups as [| g groups IH]; [reflexivity | exact IH]. Qed.

Lemma parallel_phases ns max_instances groups :
  forall phases,
    (fold_left (add_phase ns max_instances) groups (Some phases) = None
     <-> exists g tid, In g groups /\ In tid (snd g) /\ lookup ns tid = None)
    /\ (forall plan,
          fold_left (add_phase ns max_instances) groups (Some phases) = Some plan ->
          exists par, plan = phases ++ par
                      /\ Forall2 (phase_of_group max_instances) groups par).
Proof.
  induction groups as [| g groups IH]; intros phases.
  - simpl. split.
    + split; [discriminate | intros (g & tid & [] & _)].
    + intros plan H. injection H as <-. exists []. rewrite app_nil_r.
      split; [reflexivity | constructor].
  - cbn [fold_left]. unfold add_phase at 2 4.
    pose proof (nodes_of_raises ns (snd g)) as Hr.
    destruct (nodes_of ns (snd g)) as [group_tasks |] eqn:E.
    + destruct (IH (phases
                      ++ [mkPhase ("parallel_" ++ fst g) "parallel"
                                  (Some (Z.min (Z.of_nat (List.length group_tasks))
                                               max_instances))
                                  (map plan_task group_tasks)])) as [IH1 IH2].
      split.
      * rewrite IH1. split.
        -- intros (x & tid & Hx & Ht & Hn). exists x, tid. split; [right |]; auto.
        -- intros (x & tid & [<- | Hx] & Ht & Hn).
           ++ assert (H : @None (list TaskNode) = Some group_tasks)
                by (rewrite <- (proj2 Hr); [reflexivity | exists tid; split; assumption]).
              discriminate H.
           ++ exists x, tid. auto.
      * intros plan H. destruct (IH2 plan H) as (par & -> & Hpar).
        eexists (_ :: par). rewrite <- app_assoc. split; [reflexivity |].
        constructor; [| exact Hpar].
        pose proof (nodes_of_length ns (snd g) group_tasks E) as Hlen.
        unfold phase_of_group. cbn [phase_name phase_type phase_max_concurrent phase_tasks].
        rewrite length_map, Hlen. repeat split; reflexivity.
    + rewrite add_phase_none. split.
      * split; [| reflexivity]. intros _.
        destruct (proj1 Hr eq_refl) as [tid [Ht Hn]].
        exists g, tid. split; [left; reflexivity | split; assumption].
      * intros plan H. discriminate H.
Qed.

(** X25.  [_generate_execution_plan].  It raises exactly when a group names
    a task id that is no key of [nodes]; an empty group does not make it
    raise.  The plan it returns has one parallel phase for every group, in
    the order of the groups, after a sequential phase that is there exactly
    when some task has no parallel group.  The sequential phase lists the
    first two tasks without group, in dict order, and no others, however
    many there are; a parallel phase lists one task for every id of its group
    and its [max_concurrent] is the smaller of that number and
    [max_instances]. *)
Theorem generate_execution_plan_phases
        (ns : list (string * TaskNode)) (groups : list (string * list string))
        (max_instances : Z) :
  (generate_execution_plan ns groups max_instances = None
   <-> exists g tid, In g groups /\ In tid (snd g) /\ lookup ns tid = None)
  /\ (forall plan,
        generate_execution_plan ns groups max_instances = Some plan ->
        exists seq par,
          plan = seq ++ par
          /\ Forall2 (phase_of_group max_instances) groups par
          /\ seq = match filter ungrouped (values ns) with
                   | [] => []
                   | _ => [ mkPhase "sequential_preparation" "sequential" None
                                    (map plan_task
                                         (firstn 2 (filter ungrouped (values ns)))) ]
                   end
          /\ List.length plan
             = (if existsb ungrouped (values ns) then 1 else 0) + List.length groups
          /\ Forall (fun ph => List.length (phase_tasks ph) <= 2) seq).
Proof.
  set (seq := match filter ungrouped (values ns) with
              | [] => []
              | _ => [ mkPhase "sequential_preparation" "sequential" None
                               (map plan_task (firstn 2 (filter ungrouped (values ns)))) ]
              end).
  change (generate_execution_plan ns groups max_instances)
    with (fold_left (add_phase ns max_instances) groups (Some seq)).
  destruct (parallel_phases ns max_instances groups seq) as [H1 H2].
  split; [exact H1 |].
  intros plan H. destruct (H2 plan H) as (par & -> & Hpar).
  exists seq, par. split; [reflexivity |]. split; [exact Hpar |].
  split; [reflexivity |]. split.
  - rewrite length_app, <- (Forall2_length Hpar). f_equal.
    unfold seq. clear. induction (values ns) as [| n l IH]; [reflexivity |].
    simpl. destruct (ungrouped n); [reflexivity | exact IH].
  - unfold seq. destruct (filter ungrouped (values ns)) as [| n l]; constructor;
      [| constructor].
    cbn [phase_tasks]. rewrite length_map. apply firstn_le_length.
Qed.

End TaskExtras.
